(** * ScraperV2.3.8: a shallow embedding of [StoryScraperFramework]

    The development follows [src/ScraperV2.3.8.py] method by method.
    Strings are Rocq [string]s (one byte per character), Python sets are
    [gset string], Python lists are [list]s, and the effects of a method
    (requests, sleeps, printed lines, files written) are threaded
    through a [State] that records them in order.

    What the script gets from libraries whose code is not part of the
    repository is kept abstract: the answers of the CSS engine of
    BeautifulSoup are the fields of a [Soup], and [urljoin],
    [urlparse(url).hostname], the network and the PDF builder are the
    fields of the class [Externals].  The script's own control flow is
    written out, loop by loop.

    Selector strings are the script's, with the double quotes around
    attribute values written as single quotes; both spell the same
    selector, and the model only ever passes them to [select]. *)

From Stdlib Require Import String Ascii ZArith List Bool Lia Permutation Sorted DecimalString.
From stdpp Require Import gmap strings list.

Open Scope string_scope.
Open Scope list_scope.
Open Scope nat_scope.

(** ** Python string methods (byte strings) *)

Module Str.

Definition is_upper (c : ascii) : bool :=
  let n := nat_of_ascii c in (65 <=? n)%nat && (n <=? 90)%nat.

Definition lower_char (c : ascii) : ascii :=
  if is_upper c then ascii_of_nat (nat_of_ascii c + 32) else c.

(** [s.lower()] *)
Fixpoint lower (s : string) : string :=
  match s with
  | EmptyString => EmptyString
  | String c s' => String (lower_char c) (lower s')
  end.

(** [s.startswith(p)] *)
Definition startswith (s p : string) : bool := String.prefix p s.

(** [s.endswith(p)] *)
Definition endswith (s p : string) : bool :=
  String.prefix (String.rev p) (String.rev s).

(** [k in s] *)
Fixpoint contains (k s : string) : bool :=
  String.prefix k s ||
  match s with
  | EmptyString => false
  | String _ s' => contains k s'
  end.

(** the characters [str.isspace] and the regular expression class
    [\s] accept, below code point 128 *)
Definition is_space (c : ascii) : bool :=
  let n := nat_of_ascii c in
  ((9 <=? n)%nat && (n <=? 13)%nat) || ((28 <=? n)%nat && (n <=? 32)%nat).

Definition is_digit (c : ascii) : bool :=
  let n := nat_of_ascii c in (48 <=? n)%nat && (n <=? 57)%nat.

Fixpoint lstrip (s : string) : string :=
  match s with
  | EmptyString => EmptyString
  | String c s' => if is_space c then lstrip s' else s
  end.

Fixpoint rstrip (s : string) : string :=
  match s with
  | EmptyString => EmptyString
  | String c s' =>
      match rstrip s' with
      | EmptyString => if is_space c then EmptyString else String c EmptyString
      | r => String c r
      end
  end.

(** [s.strip()] *)
Definition strip (s : string) : string := rstrip (lstrip s).

Fixpoint all_digits (s : string) : bool :=
  match s with
  | EmptyString => true
  | String c s' => is_digit c && all_digits s'
  end.

(** [s.isdigit()] *)
Definition isdigit (s : string) : bool :=
  match s with
  | EmptyString => false
  | _ => all_digits s
  end.

(** truth value of a string: [if s] *)
Definition nonempty (s : string) : bool :=
  match s with EmptyString => false | _ => true end.

(** [str(n)] in an f-string *)
Definition of_nat (n : nat) : string := NilZero.string_of_uint (Nat.to_uint n).
Definition of_Z (z : Z) : string := NilZero.string_of_int (Z.to_int z).

(** [s.replace(c, r)] for a one-character pattern *)
Fixpoint replace (c : ascii) (r : string) (s : string) : string :=
  match s with
  | EmptyString => EmptyString
  | String d s' =>
      if Ascii.eqb d c then r +:+ replace c r s' else String d (replace c r s')
  end.

(** [s[:n]] *)
Fixpoint take (n : nat) (s : string) : string :=
  match n, s with
  | S n', String c s' => String c (take n' s')
  | _, _ => EmptyString
  end.

End Str.

(** ** Pages as the script sees them

    A [Tag] carries what the script reads off a BeautifulSoup element; a
    [Soup] answers the selector queries the script issues. *)

Record Tag := mkTag {
  href : option string;          (* l.get('href') *)
  get_text : string;             (* l.get_text() *)
  get_text_strip : string;       (* l.get_text(strip=True) *)
  a_hrefs : list (option string) (* [a.get('href') for a in p.find_all('a')] *)
}.

Record Soup := mkSoup {
  select : string -> list Tag;   (* soup.select(s), in match order *)
  find_all_p : list Tag          (* soup.find_all('p') *)
}.

(** [soup.select_one(s)] *)
Definition select_one (soup : Soup) (s : string) : option Tag :=
  match select soup s with
  | [] => None
  | t :: _ => Some t
  end.

(** [if href:] on an attribute that may be missing *)
Definition truthy (o : option string) : bool :=
  match o with
  | Some s => Str.nonempty s
  | None => false
  end.

(** ** Observable effects

    The trace records what the script itself does.  [EvGet] is a call
    of [session.get]: what the requests library sends inside that call,
    one request or, when the server redirects, several and to other
    hosts, is not part of the trace. *)

Inductive Event :=
| EvFetch (url : string)     (* make_request_with_retry(url) was entered *)
| EvSleep (lo hi : Z)        (* time.sleep(random.uniform(lo, hi)) *)
| EvGet (url : string)       (* a call of self.session.get(url, timeout=30) *)
| EvPrint (line : string)    (* print(line) *)
| EvBuild (path : string).   (* doc.build(story) wrote the file *)

(** outcome of [session.get] followed by [raise_for_status] *)
Inductive Outcome :=
| Ok (page : Soup)
| Fail (e : string).         (* a requests.RequestException, printed as e *)

Record State := mkState {
  clock : nat;               (* number of calls of session.get so far *)
  events : list Event;       (* what happened, oldest first *)
  files : gset string        (* paths that exist on disk *)
}.

Definition emit (e : Event) (st : State) : State :=
  {| clock := clock st; events := events st ++ [e]; files := files st |}.

Definition print (line : string) (st : State) : State := emit (EvPrint line) st.

Definition is_fetch (e : Event) : option string :=
  match e with EvFetch u => Some u | _ => None end.

Definition is_get (e : Event) : option string :=
  match e with EvGet u => Some u | _ => None end.

Definition is_network (e : Event) : bool :=
  match e with EvSleep _ _ | EvGet _ => true | _ => false end.

(** urls handed to the fetcher, in order *)
Definition fetches (l : list Event) : list string := omap is_fetch l.
(** urls handed to [session.get], one entry per call *)
Definition gets (l : list Event) : list string := omap is_get l.

(** ** What the script takes from outside

    [urljoin] and [urlparse(url).hostname] come from [urllib.parse], the
    network answers the [n]-th call of [session.get] of the run through
    [net], and [build] is reportlab turning a list of flowables into a
    file: [None] when it succeeds, [Some e] when it raises [e].
    [urljoin] is taken to accept every target: one it rejects raises
    ValueError, which no method catches, and the run that meets it does
    not return. *)

Inductive Style := Title | Heading1 | Heading2 | Normal.

Inductive Flowable :=
| Paragraph (text : string) (style : Style)
| Spacer (width height : nat).

Class Externals := {
  urljoin : string -> string -> string;
  hostname : string -> option string;
  net : nat -> string -> Outcome;
  build : string -> list Flowable -> option string
}.

(** the fields of [self] the methods read *)
Record StoryScraperFramework := mkFramework {
  base_url : string;
  downloads_folder : string
}.

(** [os.path.join(folder, name)] for a [name] without a slash *)
Definition path_join (folder name : string) : string :=
  match folder with
  | EmptyString => name
  | _ => if Str.endswith folder "/" then folder +:+ name else folder +:+ "/" +:+ name
  end.

(** [os.path.exists(path)] *)
Definition path_exists (path : string) (st : State) : bool :=
  bool_decide (path ∈ files st).

(** ** make_request_with_retry *)

Section Fetcher.
Context `{Externals}.

Definition blocked : list string := ["reddit"; "twitter"; "facebook"; "twitch"].

Definition host_of (url : string) : string :=
  match hostname url with
  | Some h => if Str.nonempty h then Str.lower h else ""
  | None => ""
  end.

Definition is_blocked (url : string) : bool :=
  existsb (fun k => Str.contains k (host_of url)) blocked.

(** the bounds handed to [random.uniform] before attempt [attempt] *)
Definition delay_bounds (attempt : Z) : Z * Z :=
  if (attempt =? 0)%Z then (1, 3)%Z else (2 ^ attempt, 2 ^ (attempt + 1))%Z.

(** [self.session.get(url, timeout=30)] then [r.raise_for_status()]:
    one call, answered by the network as a whole.  The call follows
    redirects (the script leaves [allow_redirects] at its default), so
    the page may come from another url than the one asked for; the
    trace shows the call, not the requests made inside it. *)
Definition session_get (url : string) (st : State) : Outcome * State :=
  (net (clock st) url,
   {| clock := S (clock st); events := events st ++ [EvGet url]; files := files st |}).

(** [range(n)] *)
Definition range (n : Z) : list Z := map Z.of_nat (seq 0 (Z.to_nat n)).

(** the body of [for attempt in range(max_retries+1)], over the
    attempts still to run; leaving the loop without a [return] gives
    Python's implicit [None] *)
Fixpoint retry_loop (url : string) (max_retries : Z) (attempts : list Z)
    (st : State) : option Soup * State :=
  match attempts with
  | [] => (None, st)
  | attempt :: rest =>
      let '(lo, hi) := delay_bounds attempt in
      let st1 := emit (EvSleep lo hi) st in
      let '(o, st2) := session_get url st1 in
      match o with
      | Ok r => (Some r, st2)
      | Fail e =>
          if (attempt =? max_retries)%Z then
            (None, print ("[ERROR] " +:+ url +:+ " failed after "
                          +:+ Str.of_Z (max_retries + 1) +:+ " tries: " +:+ e) st2)
          else
            retry_loop url max_retries rest
              (print ("[WARNING] " +:+ url +:+ " attempt "
                      +:+ Str.of_Z (attempt + 1) +:+ ": " +:+ e) st2)
      end
  end.

(** the first event only records that the method was called *)
Definition make_request_with_retry (url : string) (max_retries : Z)
    (st : State) : option Soup * State :=
  let st := emit (EvFetch url) st in
  if is_blocked url then (None, st)
  else retry_loop url max_retries (range (max_retries + 1)) st.

(** the call sites all use the default [max_retries=3] *)
Definition fetch (url : string) (st : State) : option Soup * State :=
  make_request_with_retry url 3 st.

End Fetcher.

(** ** sanitize_filename *)

Definition forbidden_chars : list ascii :=
  ["<"; ">"; ":"; ascii_of_nat 34; "/"; "\"; "|"; "?"; "*"]%char.

(** [re.sub] deleting every character of the forbidden class *)
Fixpoint remove_forbidden (fn : string) : string :=
  match fn with
  | EmptyString => EmptyString
  | String c s =>
      if existsb (Ascii.eqb c) forbidden_chars then remove_forbidden s
      else String c (remove_forbidden s)
  end.

(** [re.sub(r'\s+', ' ', fn)]: [in_run] says the previous character was
    white space, already replaced *)
Fixpoint collapse_ws (in_run : bool) (fn : string) : string :=
  match fn with
  | EmptyString => EmptyString
  | String c s =>
      if Str.is_space c then
        if in_run then collapse_ws true s else String " " (collapse_ws true s)
      else String c (collapse_ws false s)
  end.

Definition sanitize_filename (fn : string) : string :=
  let fn := remove_forbidden fn in
  let fn := Str.take 200 (Str.strip (collapse_ws false fn)) in
  if Str.nonempty fn then fn else "untitled".

(** ** extract_story_links *)

Definition story_link_sels : list string :=
  ["a[href*='/s/']"; "h3 a[href*='/s/']"; "h4 a[href*='/s/']";
   ".story-title a"; "div.story-list h3 a"; "div.content-item a[href*='story']";
   "article h2 a"; "h3 a, h4 a, h2 a"].

(** a [StoryLink] is the pair [(title, url)] *)
Definition StoryLink : Type := string * string.

Section Listing.
Context `{Externals}.
Variable self : StoryScraperFramework.

(** the inner [for l in links] *)
Definition collect_links (links : list Tag) (found : list StoryLink) : list StoryLink :=
  fold_left
    (fun found l =>
       match href l with
       | Some h =>
           if Str.nonempty h then
             let full := urljoin (base_url self) h in
             let t := if Str.nonempty (get_text_strip l) then get_text_strip l
                      else "Untitled" in
             found ++ [(t, full)]
           else found
       | None => found
       end)
    links found.

(** [for s in sels: ... break]: the first selector with any match is
    the only one used *)
Fixpoint first_listing (soup : Soup) (sels : list string) : list StoryLink :=
  match sels with
  | [] => []
  | s :: rest =>
      match select soup s with
      | [] => first_listing soup rest
      | links => collect_links links []
      end
  end.

(** [for t,u in found: if u not in seen: seen.add(u); uniq.append((t,u))] *)
Definition dedup_links (found : list StoryLink) : list StoryLink :=
  snd (fold_left
         (fun '(seen, uniq) '(t, u) =>
            if bool_decide (u ∈ (seen : gset string)) then (seen, uniq)
            else ({[u]} ∪ seen, uniq ++ [(t, u)]))
         found (∅, [])).

Definition extract_story_links (soup : Soup) : list StoryLink :=
  dedup_links (first_listing soup story_link_sels).

End Listing.

(** ** extract_story_content *)

Definition t_sels : list string :=
  ["h1"; "h1.headline"; "h1.story-title"; "h1.title"; ".story-title"; ".title";
   "h2.entry-title"; "header h1"; "div.story-header h1"; "[class*='title'] h1";
   "h1.storyname"; "div.story-header h2"].

Definition body_sels : list string :=
  ["div.story-text p"; ".story-content p"; ".story-body p"; "#story p";
   "div[class*='story'] p"; ".content p"; ".entry-content p"; "div.content p";
   "article p"; "#story-text p"; ".post-content p"; "div.text p"; "main p"; "p"].

Definition n_sels : list string :=
  ["a[href*='chapter']"; "a[href*='page']"; ".next-chapter a";
   ".pagination a[href*='page']"].

Definition series_sel : string := "a.z_t[href*='/series/se/']".

(** [a.get('href','')] *)
Definition href_or_empty (a : option string) : string :=
  match a with Some h => h | None => "" end.

(** the test of line 85 on one paragraph element *)
Definition para_ok (p : Tag) : bool :=
  let text := get_text_strip p in
  Str.nonempty text && (10 <? String.length text)
  && negb (existsb (fun a => Str.startswith (Str.lower (href_or_empty a)) "/s/") (a_hrefs p)).

(** the inner [for p in ps] building [val] *)
Definition collect_paras (ps : list Tag) : list string :=
  fold_left (fun val p => if para_ok p then val ++ [get_text_strip p] else val) ps [].

(** [for s in body_sels: ... if val and len(val)>1: paras=val; break] *)
Fixpoint body_loop (soup : Soup) (sels : list string) : list string :=
  match sels with
  | [] => []
  | s :: rest =>
      match select soup s with
      | [] => body_loop soup rest
      | ps =>
          let val := collect_paras ps in
          if (1 <? length val) then val else body_loop soup rest
      end
  end.

(** the list comprehension of line 90 *)
Definition fallback_paras (ps : list Tag) : list string :=
  fold_left
    (fun acc p =>
       if Str.nonempty (get_text_strip p) && (20 <? String.length (get_text_strip p))
       then acc ++ [get_text_strip p] else acc)
    ps [].

Definition extract_paras (soup : Soup) : list string :=
  match body_loop soup body_sels with
  | [] => fallback_paras (find_all_p soup)
  | paras => paras
  end.

(** [for s in t_sels: el=soup.select_one(s); if el: title=...; break] *)
Fixpoint title_loop (soup : Soup) (sels : list string) : string :=
  match sels with
  | [] => ""
  | s :: rest =>
      match select_one soup s with
      | Some el => get_text_strip el
      | None => title_loop soup rest
      end
  end.

(** the test of line 97 on one anchor *)
Definition next_ok (l : Tag) : bool :=
  match href l with
  | Some h =>
      Str.nonempty h
      && (Str.contains "next" (Str.lower (get_text l))
          || Str.contains "chapter" (Str.lower h)
          || Str.isdigit (Str.strip (get_text l)))
  | None => false
  end.

Section Content.
Context `{Externals}.
Variable self : StoryScraperFramework.

(** the two nested loops of lines 93-98 *)
Definition next_links (soup : Soup) (story_url : string) : list string :=
  fold_left
    (fun ch_links s =>
       fold_left
         (fun ch_links l =>
            if next_ok l then ch_links ++ [urljoin story_url (href_or_empty (href l))]
            else ch_links)
         (select soup s) ch_links)
    n_sels [].

(** [se['href']] cannot be missing: the selector asks for the
    attribute; a missing one is read as the empty string *)
Definition series_link (soup : Soup) : option string :=
  match select_one soup series_sel with
  | Some se => Some (urljoin (base_url self) (href_or_empty (href se)))
  | None => None
  end.

Definition extract_story_content (soup : Soup) (story_url : string) (st : State)
    : (string * list string * list string * option string) * State :=
  let title := title_loop soup t_sels in
  let st := if Str.nonempty title then st else print "[WARNING] no title" st in
  ((title, extract_paras soup, next_links soup story_url, series_link soup), st).

End Content.

(** ** The queue discipline shared by the three walks *)

(** an entry of the visit log of a walk: the url and, when its fetch
    gave a page, the paragraphs extracted from it *)
Definition Visit : Type := string * option (list string).

(** [for n in nexts: if n not in done and n not in todo: todo.append(n)] *)
Definition enqueue (nexts : list string) (done : gset string) (todo : list string)
    : list string :=
  fold_left
    (fun todo n =>
       if bool_decide (n ∈ done) || bool_decide (n ∈ todo) then todo else todo ++ [n])
    nexts todo.

(** ** Chapter order on a series page *)

Definition ch_sels : list string :=
  ["ul.series__works a.br_rj[href*='/s/']"; "div.sl-list a.br_rj[href*='/s/']";
   "div.sl-list a[href*='/s/']"; "div.series-nav a[href*='/s/']"].

(** [(ch_t, full, num)] *)
Definition ChapterRef : Type := string * string * Z.

Definition ch_num (c : ChapterRef) : Z := snd c.

Fixpoint drop (n : nat) (s : string) : string :=
  match n, s with
  | S n', String _ s' => drop n' s'
  | _, _ => s
  end.

Fixpoint take_digits (s : string) : string :=
  match s with
  | String c s' => if Str.is_digit c then String c (take_digits s') else EmptyString
  | EmptyString => EmptyString
  end.

(** [int(digits)] *)
Definition int_of_digits (s : string) : Z :=
  fold_left (fun acc c => (10 * acc + Z.of_nat (nat_of_ascii c - 48))%Z)
            (list_ascii_of_string s) 0%Z.

(** the regular expression of line 164 anchored at the start of [s],
    with re.I: [Ch] or [Pt], an optional dot, white space, then the
    digits of group 1.  The optional range suffix never changes group 1.
    No alternative overlaps another, so the first way to match is the
    only one. *)
Definition token_at (s : string) : option Z :=
  let w := Str.lower (Str.take 2 s) in
  if String.eqb w "ch" || String.eqb w "pt" then
    let r := drop 2 s in
    let r := if Str.startswith r "." then drop 1 r else r in
    let d := take_digits (Str.lstrip r) in
    if Str.nonempty d then Some (int_of_digits d) else None
  else None.

(** [re.search]: the leftmost position where the pattern matches *)
Fixpoint search_token (s : string) : option Z :=
  match token_at s with
  | Some n => Some n
  | None =>
      match s with
      | EmptyString => None
      | String _ s' => search_token s'
      end
  end.

(** lines 164-167 *)
Definition order_key (ch_t st : string) : Z :=
  match search_token ch_t with
  | Some n => n
  | None =>
      if String.eqb (Str.strip ch_t) (Str.strip st)
         || Str.startswith (Str.lower ch_t) (Str.lower st)
      then 1%Z else 999%Z
  end.

(** [list.sort(key=lambda x: x[2])]: Python's sort is stable and
    ascending, which fixes its result; insertion from the right computes
    that result *)
Fixpoint insert_chapter (x : ChapterRef) (l : list ChapterRef) : list ChapterRef :=
  match l with
  | [] => [x]
  | y :: l' =>
      if (ch_num x <=? ch_num y)%Z then x :: y :: l' else y :: insert_chapter x l'
  end.

Definition sort_chapters (l : list ChapterRef) : list ChapterRef :=
  fold_right insert_chapter [] l.

Section Series.
Context `{Externals}.
Variable self : StoryScraperFramework.

(** the inner [for e in es] of lines 159-168 *)
Definition collect_chapters (st_title : string) (es : list Tag)
    (ch_links : list ChapterRef) : list ChapterRef :=
  fold_left
    (fun ch_links e =>
       match href e with
       | Some h =>
           if Str.nonempty h && Str.contains "/s/" h then
             let full := if Str.startswith h "http" then h
                         else urljoin (base_url self) h in
             let ch_t := get_text_strip e in
             ch_links ++ [(ch_t, full, order_key ch_t st_title)]
           else ch_links
       | None => ch_links
       end)
    es ch_links.

(** [for s in ch_sels: ... if ch_links: break] *)
Fixpoint chapter_links (soup_series : Soup) (st_title : string) (sels : list string)
    (ch_links : list ChapterRef) : list ChapterRef :=
  match sels with
  | [] => ch_links
  | s :: rest =>
      match select soup_series s with
      | [] => chapter_links soup_series st_title rest ch_links
      | es =>
          match collect_chapters st_title es ch_links with
          | [] => chapter_links soup_series st_title rest []
          | found => found
          end
      end
  end.

End Series.

(** ** create_pdf *)

(** [item.replace('&','&amp;').replace('<','&lt;').replace('>','&gt;')] *)
Definition escape (item : string) : string :=
  Str.replace ">" "&gt;" (Str.replace "<" "&lt;" (Str.replace "&" "&amp;" item)).

(** what one [item] of [paras] appends to [story] (lines 126-133) *)
Definition pdf_item (item : string) : list Flowable :=
  if Str.startswith item "Chapter " then [Paragraph item Heading1; Spacer 1 24]
  else if Str.startswith item "PART " then [Paragraph item Heading2; Spacer 1 12]
  else if Str.nonempty (Str.strip item)
       then [Paragraph (escape item) Normal; Spacer 1 6]
       else [].

Definition pdf_story (title : string) (paras : list string) : list Flowable :=
  fold_left (fun story item => story ++ pdf_item item) paras
            [Paragraph title Title; Spacer 1 12].

Section Pdf.
Context `{Externals}.
Variable self : StoryScraperFramework.

Definition pdf_path (filename : string) : string :=
  path_join (downloads_folder self) (filename +:+ ".pdf").

Definition create_pdf (title : string) (paras : list string) (filename : string)
    (st : State) : bool * State :=
  let fp := pdf_path filename in
  match build fp (pdf_story title paras) with
  | None =>
      (true, {| clock := clock st; events := events st ++ [EvBuild fp];
                files := {[fp]} ∪ files st |})
  | Some e => (false, print ("[ERROR] PDF fail " +:+ title +:+ ": " +:+ e) st)
  end.

End Pdf.

(** ** The walks and scrape_story

    Every [while] loop runs on [fuel]; [None] means the fuel ran out
    before the queue was empty. *)

Definition newline : string := String (ascii_of_nat 10) EmptyString.

Section Story.
Context `{Externals}.
Variable self : StoryScraperFramework.

(** the loop of find_series_link_from_all_pages *)
Fixpoint series_walk (fuel : nat) (todo : list string) (done : gset string)
    (st : State) : option (option string * State) :=
  match fuel with
  | 0 => None
  | S fuel =>
      match todo with
      | [] => Some (None, st)
      | u :: todo =>
          if bool_decide (u ∈ done) then series_walk fuel todo done st
          else
            let done := {[u]} ∪ done in
            let '(r, st) := fetch u st in
            match r with
            | None => series_walk fuel todo done st
            | Some soup =>
                let '((_, _, nexts, ser), st) := extract_story_content self soup u st in
                if truthy ser then Some (ser, st)
                else series_walk fuel (enqueue nexts done todo) done st
            end
      end
  end.

Definition find_series_link_from_all_pages (fuel : nat) (story_url : string)
    (st : State) : option (option string * State) :=
  series_walk fuel [story_url] ∅ st.

(** what a page with paragraphs [pp] appends at index [part] *)
Definition add_part (part : nat) (pp : list string) (acc : list string) : list string :=
  (if 1 <? part then acc ++ ["PART " +:+ Str.of_nat part] else acc) ++ pp.

(** the page loop of one chapter (lines 176-189).  Besides [pc] the
    model hands back the final value of [part] and the visit log: one
    entry per url taken off the queue and not yet in [done], with the
    paragraphs of its page, or [None] when the fetch failed *)
Fixpoint chapter_walk (fuel : nat) (pages : list string) (done : gset string)
    (part : nat) (pc : list string) (log : list Visit) (st : State)
    : option (list string * nat * list Visit * State) :=
  match fuel with
  | 0 => None
  | S fuel =>
      match pages with
      | [] => Some (pc, part, log, st)
      | cu :: pages =>
          if bool_decide (cu ∈ done) then chapter_walk fuel pages done part pc log st
          else
            let done := {[cu]} ∪ done in
            let '(pr, st) := fetch cu st in
            match pr with
            | None => chapter_walk fuel pages done part pc (log ++ [(cu, None)]) st
            | Some ps =>
                let '((_, pp, nexts, _), st) := extract_story_content self ps cu st in
                let '(pc, st) :=
                  match pp with
                  | [] => (pc, st)
                  | _ => (add_part part pp pc,
                          print ("    Part " +:+ Str.of_nat part +:+ " ok") st)
                  end in
                chapter_walk fuel (enqueue nexts done pages) done (S part) pc
                             (log ++ [(cu, Some pp)]) st
            end
      end
  end.

(** [for ct,curl,_ in ch_links] (lines 173-191) *)
Fixpoint chapters_loop (fuel : nat) (chs : list ChapterRef) (cnum : nat)
    (allc : list string) (st : State) : option (list string * State) :=
  match chs with
  | [] => Some (allc, st)
  | (ct, curl, _) :: rest =>
      let st := print ("  " +:+ ct) st in
      '(pc, _, _, st) ← chapter_walk fuel [curl] ∅ 1 [] [] st;
      let heading :=
        if cnum =? 1 then "Chapter " +:+ Str.of_nat cnum +:+ ": " +:+ ct
        else newline +:+ "Chapter " +:+ Str.of_nat cnum +:+ ": " +:+ ct in
      chapters_loop fuel rest (S cnum) ((allc ++ [heading]) ++ pc) st
  end.

(** what the single story loop does with a page once it has its
    paragraphs and links (lines 214-219) *)
Definition visit_page (cu : string) (paras chs : list string)
    (todo : list string) (done : gset string) (part : nat) (allc : list string)
    (log : list Visit) (st : State)
    : list string * nat * list string * list Visit * State :=
  let '(allc, st) :=
    match paras with
    | [] => (allc, st)
    | _ => (add_part part paras allc,
            print ("    Part " +:+ Str.of_nat part +:+ " ok") st)
    end in
  (enqueue chs done todo, S part, allc, log ++ [(cu, Some paras)], st).

(** the page loop of single story mode (lines 204-219); the seed
    [surl] was fetched before the loop and is not fetched again.  The
    extra results are those of [chapter_walk]. *)
Fixpoint story_walk (fuel : nat) (surl : string) (pp ch_links : list string)
    (todo : list string) (done : gset string) (part : nat) (allc : list string)
    (log : list Visit) (st : State)
    : option (list string * nat * list Visit * State) :=
  match fuel with
  | 0 => None
  | S fuel =>
      match todo with
      | [] => Some (allc, part, log, st)
      | cu :: todo =>
          if bool_decide (cu ∈ done)
          then story_walk fuel surl pp ch_links todo done part allc log st
          else
            let done := {[cu]} ∪ done in
            if String.eqb cu surl then
              let '(todo, part, allc, log, st) :=
                visit_page cu pp ch_links todo done part allc log st in
              story_walk fuel surl pp ch_links todo done part allc log st
            else
              let '(rr, st) := fetch cu st in
              match rr with
              | None =>
                  story_walk fuel surl pp ch_links todo done part allc
                             (log ++ [(cu, None)]) st
              | Some ps =>
                  let '((_, paras, chs, _), st) := extract_story_content self ps cu st in
                  let '(todo, part, allc, log, st) :=
                    visit_page cu paras chs todo done part allc log st in
                  story_walk fuel surl pp ch_links todo done part allc log st
              end
      end
  end.

(** lines 143-193: [Some b] when the branch returned [b], [None] when
    control falls through to single story mode *)
Definition series_mode (fuel : nat) (stitle series : string) (st : State)
    : option (option bool * State) :=
  let st := print ("series found, scraping series for " +:+ stitle) st in
  let '(sr, st) := fetch series st in
  match sr with
  | None => Some (None, st)
  | Some soup_series =>
      let st_title :=
        match select_one soup_series "h1" with
        | Some st_el => get_text_strip st_el
        | None => stitle
        end in
      let safe := sanitize_filename st_title in
      if path_exists (pdf_path self safe) st
      then Some (Some true, print ("[SKIP] " +:+ safe +:+ ".pdf exists") st)
      else
        match chapter_links self soup_series st_title ch_sels [] with
        | [] => Some (None, st)
        | ch_links =>
            '(allc, st) ← chapters_loop fuel (sort_chapters ch_links) 1 [] st;
            match allc with
            | [] => Some (None, st)
            | _ =>
                let '(ok, st) := create_pdf self st_title allc safe st in
                if ok then Some (Some true, print ("Done: " +:+ st_title +:+ " saved") st)
                else Some (None, st)
            end
        end
  end.

(** lines 194-223 *)
Definition single_mode (fuel : nat) (stitle surl : string) (st : State)
    : option (bool * State) :=
  let st := print ("  single story mode for " +:+ stitle) st in
  let '(r, st) := fetch surl st in
  match r with
  | None => Some (false, st)
  | Some soup =>
      let '((t, pp, ch_links, _), st) := extract_story_content self soup surl st in
      let ft := if Str.nonempty t then t else stitle in
      let safe := sanitize_filename ft in
      if path_exists (pdf_path self safe) st
      then Some (true, print ("[SKIP] " +:+ safe +:+ ".pdf exists") st)
      else
        '(allc, _, _, st) ← story_walk fuel surl pp ch_links [surl] ∅ 1 [] [] st;
        let no_content := print ("[ERROR] no content " +:+ stitle) in
        match allc with
        | [] => Some (false, no_content st)
        | _ =>
            let '(ok, st) := create_pdf self ft allc safe st in
            if ok then Some (true, print ("Done: " +:+ ft +:+ " saved") st)
            else Some (false, no_content st)
        end
  end.

Definition scrape_story (fuel : nat) (stitle surl : string) (full_series : bool)
    (st : State) : option (bool * State) :=
  let st := print ("Story: " +:+ stitle) st in
  '(series, st) ← (if full_series then find_series_link_from_all_pages fuel surl st
                   else Some (None, st));
  '(returned, st) ← (if full_series && truthy series
                     then series_mode fuel stitle (href_or_empty series) st
                     else Some (None, st));
  match returned with
  | Some b => Some (b, st)
  | None => single_mode fuel stitle surl st
  end.

End Story.

(** ** get_next_page_url and scrape_category *)

Definition page_sels : list string :=
  ["a[href*='page=']"; ".pagination .next"; "a[rel='next']"; ".page-numbers.next"].

Fixpoint count_digits (s : string) : nat :=
  match s with
  | String c s' => if Str.is_digit c then S (count_digits s') else 0
  | EmptyString => 0
  end.

(** [re.sub] of every [page=] followed by digits with [repl]; [skip]
    counts the characters of the current match still to be dropped *)
Fixpoint sub_page (repl : string) (skip : nat) (s : string) : string :=
  match s with
  | EmptyString => EmptyString
  | String c s' =>
      match skip with
      | S k => sub_page repl k s'
      | 0 =>
          if Str.startswith s "page=" && (0 <? count_digits (drop 5 s))
          then repl +:+ sub_page repl (4 + count_digits (drop 5 s)) s'
          else String c (sub_page repl 0 s')
      end
  end.

(** [s.split('?')[0]] *)
Fixpoint before_query (s : string) : string :=
  match s with
  | EmptyString => EmptyString
  | String c s' => if Ascii.eqb c "?" then EmptyString else String c (before_query s')
  end.

Section Category.
Context `{Externals}.
Variable self : StoryScraperFramework.

(** the first anchor the selector loops of lines 228-233 return on *)
Definition page_link_ok (cur : nat) (l : Tag) : bool :=
  match href l with
  | Some h =>
      Str.nonempty h
      && (Str.contains "next" (Str.lower (get_text l))
          || Str.contains ("page=" +:+ Str.of_nat (cur + 1)) h)
  | None => false
  end.

Fixpoint page_link (soup : Soup) (cur : nat) (sels : list string) : option string :=
  match sels with
  | [] => None
  | s :: rest =>
      match List.find (page_link_ok cur) (select soup s) with
      | Some l => Some (urljoin (base_url self) (href_or_empty (href l)))
      | None => page_link soup cur rest
      end
  end.

(** lines 234-241 *)
Definition rewritten_page_url (cur : nat) : string :=
  let b := base_url self in
  let p := "page=" +:+ Str.of_nat (cur + 1) in
  let nxt :=
    if Str.contains "?" b then
      if Str.contains "page=" b then sub_page p 0 b else b +:+ "&" +:+ p
    else b +:+ "?" +:+ p in
  if Str.startswith b "https://tags.literotica.com/"
  then before_query b +:+ "?" +:+ p
  else nxt.

Definition get_next_page_url (soup : option Soup) (cur : nat) : string :=
  match soup with
  | Some soup =>
      match page_link soup cur page_sels with
      | Some u => u
      | None => rewritten_page_url cur
      end
  | None => rewritten_page_url cur
  end.

(** [for i,(st,surl) in enumerate(stories,1)] *)
Fixpoint stories_loop (fuel : nat) (stories : list StoryLink) (i total saved : nat)
    (st : State) : option (nat * State) :=
  match stories with
  | [] => Some (saved, st)
  | (t, surl) :: rest =>
      let st := print ("Story " +:+ Str.of_nat i +:+ "/" +:+ Str.of_nat total) st in
      '(ok, st) ← scrape_story self fuel t surl true st;
      stories_loop fuel rest (S i) total (if ok : bool then S saved else saved) st
  end.

(** [while cur<=max_pages]: [pages_left] is [max_pages + 1 - cur].  Besides
    the counters the loop hands back the story links it passed to
    scrape_story, in order. *)
Fixpoint category_loop (fuel pages_left cur found saved : nat) (done : gset string)
    (handed : list StoryLink) (st : State)
    : option (nat * nat * list StoryLink * State) :=
  match pages_left with
  | 0 => Some (found, saved, handed, st)
  | S pages_left =>
      let page := if cur =? 1 then base_url self else get_next_page_url None cur in
      if negb (Str.nonempty page) || bool_decide (page ∈ done)
      then Some (found, saved, handed, st)
      else
        let done := {[page]} ∪ done in
        let '(r, st) := fetch page st in
        match r with
        | None => Some (found, saved, handed, st)
        | Some soup =>
            match extract_story_links self soup with
            | [] => Some (found, saved, handed, st)
            | stories =>
                let st := print (Str.of_nat (length stories) +:+ " stories on page "
                                 +:+ Str.of_nat cur) st in
                '(saved, st) ← stories_loop fuel stories 1 (length stories) saved st;
                category_loop fuel pages_left (S cur) (found + length stories) saved done
                              (handed ++ stories) st
            end
        end
  end.

Definition scrape_category (fuel max_pages : nat) (st : State)
    : option (nat * nat * list StoryLink * State) :=
  let st := print ("Category: " +:+ base_url self) st in
  '(found, saved, handed, st) ← category_loop fuel max_pages 1 0 0 ∅ [] st;
  Some (found, saved, handed,
        print ("Done! found:" +:+ Str.of_nat found +:+ " saved:" +:+ Str.of_nat saved) st).

Definition scrape_single_story (fuel : nat) (st : State) : option (bool * State) :=
  scrape_story self fuel "Unknown" (base_url self) true
               (print ("Single: " +:+ base_url self) st).

End Category.

(** ** The claims of the specification, word for word

    Two definitions that follow the text of the specification rather
    than the script; they are compared with [next_ok] and [order_key]
    below. *)

(** section 4.2: an anchor qualifies as a next link if its visible text
    contains next (case-insensitive), or its target path contains a
    chapter/page indicator, or its visible text is purely numeric *)
Definition next_ok_spec (l : Tag) : bool :=
  Str.contains "next" (Str.lower (get_text l))
  || (Str.contains "chapter" (Str.lower (href_or_empty (href l)))
      || Str.contains "page" (Str.lower (href_or_empty (href l))))
  || Str.isdigit (Str.strip (get_text l)).

(** section 4.4: the parsed number if the label has a token; else 1 if
    the label equals the series title case-insensitively after trimming;
    else 999 *)
Definition order_key_spec (label title : string) : Z :=
  match search_token label with
  | Some n => n
  | None =>
      if String.eqb (Str.lower (Str.strip label)) (Str.lower (Str.strip title))
      then 1%Z else 999%Z
  end.

(** ** A small site to run the model on

    Every href of these pages is an absolute url, on which [urljoin]
    returns its second argument; [Demo.host] reads the host off a
    url of the shape scheme://host/path. *)

Module Demo.

Fixpoint after_scheme (s : string) : option string :=
  match s with
  | String ":" (String "/" (String "/" r)) => Some r
  | String _ s' => after_scheme s'
  | EmptyString => None
  end.

Fixpoint up_to_slash (s : string) : string :=
  match s with
  | String c s' => if Ascii.eqb c "/" then EmptyString else String c (up_to_slash s')
  | EmptyString => EmptyString
  end.

Definition host (url : string) : option string :=
  match after_scheme url with
  | Some r => Some (up_to_slash r)
  | None => None
  end.

(** a site is an answer per url, the same at every request *)
Definition world (web : string -> Outcome) : Externals :=
  {| urljoin := fun _ h => h;
     hostname := host;
     net := fun _ u => web u;
     build := fun _ _ => None |}.

Definition st0 : State := {| clock := 0; events := []; files := ∅ |}.

Definition self : StoryScraperFramework :=
  mkFramework "https://example.com/c/romance" "downloads".

Definition para (text : string) : Tag := mkTag None text text [].
Definition anchor (h text : string) : Tag := mkTag (Some h) text text [].

Fixpoint assoc (l : list (string * list Tag)) (s : string) : list Tag :=
  match l with
  | [] => []
  | (k, v) :: l' => if String.eqb k s then v else assoc l' s
  end.

(** a page given by the answers of its non-empty selectors *)
Definition soup_of (l : list (string * list Tag)) : Soup :=
  {| select := assoc l; find_all_p := assoc l "p" |}.

Definition story_url : string := "https://example.com/s/my-story".
Definition page2_url : string := "https://example.com/s/my-story?page=2".
Definition page3_url : string := "https://example.com/s/my-story?page=3".

Definition body1 : list Tag :=
  [para "It was a dark and stormy night."; para "Nobody came to the door."].
Definition body3 : list Tag :=
  [para "The morning after was quiet."; para "She left before breakfast."].

(** the first page of a story: a title, two paragraphs, links to the
    pages 2 and 3 *)
Definition story_page : Soup :=
  soup_of [("h1", [para "My Story"]);
           ("div.story-text p", body1);
           ("p", body1);
           ("a[href*='page']", [anchor page2_url "2"; anchor page3_url "3"])].

Definition last_page : Soup :=
  soup_of [("h1", [para "My Story"]);
           ("div.story-text p", body3);
           ("p", body3)].

(** page 2 is down, the rest of the story answers *)
Definition broken_site (u : string) : Outcome :=
  if String.eqb u story_url then Ok story_page
  else if String.eqb u page3_url then Ok last_page
  else Fail "503 Server Error".

(** a one-page story *)
Definition short_page : Soup :=
  soup_of [("h1", [para "My Story"]); ("div.story-text p", body1); ("p", body1)].

Definition listing : Soup :=
  soup_of [("a[href*='/s/']", [anchor story_url "My Story"])].

(** a category whose first and second listing page both link to the
    same one-page story *)
Definition category_site (u : string) : Outcome :=
  if String.eqb u story_url then Ok short_page
  else if String.eqb u "https://example.com/c/romance" then Ok listing
  else if String.eqb u "https://example.com/c/romance?page=3" then Ok listing
  else Fail "404 Not Found".

(** two pages whose next links point at each other *)
Definition ring_a : string := "https://example.com/s/ring?page=1".
Definition ring_b : string := "https://example.com/s/ring?page=2".

Definition ring_site (u : string) : Outcome :=
  if String.eqb u ring_a then
    Ok (soup_of [("div.story-text p", body1); ("a[href*='page']", [anchor ring_b "next"])])
  else if String.eqb u ring_b then
    Ok (soup_of [("div.story-text p", body3); ("a[href*='page']", [anchor ring_a "next"])])
  else Fail "404 Not Found".

Definition dead_site (u : string) : Outcome := Fail "Read timed out".

(** a series page whose first entry has no chapter token and only
    starts with the series title *)
Definition series_page : Soup :=
  soup_of [("h1", [para "Summer Nights"]);
           ("div.sl-list a[href*='/s/']",
            [anchor "https://example.com/s/summer-nights-epilogue" "Summer Nights Epilogue";
             anchor "https://example.com/s/summer-nights-ch-02" "Summer Nights Ch. 02"])].

(** a pager whose links carry page in the target but neither next nor
    chapter nor a number *)
Definition pager_page : Soup :=
  soup_of [("a[href*='page']", [anchor "https://example.com/s/my-story?page=1" "Previous"])].

(** what the page walk of a chapter makes of [broken_site] *)
Definition broken_log : list Visit :=
  [(story_url, Some ["It was a dark and stormy night."; "Nobody came to the door."]);
   (page2_url, None);
   (page3_url, Some ["The morning after was quiet."; "She left before breakfast."])].

Definition broken_text : list string :=
  ["It was a dark and stormy night."; "Nobody came to the door.";
   "PART 2"; "The morning after was quiet."; "She left before breakfast."].

(** the state a run ends in, [st0] when it ran out of fuel *)
Definition final_state {A} (r : option (A * State)) : State :=
  match r with
  | Some (_, st) => st
  | None => st0
  end.


(** a page with two anchors, in document order the pager link to page
    2 and then the link to the next chapter; each selector answers with
    the anchors it matches *)
Definition pager_two : Tag := anchor "https://example.com/s/my-story?page=2" "2".
Definition next_chapter : Tag :=
  anchor "https://example.com/s/my-story-chapter-2" "Next chapter".
Definition mixed_anchors : list Tag := [pager_two; next_chapter].
Definition mixed_page : Soup :=
  soup_of [("a[href*='chapter']", [next_chapter]); ("a[href*='page']", [pager_two])].

End Demo.

(** ** Closed forms used in the statements *)

(** what one failed attempt number [k] leaves in the trace when the
    network raised [err k] *)
Definition failed_attempt (url : string) (max_retries : Z) (err : nat -> string)
    (k : nat) : list Event :=
  [EvSleep (fst (delay_bounds (Z.of_nat k))) (snd (delay_bounds (Z.of_nat k)));
   EvGet url;
   EvPrint (if (Z.of_nat k =? max_retries)%Z
            then "[ERROR] " +:+ url +:+ " failed after "
                 +:+ Str.of_Z (max_retries + 1) +:+ " tries: " +:+ err k
            else "[WARNING] " +:+ url +:+ " attempt "
                 +:+ Str.of_Z (Z.of_nat k + 1) +:+ ": " +:+ err k)].

(** the texts of the paragraphs of selector [s] that pass the test of
    line 85 *)
Definition qualifying (soup : Soup) (s : string) : list string :=
  map get_text_strip (List.filter para_ok (select soup s)).

Definition wins (soup : Soup) (s : string) : bool := 1 <? length (qualifying soup s).

Definition longer_than_20 (p : Tag) : bool := 20 <? String.length (get_text_strip p).

(** the absolute url of the anchor [l] of the page at [story_url] *)
Definition resolved `{Externals} (story_url : string) (l : Tag) : string :=
  urljoin story_url (href_or_empty (href l)).

(** ascending order of the keys *)
Definition key_le (a b : ChapterRef) : Prop := (ch_num a <= ch_num b)%Z.

(** the entries with key [k], in the order of the list *)
Definition with_key (k : Z) (l : list ChapterRef) : list ChapterRef :=
  List.filter (fun c => (ch_num c =? k)%Z) l.

(** what a page with paragraphs [pp] contributes at index [part] *)
Definition part_block (part : nat) (pp : list string) : list string :=
  match pp with
  | [] => []
  | _ => (if 1 <? part then ["PART " +:+ Str.of_nat part] else []) ++ pp
  end.

(** the text of a visit log whose first fetched page has index [part]:
    a failed fetch contributes nothing and takes no index *)
Fixpoint render_parts (part : nat) (log : list Visit) : list string :=
  match log with
  | [] => []
  | (_, None) :: log => render_parts part log
  | (_, Some pp) :: log => part_block part pp ++ render_parts (S part) log
  end.

Definition fetched (v : Visit) : bool :=
  match v.2 with Some _ => true | None => false end.

(** the number of visits whose fetch gave a page *)
Definition fetched_pages (log : list Visit) : nat := length (List.filter fetched log).

(** every next link the network ever serves lies in the finite set [U] *)
Definition links_within `{Externals} (U : gset string) : Prop :=
  forall t u soup n, net t u = Ok soup -> n ∈ next_links soup u -> n ∈ U.

(** how the results of a walk started with [done], [part], [pc], [log]
    relate to the visits [new] it made *)
Definition walk_post (done : gset string) (part : nat) (pc : list string)
    (log : list Visit) (st : State) (pc' : list string) (part' : nat)
    (log' : list Visit) (st' : State) (new : list Visit) : Prop :=
  log' = log ++ new
  /\ part' = part + fetched_pages new
  /\ pc' = pc ++ render_parts part new
  /\ NoDup (map fst new)
  /\ (forall u, u ∈ map fst new -> u ∉ done)
  /\ files st' = files st.

(** the queue holds distinct urls of [U] that were not visited *)
Definition queue_ok (U seen : gset string) (todo : list string) : Prop :=
  NoDup todo /\ forall u, u ∈ todo -> u ∈ U /\ u ∉ seen.

(** every chapter link a series page ever served points into [U] *)
Definition chapters_within `{Externals} (self : StoryScraperFramework)
    (U : gset string) : Prop :=
  forall t u soup title (c : ChapterRef),
    net t u = Ok soup -> c ∈ chapter_links self soup title ch_sels [] -> c.1.2 ∈ U.

(** every story link a listing page ever served points into [U] *)
Definition stories_within `{Externals} (self : StoryScraperFramework)
    (U : gset string) : Prop :=
  forall t u soup (l : StoryLink),
    net t u = Ok soup -> l ∈ extract_story_links self soup -> l.2 ∈ U.

(** ** Closed forms for the properties beyond the claims *)

(** the trace of a successful attempt number [k]: the sleep and the
    request, no line printed *)
Definition good_attempt (url : string) (k : nat) : list Event :=
  [EvSleep (fst (delay_bounds (Z.of_nat k))) (snd (delay_bounds (Z.of_nat k)));
   EvGet url].

(** a trace in which every call of [session.get] comes right after a
    sleep drawn from an interval that starts at one second or later:
    such a trace grows by events that are not such calls, or by a sleep
    and the call after it *)
Inductive polite : list Event -> Prop :=
| polite_nil : polite []
| polite_other l e : polite l -> is_get e = None -> polite (l ++ [e])
| polite_get l lo hi u :
    polite l -> (1 <= lo <= hi)%Z -> polite (l ++ [EvSleep lo hi; EvGet u]).

(** sites and pages for the properties beyond the claims *)
Module Site.

(** the network answers by the number of the request, whatever the url *)
Definition world_at (answers : nat -> Outcome) : Externals :=
  {| urljoin := fun _ h => h;
     hostname := Demo.host;
     net := fun t _ => answers t;
     build := fun _ _ => None |}.

(** the first two requests time out, the third is answered *)
Definition flaky (t : nat) : Outcome :=
  if t <? 2 then Fail "Read timed out" else Ok Demo.short_page.

End Site.

(** what a returned verdict [b] says about the disk before and after *)
Definition verdict_ok (self : StoryScraperFramework) (st st' : State) (b : bool) : Prop :=
  (b = false -> files st' = files st)
  /\ (b = true ->
      exists name,
        pdf_path self (sanitize_filename name) ∈ files st'
        /\ (files st' = files st
            \/ files st' = {[pdf_path self (sanitize_filename name)]} ∪ files st)).

(** every character of [s] passes [p] *)
Fixpoint all_chars (p : ascii -> bool) (s : string) : bool :=
  match s with
  | EmptyString => true
  | String c s' => p c && all_chars p s'
  end.

(** [c] is none of the characters sanitize_filename deletes *)
Definition allowed (c : ascii) : bool := negb (existsb (Ascii.eqb c) forbidden_chars).

(** white space occurs in [s] only as single blanks; [after_blank]
    says a blank came just before [s] *)
Fixpoint ws_norm (after_blank : bool) (s : string) : bool :=
  match s with
  | EmptyString => true
  | String c s' =>
      if Str.is_space c then Ascii.eqb c " " && negb after_blank && ws_norm true s'
      else ws_norm false s'
  end.

(** what escaping makes of one character *)
Definition escape_char (c : ascii) : string :=
  if Ascii.eqb c "&" then "&amp;"
  else if Ascii.eqb c "<" then "&lt;"
  else if Ascii.eqb c ">" then "&gt;"
  else String c EmptyString.

(** escaping in one pass over the text *)
Fixpoint escape_once (s : string) : string :=
  match s with
  | EmptyString => EmptyString
  | String c s' => escape_char c +:+ escape_once s'
  end.

(** [c] is not an angle bracket *)
Definition no_bracket (c : ascii) : bool := negb (Ascii.eqb c "<" || Ascii.eqb c ">").

(** selector [s] matches something on the page *)
Definition matched (soup : Soup) (s : string) : bool :=
  match select soup s with [] => false | _ => true end.

(** the story link extract_story_links makes of an anchor with a target *)
Definition link_of `{Externals} (self : StoryScraperFramework) (l : Tag) : StoryLink :=
  (if Str.nonempty (get_text_strip l) then get_text_strip l else "Untitled",
   urljoin (base_url self) (href_or_empty (href l))).

(** the story links of the anchors of [links] that have a target *)
Definition links_of `{Externals} (self : StoryScraperFramework) (links : list Tag)
    : list StoryLink :=
  map (link_of self) (List.filter (fun l => truthy (href l)) links).

(** an anchor of a series page the script accepts as a chapter: it has
    a target, and the target contains the story path *)
Definition usable (e : Tag) : bool :=
  match href e with
  | Some h => Str.nonempty h && Str.contains "/s/" h
  | None => false
  end.

(** the chapter the script makes of a usable anchor *)
Definition chapter_of `{Externals} (self : StoryScraperFramework) (st_title : string)
    (e : Tag) : ChapterRef :=
  (get_text_strip e,
   if Str.startswith (href_or_empty (href e)) "http" then href_or_empty (href e)
   else urljoin (base_url self) (href_or_empty (href e)),
   order_key (get_text_strip e) st_title).

Definition chapters_of `{Externals} (self : StoryScraperFramework) (st_title : string)
    (es : list Tag) : list ChapterRef :=
  map (chapter_of self st_title) (List.filter usable es).

(** the line chapter number [cnum] with label [ct] opens its text with
    (line 190) *)
Definition chapter_heading (cnum : nat) (ct : string) : string :=
  if cnum =? 1 then "Chapter " +:+ Str.of_nat cnum +:+ ": " +:+ ct
  else newline +:+ "Chapter " +:+ Str.of_nat cnum +:+ ": " +:+ ct.

(** the text of a series: per chapter, numbered from [cnum], its
    heading and then the text [pc] its pages gave *)
Fixpoint assemble (cnum : nat) (chs : list ChapterRef) (bodies : list (list string))
    : list string :=
  match chs, bodies with
  | (ct, _, _) :: chs, pc :: bodies =>
      chapter_heading cnum ct :: pc ++ assemble (S cnum) chs bodies
  | _, _ => []
  end.

(** the url scrape_category asks for when its page counter is [cur]
    (line 247) *)
Definition listing_url `{Externals} (self : StoryScraperFramework) (cur : nat) : string :=
  if cur =? 1 then base_url self else get_next_page_url self None cur.

(** a series of two chapters; each chapter page carries the link to
    the series page *)
Module Saga.

Definition series_url : string := "https://example.com/series/se/summer-nights".
Definition chapter_two : string := "https://example.com/s/summer-nights-ch-02".
Definition epilogue : string := "https://example.com/s/summer-nights-epilogue".

Definition chapter_page (title : string) (body : list Tag) : Soup :=
  Demo.soup_of [("h1", [Demo.para title]);
                ("div.story-text p", body);
                ("p", body);
                (series_sel, [Demo.anchor series_url "Summer Nights"])].

(** a page without a series link whose next link leads to chapter two *)
Definition prologue : string := "https://example.com/s/summer-nights-prologue".

Definition prologue_page : Soup :=
  Demo.soup_of [("h1", [Demo.para "Summer Nights Prologue"]);
                (".next-chapter a", [Demo.anchor chapter_two "Next chapter"])].

Definition site (u : string) : Outcome :=
  if String.eqb u series_url then Ok Demo.series_page
  else if String.eqb u chapter_two then Ok (chapter_page "Summer Nights Ch. 02" Demo.body1)
  else if String.eqb u epilogue then Ok (chapter_page "Summer Nights Epilogue" Demo.body3)
  else if String.eqb u prologue then Ok prologue_page
  else Fail "404 Not Found".

End Saga.

(** a pager without an end: every url answers with a page whose only
    link, marked next, points at the url with one more digit, so page 1
    leads to page 11, that one to page 111, and so on *)
Module Endless.

Definition seed : string := "https://example.com/s/endless?page=1".

Definition page (u : string) : Soup :=
  Demo.soup_of [("a[href*='page']", [Demo.anchor (u +:+ "1") "next"])].

Definition site (u : string) : Outcome := Ok (page u).

End Endless.

(** the line a page with paragraphs [pp] is announced with at index
    [part]; a page without paragraphs is not announced *)
Definition announce (part : nat) (pp : list string) (st : State) : State :=
  match pp with
  | [] => st
  | _ => print ("    Part " +:+ Str.of_nat part +:+ " ok") st
  end.

(** what taking up the urls [urls] one after the other gives, from the
    state [st] and the part index [part] on: per url the entry of the
    visit log, [None] when its fetch fails and the paragraphs of the
    page served otherwise, and the state reached.  A fetched page moves
    the index on, a failed fetch leaves it.  [seed] is the page a single
    story walk was given and does not fetch again. *)
Fixpoint visits `{Externals} (self : StoryScraperFramework)
    (seed : option (string * list string)) (part : nat) (urls : list string)
    (st : State) : list Visit * State :=
  match urls with
  | [] => ([], st)
  | u :: rest =>
      let given :=
        match seed with
        | Some (surl, pp) => if String.eqb u surl then Some pp else None
        | None => None
        end in
      match given with
      | Some pp =>
          let '(log, st') := visits self seed (S part) rest (announce part pp st) in
          ((u, Some pp) :: log, st')
      | None =>
          match fetch u st with
          | (None, st1) =>
              let '(log, st') := visits self seed part rest st1 in
              ((u, None) :: log, st')
          | (Some ps, st1) =>
              let '((_, pp, _, _), st2) := extract_story_content self ps u st1 in
              let '(log, st') := visits self seed (S part) rest (announce part pp st2) in
              ((u, Some pp) :: log, st')
          end
      end
  end.

(** what discovery is served when it fetches the urls [urls] one after
    the other from the state [st]: per url the page, or [None] when the
    fetch fails, and the state reached *)
Fixpoint served `{Externals} (self : StoryScraperFramework) (urls : list string)
    (st : State) : list (option Soup) * State :=
  match urls with
  | [] => ([], st)
  | u :: rest =>
      match fetch u st with
      | (None, st1) =>
          let '(outs, st') := served self rest st1 in (None :: outs, st')
      | (Some soup, st1) =>
          let '(outs, st') :=
            served self rest (extract_story_content self soup u st1).2 in
          (Some soup :: outs, st')
      end
  end.

(** the page, if one was served, carries no series link *)
Definition no_series_link `{Externals} (self : StoryScraperFramework)
    (o : option Soup) : Prop :=
  match o with
  | Some soup => truthy (series_link self soup) = false
  | None => True
  end.

(** the title series mode works under: the first h1 of the series page,
    the title it was called with when the page has none (lines 147-148) *)
Definition series_title (stitle : string) (soup_series : Soup) : string :=
  match select_one soup_series "h1" with
  | Some st_el => get_text_strip st_el
  | None => stitle
  end.

(** the path of a link target: what follows the host in a target with
    a scheme, the target itself otherwise *)
Fixpoint from_slash (s : string) : string :=
  match s with
  | String c s' => if Ascii.eqb c "/" then s else from_slash s'
  | EmptyString => EmptyString
  end.

Definition target_path (h : string) : string :=
  match Demo.after_scheme h with
  | Some r => from_slash r
  | None => h
  end.

(** C9 in the words of the specification: a paragraph qualifies when
    its trimmed text is longer than 10 characters and it has no
    hyperlink whose target path begins with the story path *)
Definition para_ok_spec (p : Tag) : bool :=
  (10 <? String.length (get_text_strip p))
  && negb (existsb
             (fun a => Str.startswith (Str.lower (target_path (href_or_empty a))) "/s/")
             (a_hrefs p)).

(** a story page that ends with a pointer to another story, linked
    with scheme and host *)
Module Related.

Definition sequel : Tag :=
  mkTag None "Read the sequel: Another Story" "Read the sequel: Another Story"
        [Some "https://www.literotica.com/s/another-story"].

Definition page : Soup :=
  Demo.soup_of [("div.story-text p", [Demo.para "It was a dark and stormy night."; sequel]);
                ("p", [Demo.para "It was a dark and stormy night."; sequel])].

End Related.

(** why a crawl whose page counter started at [cur], with the listing
    urls [seen] behind it, asked for [n] listing pages with stories and
    for no more when it was allowed [pages_left]: it used them up, or
    the url of the next listing is empty or was asked for before, or
    the fetch of the next listing failed, or the page served for it has
    no story link (lines 246-254) *)
Definition crawl_stops `{Externals} (self : StoryScraperFramework)
    (seen : gset string) (cur pages_left n : nat) : Prop :=
  n = pages_left
  \/ listing_url self (cur + n) = ""
  \/ listing_url self (cur + n) ∈ seen
  \/ (exists j, j < n /\ listing_url self (cur + n) = listing_url self (cur + j))
  \/ (exists s, (fetch (listing_url self (cur + n)) s).1 = None)
  \/ (exists s soup,
        (fetch (listing_url self (cur + n)) s).1 = Some soup
        /\ extract_story_links self soup = []).

(** * Properties *)

(** ** Strings *)

Lemma prefix_lower k s :
  String.prefix k s = true -> String.prefix (Str.lower k) (Str.lower s) = true.
Proof.
  revert s. induction k as [|c k IH]; intros [|d s]; simpl; try done.
  destruct (ascii_dec c d) as [->|Hne]; [|done].
  intros Hk. destruct (ascii_dec (Str.lower_char d) (Str.lower_char d)); [auto|done].
Qed.

Lemma contains_lower k s :
  Str.contains k s = true -> Str.contains (Str.lower k) (Str.lower s) = true.
Proof.
  induction s as [|d s IH]; simpl.
  - rewrite !orb_false_r. apply (prefix_lower k "").
  - intros [Hk|Hk]%orb_true_iff; apply orb_true_iff.
    + left. apply (prefix_lower k (String d s) Hk).
    + right. auto.
Qed.

(** ** Traces *)

Lemma gets_app l1 l2 : gets (l1 ++ l2) = gets l1 ++ gets l2.
Proof. apply omap_app. Qed.

Lemma fetches_app l1 l2 : fetches (l1 ++ l2) = fetches l1 ++ fetches l2.
Proof. apply omap_app. Qed.

Lemma network_app l1 l2 :
  List.filter is_network (l1 ++ l2) = List.filter is_network l1 ++ List.filter is_network l2.
Proof. apply List.filter_app. Qed.

(** ** The fetcher *)

Section FetcherFacts.
Context `{Externals}.

Lemma blocked_lowercase k : k ∈ blocked -> Str.lower k = k.
Proof.
  unfold blocked. rewrite !elem_of_cons, elem_of_nil.
  intros [->|[->|[->|[->|[]]]]]; reflexivity.
Qed.

Lemma is_blocked_intro url h k :
  hostname url = Some h -> k ∈ blocked -> Str.contains k h = true ->
  is_blocked url = true.
Proof.
  intros Hh Hk Hc. unfold is_blocked. apply existsb_exists.
  exists k. split; [by apply list_elem_of_In|].
  unfold host_of. rewrite Hh.
  destruct h as [|c h]; simpl Str.nonempty; cbv iota.
  - exfalso. revert Hk Hc. unfold blocked.
    rewrite !elem_of_cons, elem_of_nil.
    intros [->|[->|[->|[->|[]]]]]; discriminate.
  - rewrite <- (blocked_lowercase k Hk). by apply contains_lower.
Qed.

(** C4: a url whose host contains a blocklist substring comes back
    with [None] at once: the only thing recorded is that the fetcher
    was entered, no sleep and no GET. *)
Theorem blocked_host_no_network (url h k : string) (max_retries : Z) (st : State) :
  hostname url = Some h -> k ∈ blocked -> Str.contains k h = true ->
  make_request_with_retry url max_retries st = (None, emit (EvFetch url) st)
  /\ clock (emit (EvFetch url) st) = clock st
  /\ List.filter is_network (events (emit (EvFetch url) st))
     = List.filter is_network (events st).
Proof.
  intros Hh Hk Hc. split; [|split].
  - unfold make_request_with_retry. by rewrite (is_blocked_intro url h k).
  - reflexivity.
  - simpl. rewrite network_app. simpl. by rewrite app_nil_r.
Qed.

Lemma retry_loop_gets url max_retries attempts st :
  exists n,
    n <= length attempts
    /\ gets (events (retry_loop url max_retries attempts st).2)
       = gets (events st) ++ replicate n url
    /\ clock (retry_loop url max_retries attempts st).2 = clock st + n.
Proof.
  revert st. induction attempts as [|a rest IH]; intros st; simpl.
  - exists 0. rewrite app_nil_r. split; [lia|split; [done|lia]].
  - destruct (delay_bounds a) as [lo hi]. simpl.
    destruct (net (clock st) url) as [r|e]; [|destruct (a =? max_retries)%Z].
    + exists 1. simpl. rewrite !gets_app. simpl. rewrite app_nil_r.
      split; [lia|split; [done|lia]].
    + exists 1. simpl. rewrite !gets_app. simpl. rewrite !app_nil_r.
      split; [lia|split; [done|lia]].
    + destruct (IH (print ("[WARNING] " +:+ url +:+ " attempt "
                           +:+ Str.of_Z (a + 1) +:+ ": " +:+ e)
                      {| clock := S (clock st);
                         events := (events st ++ [EvSleep lo hi]) ++ [EvGet url];
                         files := files st |})) as (n & Hn & Hg & Hc).
      exists (S n). rewrite Hg, Hc. simpl. rewrite !gets_app. simpl.
      rewrite !app_nil_r, <- app_assoc. split; [lia|split; [done|lia]].
Qed.

Lemma retry_loop_all_fail url max_retries (err : nat -> string) n :
  forall a st,
    Z.of_nat (a + n) = (max_retries + 1)%Z ->
    (forall j, j < n -> net (clock st + j) url = Fail (err (a + j))) ->
    retry_loop url max_retries (map Z.of_nat (seq a n)) st
    = (None, {| clock := clock st + n;
                events := events st
                          ++ flat_map (failed_attempt url max_retries err) (seq a n);
                files := files st |}).
Proof.
  induction n as [|n IH]; intros a st Ha Hnet.
  - simpl. rewrite app_nil_r, Nat.add_0_r. by destruct st.
  - simpl. destruct (delay_bounds (Z.of_nat a)) as [lo hi] eqn:Hd. simpl.
    rewrite <- (Nat.add_0_r (clock st)) at 1.
    rewrite (Hnet 0 ltac:(lia)), Nat.add_0_r.
    destruct (Z.of_nat a =? max_retries)%Z eqn:Ea.
    + assert (n = 0) as -> by lia. simpl.
      unfold print, emit. simpl. rewrite <- !app_assoc. simpl.
      do 2 f_equal. lia.
    + rewrite IH.
      * simpl. rewrite <- !app_assoc. simpl. do 2 f_equal. lia.
      * lia.
      * intros j Hj. simpl.
        replace (S (clock st + j)) with (clock st + S j) by lia.
        rewrite (Hnet (S j) ltac:(lia)). f_equal. f_equal. lia.
Qed.

Lemma gets_failed_attempts url max_retries err l :
  gets (flat_map (failed_attempt url max_retries err) l) = replicate (length l) url.
Proof. induction l as [|k l IH]; [done|]. simpl. by rewrite <- IH. Qed.

(** C5: on a url that is not blocked the fetcher sends at most
    [max_retries + 1] GET requests; when every one of them fails it
    sends exactly that many, answers [None], and its trace is the
    failed attempts in order, a warning after each but the last, whose
    error is the one the closing [ERROR] line carries. *)
Theorem fetch_attempts_bounded (url : string) (max_retries : Z) (st : State) :
  (0 <= max_retries)%Z -> is_blocked url = false ->
  (exists n,
      n <= Z.to_nat (max_retries + 1)
      /\ gets (events (make_request_with_retry url max_retries st).2)
         = gets (events st) ++ replicate n url)
  /\ forall err : nat -> string,
      (forall j, j <= Z.to_nat max_retries -> net (clock st + j) url = Fail (err j)) ->
      (make_request_with_retry url max_retries st).1 = None
      /\ events (make_request_with_retry url max_retries st).2
         = events st ++ [EvFetch url]
           ++ flat_map (failed_attempt url max_retries err)
                       (seq 0 (Z.to_nat max_retries))
           ++ failed_attempt url max_retries err (Z.to_nat max_retries)
      /\ gets (events (make_request_with_retry url max_retries st).2)
         = gets (events st) ++ replicate (Z.to_nat (max_retries + 1)) url
      /\ last (events (make_request_with_retry url max_retries st).2)
         = Some (EvPrint ("[ERROR] " +:+ url +:+ " failed after "
                          +:+ Str.of_Z (max_retries + 1) +:+ " tries: "
                          +:+ err (Z.to_nat max_retries))).
Proof.
  intros Hmr Hb. unfold make_request_with_retry. rewrite Hb. split.
  - destruct (retry_loop_gets url max_retries (range (max_retries + 1))
                (emit (EvFetch url) st)) as (n & Hn & Hg & _).
    exists n. split.
    + unfold range in Hn. by rewrite length_map, length_seq in Hn.
    + rewrite Hg. simpl. rewrite gets_app. simpl. by rewrite app_nil_r.
  - intros err Herr. unfold range.
    assert (Z.to_nat (max_retries + 1) = S (Z.to_nat max_retries)) as Hs by lia.
    rewrite (retry_loop_all_fail url max_retries err);
      [|lia|intros j Hj; apply Herr; lia].
    cbn [fst snd events emit clock]. rewrite Hs, seq_S, flat_map_app.
    cbn [flat_map Nat.add]. rewrite app_nil_r, <- !app_assoc.
    split; [done|]. split; [done|]. split.
    + rewrite !gets_app, gets_failed_attempts, length_seq, replicate_S_end.
      reflexivity.
    + rewrite !app_assoc. unfold failed_attempt.
      rewrite Z2Nat.id, Z.eqb_refl by lia.
      by rewrite (last_app_cons _ _ (EvSleep _ _)), !last_cons_cons.
Qed.

End FetcherFacts.

(** the blocklist at work on a reddit url *)
Lemma blocked_host_no_network_witness :
  @make_request_with_retry (Demo.world Demo.dead_site)
    "https://old.reddit.com/r/stories" 3 Demo.st0
  = (None, emit (EvFetch "https://old.reddit.com/r/stories") Demo.st0)
  /\ clock (emit (EvFetch "https://old.reddit.com/r/stories") Demo.st0) = 0
  /\ List.filter is_network
       (events (emit (EvFetch "https://old.reddit.com/r/stories") Demo.st0)) = [].
Proof.
  apply (@blocked_host_no_network (Demo.world Demo.dead_site)
           "https://old.reddit.com/r/stories" "old.reddit.com" "reddit" 3 Demo.st0).
  - reflexivity.
  - apply list_elem_of_here.
  - reflexivity.
Defined.

(** the default three retries on a site that never answers *)
Lemma fetch_attempts_bounded_witness :
  (@make_request_with_retry (Demo.world Demo.dead_site)
     "https://example.com/s/my-story" 3 Demo.st0).1 = None
  /\ gets (events (@make_request_with_retry (Demo.world Demo.dead_site)
                     "https://example.com/s/my-story" 3 Demo.st0).2)
     = replicate 4 "https://example.com/s/my-story".
Proof.
  destruct (@fetch_attempts_bounded (Demo.world Demo.dead_site)
              "https://example.com/s/my-story" 3 Demo.st0) as [_ Hall].
  - lia.
  - reflexivity.
  - destruct (Hall (fun _ => "Read timed out")) as (Hr & _ & Hg & _).
    + intros j _. reflexivity.
    + split; [exact Hr | exact Hg].
Defined.

(** ** Paragraph extraction *)

Lemma fold_left_snoc_filter {A B} (ok : A -> bool) (f : A -> B) (l : list A) (acc : list B) :
  fold_left (fun acc x => if ok x then acc ++ [f x] else acc) l acc
  = acc ++ map f (List.filter ok l).
Proof.
  revert acc. induction l as [|x l IH]; intros acc; simpl.
  - by rewrite app_nil_r.
  - rewrite IH. destruct (ok x); [|done]. simpl. by rewrite <- app_assoc.
Qed.

Lemma collect_paras_filter ps :
  collect_paras ps = map get_text_strip (List.filter para_ok ps).
Proof. unfold collect_paras. by rewrite fold_left_snoc_filter. Qed.

Lemma nonempty_of_length s n : n < String.length s -> Str.nonempty s = true.
Proof. destruct s; simpl; [lia|done]. Qed.

Lemma fallback_paras_filter ps :
  fallback_paras ps = map get_text_strip (List.filter longer_than_20 ps).
Proof.
  unfold fallback_paras.
  enough (forall acc,
    fold_left
      (fun acc p =>
         if Str.nonempty (get_text_strip p) && (20 <? String.length (get_text_strip p))
         then acc ++ [get_text_strip p] else acc) ps acc
    = acc ++ map get_text_strip (List.filter longer_than_20 ps)) as Hgen
    by apply (Hgen []).
  induction ps as [|p ps IH]; intros acc; simpl; [by rewrite app_nil_r|].
  rewrite IH. unfold longer_than_20 at 2.
  destruct (20 <? String.length (get_text_strip p)) eqn:E.
  - apply Nat.ltb_lt in E. rewrite (nonempty_of_length _ 20 E). simpl.
    by rewrite <- app_assoc.
  - by rewrite andb_false_r.
Qed.

Lemma body_loop_find soup sels :
  body_loop soup sels
  = match List.find (wins soup) sels with
    | Some s => qualifying soup s
    | None => []
    end.
Proof.
  induction sels as [|s rest IH]; [done|]. simpl.
  unfold wins at 1, qualifying at 1.
  destruct (select soup s) as [|p ps] eqn:Es; [by simpl|].
  rewrite collect_paras_filter.
  destruct (1 <? length (map get_text_strip (List.filter para_ok (p :: ps)))) eqn:E.
  - unfold qualifying. by rewrite Es.
  - exact IH.
Qed.

Lemma para_ok_iff p :
  para_ok p = true
  <-> 10 < String.length (get_text_strip p)
      /\ forall a, a ∈ a_hrefs p ->
           Str.startswith (Str.lower (href_or_empty a)) "/s/" = false.
Proof.
  unfold para_ok. rewrite !andb_true_iff, negb_true_iff, Nat.ltb_lt. split.
  - intros [[_ Hlen] Hno]. split; [done|]. intros a Ha.
    destruct (Str.startswith _ _) eqn:E; [|done].
    assert (existsb (fun a => Str.startswith (Str.lower (href_or_empty a)) "/s/")
              (a_hrefs p) = true) as Hex; [|congruence].
    apply existsb_exists. exists a. split; [by apply list_elem_of_In|done].
  - intros [Hlen Hno]. split; [split; [by apply (nonempty_of_length _ 10)|done]|].
    destruct (existsb _ _) eqn:E; [|done].
    apply existsb_exists in E as (a & Ha%list_elem_of_In & Hs).
    by rewrite (Hno a Ha) in Hs.
Qed.

(** C9, as the script has it: the paragraphs of a page are those of
    the first body selector with more than one qualifying paragraph, a
    paragraph qualifying when its trimmed text is longer than 10
    characters and none of its links has a target attribute that, put
    in lower case, starts with [/s/].  The test reads the attribute as
    it is written: a link to a story given with scheme and host passes
    it.  When no selector has two qualifying paragraphs, the paragraphs
    are all the p elements whose trimmed text is longer than 20
    characters. *)
Theorem paragraphs_first_winning_selector (soup : Soup) :
  extract_paras soup
  = match List.find (wins soup) body_sels with
    | Some s => qualifying soup s
    | None => map get_text_strip (List.filter longer_than_20 (find_all_p soup))
    end
  /\ (forall s, wins soup s = true <-> 1 < length (qualifying soup s))
  /\ (forall s t, t ∈ qualifying soup s
        <-> exists p, p ∈ select soup s /\ t = get_text_strip p /\ para_ok p = true)
  /\ (forall p, para_ok p = true
        <-> 10 < String.length (get_text_strip p)
            /\ forall a, a ∈ a_hrefs p ->
                 Str.startswith (Str.lower (href_or_empty a)) "/s/" = false).
Proof.
  split; [|split; [|split]].
  - unfold extract_paras. rewrite body_loop_find, fallback_paras_filter.
    destruct (List.find (wins soup) body_sels) as [s|] eqn:Ef; [|done].
    apply find_some in Ef as [_ Hw]. unfold wins in Hw. apply Nat.ltb_lt in Hw.
    destruct (qualifying soup s); [simpl in Hw; lia|done].
  - intros s. unfold wins. apply Nat.ltb_lt.
  - intros s t. unfold qualifying. rewrite list_elem_of_In, in_map_iff. split.
    + intros (p & <- & [Hp Hok]%filter_In). exists p. by rewrite list_elem_of_In.
    + intros (p & Hp & -> & Hok). exists p. split; [done|].
      apply filter_In. by rewrite <- list_elem_of_In.
  - apply para_ok_iff.
Qed.

(** C9, as the specification words it, fails: the last paragraph of
    [Related.page] links to a story whose target path begins with the
    story path, yet it qualifies, because the target is written with
    scheme and host, and it is returned as part of the text. *)
Lemma absolute_story_link_qualifies_counterexample :
  para_ok Related.sequel = true
  /\ para_ok_spec Related.sequel = false
  /\ target_path "https://www.literotica.com/s/another-story" = "/s/another-story"
  /\ extract_paras Related.page
     = ["It was a dark and stormy night."; "Read the sequel: Another Story"].
Proof. split_and!; reflexivity. Qed.

(** ** Next links *)

Section NextLinks.
Context `{Externals}.

Lemma next_links_flat_map soup story_url :
  next_links soup story_url
  = flat_map (fun s => map (resolved story_url) (List.filter next_ok (select soup s)))
             n_sels.
Proof.
  unfold next_links.
  enough (forall sels acc,
    fold_left
      (fun ch_links s =>
         fold_left
           (fun ch_links l =>
              if next_ok l then ch_links ++ [resolved story_url l] else ch_links)
           (select soup s) ch_links) sels acc
    = acc ++ flat_map (fun s => map (resolved story_url)
                                    (List.filter next_ok (select soup s))) sels)
    as Hgen by apply (Hgen n_sels []).
  induction sels as [|s sels IH]; intros acc; simpl; [by rewrite app_nil_r|].
  rewrite IH, (fold_left_snoc_filter next_ok (resolved story_url)).
  by rewrite <- app_assoc.
Qed.

Lemma next_ok_iff l :
  next_ok l = true
  <-> exists h, href l = Some h /\ h <> ""
        /\ (Str.contains "next" (Str.lower (get_text l)) = true
            \/ Str.contains "chapter" (Str.lower h) = true
            \/ Str.isdigit (Str.strip (get_text l)) = true).
Proof.
  unfold next_ok. destruct (href l) as [h|]; split.
  - rewrite andb_true_iff, !orb_true_iff. intros [Hne Hor]. exists h.
    split; [done|]. split; [by destruct h|]. tauto.
  - intros (h' & [= <-] & Hne & Hor). rewrite andb_true_iff, !orb_true_iff.
    split; [by destruct h|tauto].
  - done.
  - by intros (h & Hh & _).
Qed.

(** C8, as the script has it: an anchor found by a next-link selector
    is returned exactly when it has a non-empty target and its text
    contains next (any case), or its target contains chapter (any
    case), or its trimmed text is a number.  The links are returned
    selector by selector, in the match order of each selector, resolved
    against the url of the page, nothing removed: an anchor two
    selectors match comes twice. *)
Theorem next_links_selector_order (soup : Soup) (story_url : string) :
  next_links soup story_url
  = flat_map (fun s => map (resolved story_url) (List.filter next_ok (select soup s)))
             n_sels
  /\ (forall u, u ∈ next_links soup story_url
        <-> exists s l, s ∈ n_sels /\ l ∈ select soup s /\ next_ok l = true
              /\ u = resolved story_url l)
  /\ (forall l, next_ok l = true
        <-> exists h, href l = Some h /\ h <> ""
              /\ (Str.contains "next" (Str.lower (get_text l)) = true
                  \/ Str.contains "chapter" (Str.lower h) = true
                  \/ Str.isdigit (Str.strip (get_text l)) = true)).
Proof.
  split; [apply next_links_flat_map|]. split; [|apply next_ok_iff].
  intros u. rewrite next_links_flat_map, list_elem_of_In, in_flat_map. split.
  - intros (s & Hs & (l & <- & [Hl Hok]%filter_In)%in_map_iff).
    exists s, l. by rewrite !list_elem_of_In.
  - intros (s & l & Hs & Hl & Hok & ->). exists s.
    split; [by apply list_elem_of_In|]. apply in_map_iff. exists l.
    split; [done|]. apply filter_In. by rewrite <- list_elem_of_In.
Qed.

End NextLinks.

(** C8, as the specification words it, fails twice.  The anchor of
    [Demo.pager_page] is found by a next-link selector and its target
    contains the page indicator, yet the script returns no link.  And on
    [Demo.mixed_page] both anchors qualify, but the link of the second
    anchor of the document comes first, because its selector is tried
    first. *)
Lemma next_link_page_indicator_counterexample :
  "a[href*='page']" ∈ n_sels
  /\ Demo.anchor "https://example.com/s/my-story?page=1" "Previous"
       ∈ select Demo.pager_page "a[href*='page']"
  /\ next_ok_spec (Demo.anchor "https://example.com/s/my-story?page=1" "Previous") = true
  /\ @next_links (Demo.world Demo.dead_site) Demo.pager_page Demo.story_url = []
  /\ @next_links (Demo.world Demo.dead_site) Demo.mixed_page Demo.story_url
     = ["https://example.com/s/my-story-chapter-2"; "https://example.com/s/my-story?page=2"]
  /\ map (@resolved (Demo.world Demo.dead_site) Demo.story_url)
         (List.filter next_ok Demo.mixed_anchors)
     = ["https://example.com/s/my-story?page=2"; "https://example.com/s/my-story-chapter-2"].
Proof.
  split_and!.
  - unfold n_sels. apply list_elem_of_further, list_elem_of_here.
  - apply list_elem_of_here.
  - reflexivity.
  - reflexivity.
  - reflexivity.
  - reflexivity.
Qed.

(** ** The renderer's blocks *)




(** ** Chapter order *)

Lemma insert_chapter_perm x l : Permutation (insert_chapter x l) (x :: l).
Proof.
  induction l as [|y l IH]; simpl; [done|].
  destruct (ch_num x <=? ch_num y)%Z; [done|].
  rewrite IH. apply perm_swap.
Qed.

Lemma sort_chapters_perm l : Permutation (sort_chapters l) l.
Proof.
  induction l as [|x l IH]; simpl; [done|].
  rewrite insert_chapter_perm. by constructor.
Qed.

Lemma insert_chapter_sorted x l :
  StronglySorted key_le l -> StronglySorted key_le (insert_chapter x l).
Proof.
  induction 1 as [|y l Hs IH Hall]; simpl.
  - repeat constructor.
  - destruct (ch_num x <=? ch_num y)%Z eqn:E.
    + apply Z.leb_le in E. constructor; [by constructor|].
      constructor; [done|]. eapply Forall_impl; [exact Hall|].
      unfold key_le. intros z Hz. lia.
    + apply Z.leb_gt in E. constructor; [done|].
      rewrite insert_chapter_perm.
      constructor; [unfold key_le; lia|done].
Qed.

Lemma sort_chapters_sorted l : StronglySorted key_le (sort_chapters l).
Proof.
  induction l as [|x l IH]; simpl; [constructor|]. by apply insert_chapter_sorted.
Qed.

Lemma insert_chapter_with_key k x l :
  with_key k (insert_chapter x l) = with_key k (x :: l).
Proof.
  induction l as [|y l IH]; simpl; [done|].
  destruct (ch_num x <=? ch_num y)%Z eqn:E; [done|].
  apply Z.leb_gt in E. unfold with_key in *. simpl in *. rewrite IH.
  destruct (ch_num y =? k)%Z eqn:Ey, (ch_num x =? k)%Z eqn:Ex; try done.
  apply Z.eqb_eq in Ey, Ex. lia.
Qed.

Lemma sort_chapters_stable k l : with_key k (sort_chapters l) = with_key k l.
Proof.
  induction l as [|x l IH]; simpl; [done|].
  rewrite insert_chapter_with_key. unfold with_key in *. simpl. by rewrite IH.
Qed.

Section ChapterOrder.
Context `{Externals}.
Variable self : StoryScraperFramework.

Lemma collect_chapters_keys st_title es acc :
  Forall (fun c => ch_num c = order_key c.1.1 st_title) acc ->
  Forall (fun c => ch_num c = order_key c.1.1 st_title)
         (collect_chapters self st_title es acc).
Proof.
  unfold collect_chapters. revert acc.
  induction es as [|e es IH]; intros acc Hacc; simpl; [done|].
  apply IH. destruct (href e) as [h|]; [|done].
  destruct (Str.nonempty h && Str.contains "/s/" h); [|done].
  apply Forall_app. split; [done|]. by repeat constructor.
Qed.

Lemma chapter_links_keys soup st_title sels acc :
  Forall (fun c => ch_num c = order_key c.1.1 st_title) acc ->
  Forall (fun c => ch_num c = order_key c.1.1 st_title)
         (chapter_links self soup st_title sels acc).
Proof.
  revert acc. induction sels as [|s sels IH]; intros acc Hacc; [done|].
  cbn [chapter_links].
  destruct (select soup s) as [|e es]; [by apply IH|].
  pose proof (collect_chapters_keys st_title (e :: es) acc Hacc) as Hc.
  destruct (collect_chapters self st_title (e :: es) acc); [by apply IH|done].
Qed.

(** C6, as the script has it: the key of an anchor is the number of
    the first Ch/Pt token of its label; without a token it is 1 when
    the trimmed label is the trimmed title or when the label starts
    with the title, letter case aside, and 999 otherwise.  The chapter
    list is the anchors of the series page sorted by that key,
    ascending, anchors with equal keys staying in match order. *)
Theorem chapters_sorted_by_key (soup_series : Soup) (st_title : string) :
  let found := chapter_links self soup_series st_title ch_sels [] in
  (forall c, c ∈ found -> ch_num c = order_key c.1.1 st_title)
  /\ Permutation (sort_chapters found) found
  /\ StronglySorted key_le (sort_chapters found)
  /\ (forall k, with_key k (sort_chapters found) = with_key k found)
  /\ (forall label n, search_token label = Some n -> order_key label st_title = n)
  /\ (forall label, search_token label = None ->
        (Str.strip label = Str.strip st_title
         \/ Str.startswith (Str.lower label) (Str.lower st_title) = true) ->
        order_key label st_title = 1%Z)
  /\ (forall label, search_token label = None ->
        Str.strip label <> Str.strip st_title ->
        Str.startswith (Str.lower label) (Str.lower st_title) = false ->
        order_key label st_title = 999%Z).
Proof.
  intros found. repeat split.
  - apply Forall_forall. by apply chapter_links_keys.
  - apply sort_chapters_perm.
  - apply sort_chapters_sorted.
  - intros k. apply sort_chapters_stable.
  - intros label n Hn. unfold order_key. by rewrite Hn.
  - intros label Hn Hor. unfold order_key. rewrite Hn.
    destruct Hor as [->| ->]; [by rewrite String.eqb_refl|by rewrite orb_true_r].
  - intros label Hn Hne Hpre. unfold order_key. rewrite Hn, Hpre.
    apply String.eqb_neq in Hne. by rewrite Hne.
Qed.

End ChapterOrder.

(** the chapter list of [Demo.series_page] *)
Lemma chapters_sorted_by_key_witness :
  sort_chapters (@chapter_links (Demo.world Demo.dead_site) Demo.self
                   Demo.series_page "Summer Nights" ch_sels [])
  = [("Summer Nights Epilogue", "https://example.com/s/summer-nights-epilogue", 1%Z);
     ("Summer Nights Ch. 02", "https://example.com/s/summer-nights-ch-02", 2%Z)]
  /\ order_key "Summer Nights Ch. 02" "Summer Nights" = 2%Z
  /\ order_key "Summer Nights Epilogue" "Summer Nights" = 1%Z
  /\ order_key "Winter Days" "Summer Nights" = 999%Z.
Proof.
  destruct (@chapters_sorted_by_key (Demo.world Demo.dead_site) Demo.self
              Demo.series_page "Summer Nights")
    as (_ & _ & _ & _ & Htok & Hone & Hnone).
  split; [reflexivity|]. split; [|split].
  - apply Htok. reflexivity.
  - apply Hone; [reflexivity|]. right. reflexivity.
  - apply Hnone; [reflexivity|discriminate|reflexivity].
Defined.

(** C6, as the specification words it, fails: a label that starts with
    the series title without being equal to it gets key 1 from the
    script and 999 from the specification, so the script lists the
    epilogue of [Demo.series_page] before chapter 2. *)
Lemma order_key_prefix_counterexample :
  search_token "Summer Nights Epilogue" = None
  /\ order_key_spec "Summer Nights Epilogue" "Summer Nights" = 999%Z
  /\ order_key "Summer Nights Epilogue" "Summer Nights" = 1%Z
  /\ map (fun c : ChapterRef => (c.1.1, ch_num c))
       (sort_chapters (@chapter_links (Demo.world Demo.dead_site) Demo.self
                         Demo.series_page "Summer Nights" ch_sels []))
     = [("Summer Nights Epilogue", 1%Z); ("Summer Nights Ch. 02", 2%Z)].
Proof. repeat split. Qed.

(** ** What a fetch and an extraction leave in the state *)

Section Effects.
Context `{Externals}.
Variable self : StoryScraperFramework.

Lemma retry_loop_fetches url max_retries attempts st :
  fetches (events (retry_loop url max_retries attempts st).2) = fetches (events st)
  /\ files (retry_loop url max_retries attempts st).2 = files st.
Proof.
  revert st. induction attempts as [|a rest IH]; intros st; [done|].
  cbn [retry_loop]. destruct (delay_bounds a) as [lo hi].
  unfold session_get. destruct (net _ url) as [r|e]; cbn [fst snd].
  - simpl. rewrite !fetches_app. simpl. by rewrite !app_nil_r.
  - destruct (a =? max_retries)%Z.
    + simpl. rewrite !fetches_app. simpl. by rewrite !app_nil_r.
    + destruct (IH (print ("[WARNING] " +:+ url +:+ " attempt "
                           +:+ Str.of_Z (a + 1) +:+ ": " +:+ e)
                      {| clock := S (clock (emit (EvSleep lo hi) st));
                         events := events (emit (EvSleep lo hi) st) ++ [EvGet url];
                         files := files (emit (EvSleep lo hi) st) |})) as [-> ->].
      simpl. rewrite !fetches_app. simpl. by rewrite !app_nil_r.
Qed.

Lemma fetch_fetches u st :
  fetches (events (fetch u st).2) = fetches (events st) ++ [u]
  /\ files (fetch u st).2 = files st.
Proof.
  unfold fetch, make_request_with_retry. destruct (is_blocked u).
  - simpl. rewrite fetches_app. by simpl.
  - destruct (retry_loop_fetches u 3 (range (3 + 1)) (emit (EvFetch u) st)) as [-> ->].
    simpl. rewrite fetches_app. by simpl.
Qed.

Lemma retry_loop_ok url max_retries attempts st soup :
  (retry_loop url max_retries attempts st).1 = Some soup ->
  exists t, net t url = Ok soup.
Proof.
  revert st. induction attempts as [|a rest IH]; intros st; [done|].
  cbn [retry_loop]. destruct (delay_bounds a) as [lo hi].
  unfold session_get. destruct (net _ url) as [r|e] eqn:En; cbn [fst snd].
  - intros [= ->]. eauto.
  - destruct (a =? max_retries)%Z; [done|]. apply IH.
Qed.

Lemma fetch_ok u st soup : (fetch u st).1 = Some soup -> exists t, net t u = Ok soup.
Proof.
  unfold fetch, make_request_with_retry. destruct (is_blocked u); [done|].
  apply retry_loop_ok.
Qed.

Lemma extract_results soup u st :
  (extract_story_content self soup u st).1
  = (title_loop soup t_sels, extract_paras soup, next_links soup u,
     series_link self soup).
Proof. reflexivity. Qed.

Lemma extract_fetches soup u st :
  fetches (events (extract_story_content self soup u st).2) = fetches (events st)
  /\ files (extract_story_content self soup u st).2 = files st.
Proof.
  unfold extract_story_content. cbn [snd].
  destruct (Str.nonempty _); [done|]. simpl. rewrite fetches_app. simpl.
  by rewrite app_nil_r.
Qed.

Lemma print_fetches line st :
  fetches (events (print line st)) = fetches (events st)
  /\ files (print line st) = files st.
Proof. simpl. rewrite fetches_app. simpl. by rewrite app_nil_r. Qed.

End Effects.

(** ** The walks *)

Lemma add_part_block part p pp acc :
  (if 1 <? part then acc ++ ["PART " +:+ Str.of_nat part] else acc) ++ p :: pp
  = acc ++ part_block part (p :: pp).
Proof.
  unfold part_block. destruct (1 <? part); [|done]. by rewrite <- app_assoc.
Qed.

Lemma enqueue_elem nexts done todo x :
  x ∈ enqueue nexts done todo <-> x ∈ todo \/ (x ∈ nexts /\ x ∉ done).
Proof.
  unfold enqueue. revert todo. induction nexts as [|n nexts IH]; intros todo; simpl.
  - rewrite elem_of_nil. tauto.
  - rewrite IH, elem_of_cons. do 2 case_bool_decide; simpl.
    + split; [tauto|]. intros [?|[[->|?] ?]]; tauto.
    + split; [tauto|]. intros [?|[[->|?] ?]]; tauto.
    + split; [tauto|]. intros [?|[[->|?] ?]]; tauto.
    + rewrite elem_of_app, list_elem_of_singleton.
      split; [intros [[?| ->]|?]; tauto|]. intros [?|[[->|?] ?]]; tauto.
Qed.

Lemma enqueue_NoDup nexts done todo : NoDup todo -> NoDup (enqueue nexts done todo).
Proof.
  unfold enqueue. revert todo. induction nexts as [|n nexts IH]; intros todo Hnd; [done|].
  simpl. apply IH. do 2 case_bool_decide; simpl; try done.
  apply NoDup_app. split; [done|]. split; [|apply NoDup_singleton].
  intros x Hx ->%list_elem_of_singleton. done.
Qed.

Lemma not_elem_of_grown (cu u : string) (seen : gset string) :
  u ∉ {[cu]} ∪ seen -> u <> cu /\ u ∉ seen.
Proof. set_solver. Qed.

Lemma visits_fresh (cu : string) (seen : gset string) (l : list string) :
  cu ∉ seen -> NoDup l -> (forall u, u ∈ l -> u ∉ {[cu]} ∪ seen) ->
  NoDup (cu :: l) /\ forall u, u ∈ cu :: l -> u ∉ seen.
Proof.
  intros Hcu Hnd Hl. split.
  - apply NoDup_cons. split; [|done].
    intros Hin. by destruct (not_elem_of_grown _ _ _ (Hl _ Hin)).
  - intros u [->|Hin]%elem_of_cons; [done|].
    by destruct (not_elem_of_grown _ _ _ (Hl _ Hin)).
Qed.

Section Walks.
Context `{Externals}.
Variable self : StoryScraperFramework.

Lemma chapter_walk_spec fuel :
  forall pages seen part pc log st pc' part' log' st',
    chapter_walk self fuel pages seen part pc log st = Some (pc', part', log', st') ->
    exists new,
      walk_post seen part pc log st pc' part' log' st' new
      /\ fetches (events st') = fetches (events st) ++ map fst new.
Proof.
  induction fuel as [|fuel IH]; intros pages seen part pc log st pc' part' log' st';
    [done|].
  cbn [chapter_walk]. destruct pages as [|cu pages].
  { intros [= <- <- <- <-]. exists []. unfold walk_post. simpl.
    rewrite !app_nil_r, Nat.add_0_r. split_and!; try done; [constructor|].
    intros u Hu. by apply elem_of_nil in Hu. }
  case_bool_decide as Hin; [apply IH|].
  destruct (fetch cu st) as [pr st1] eqn:Ef.
  destruct (fetch_fetches cu st) as [Hf1 Hfi1]. rewrite Ef in Hf1, Hfi1. simpl in Hf1, Hfi1.
  destruct pr as [ps|].
  - destruct (extract_story_content self ps cu st1) as [[[[t pp] nexts] ser] st2] eqn:Ee.
    destruct (extract_fetches self ps cu st1) as [Hf2 Hfi2].
    rewrite Ee in Hf2, Hfi2. simpl in Hf2, Hfi2.
    destruct pp as [|p pp].
    + intros Hw. apply IH in Hw as (new & (-> & -> & -> & Hnd & Hseen & Hfiles) & Hf).
      exists ((cu, Some []) :: new). unfold walk_post. cbn [map fst render_parts part_block].
      rewrite <- !app_assoc. simpl. split_and!.
      * done.
      * unfold fetched_pages. simpl. lia.
      * done.
      * by apply (visits_fresh cu seen).
      * by apply (visits_fresh cu seen).
      * congruence.
      * rewrite Hf, Hf2, Hf1, <- app_assoc. done.
    + intros Hw. apply IH in Hw as (new & (-> & -> & -> & Hnd & Hseen & Hfiles) & Hf).
      exists ((cu, Some (p :: pp)) :: new). unfold walk_post, add_part.
      cbn [map fst render_parts].
      rewrite add_part_block, <- !app_assoc. simpl. split_and!.
      * done.
      * unfold fetched_pages. simpl. lia.
      * done.
      * by apply (visits_fresh cu seen).
      * by apply (visits_fresh cu seen).
      * rewrite Hfiles. simpl. congruence.
      * rewrite Hf. simpl. rewrite fetches_app. simpl.
        rewrite app_nil_r, Hf2, Hf1, <- app_assoc. done.
  - intros Hw. apply IH in Hw as (new & (-> & -> & -> & Hnd & Hseen & Hfiles) & Hf).
    exists ((cu, None) :: new). unfold walk_post. cbn [map fst render_parts].
    rewrite <- !app_assoc. simpl. split_and!.
    * done.
    * done.
    * done.
    * by apply (visits_fresh cu seen).
    * by apply (visits_fresh cu seen).
    * congruence.
    * rewrite Hf, Hf1, <- app_assoc. done.
Qed.

Lemma story_walk_spec fuel :
  forall surl pp chs todo seen part allc log st allc' part' log' st',
    story_walk self fuel surl pp chs todo seen part allc log st
    = Some (allc', part', log', st') ->
    exists new,
      walk_post seen part allc log st allc' part' log' st' new
      /\ fetches (events st')
         = fetches (events st)
           ++ List.filter (fun u => negb (String.eqb u surl)) (map fst new).
Proof.
  induction fuel as [|fuel IH];
    intros surl pp chs todo seen part allc log st allc' part' log' st'; [done|].
  cbn [story_walk]. destruct todo as [|cu todo].
  { intros [= <- <- <- <-]. exists []. unfold walk_post. simpl.
    rewrite !app_nil_r, Nat.add_0_r. split_and!; try done; [constructor|].
    intros u Hu. by apply elem_of_nil in Hu. }
  case_bool_decide as Hin; [apply IH|].
  destruct (String.eqb cu surl) eqn:Ecu.
  - unfold visit_page. destruct pp as [|p pp'] eqn:Epp.
    + intros Hw. apply IH in Hw as (new & (-> & -> & -> & Hnd & Hseen & Hfiles) & Hf).
      exists ((cu, Some []) :: new). unfold walk_post. cbn [map fst render_parts part_block].
      rewrite <- !app_assoc. simpl. rewrite Ecu. simpl. split_and!.
      * done.
      * unfold fetched_pages. simpl. lia.
      * done.
      * by apply (visits_fresh cu seen).
      * by apply (visits_fresh cu seen).
      * done.
      * done.
    + intros Hw. apply IH in Hw as (new & (-> & -> & -> & Hnd & Hseen & Hfiles) & Hf).
      exists ((cu, Some (p :: pp')) :: new). unfold walk_post, add_part.
      cbn [map fst render_parts].
      rewrite add_part_block, <- !app_assoc. simpl. rewrite Ecu. simpl. split_and!.
      * done.
      * unfold fetched_pages. simpl. lia.
      * done.
      * by apply (visits_fresh cu seen).
      * by apply (visits_fresh cu seen).
      * by rewrite Hfiles.
      * rewrite Hf. simpl. rewrite fetches_app. simpl. by rewrite app_nil_r.
  - destruct (fetch cu st) as [pr st1] eqn:Ef.
    destruct (fetch_fetches cu st) as [Hf1 Hfi1].
    rewrite Ef in Hf1, Hfi1. simpl in Hf1, Hfi1.
    destruct pr as [ps|].
    + destruct (extract_story_content self ps cu st1)
        as [[[[t paras] nexts] ser] st2] eqn:Ee.
      destruct (extract_fetches self ps cu st1) as [Hf2 Hfi2].
      rewrite Ee in Hf2, Hfi2. simpl in Hf2, Hfi2.
      unfold visit_page. destruct paras as [|p paras].
      * intros Hw. apply IH in Hw as (new & (-> & -> & -> & Hnd & Hseen & Hfiles) & Hf).
        exists ((cu, Some []) :: new). unfold walk_post.
        cbn [map fst render_parts part_block].
        rewrite <- !app_assoc. simpl. rewrite Ecu. simpl. split_and!.
        -- done.
        -- unfold fetched_pages. simpl. lia.
        -- done.
        -- by apply (visits_fresh cu seen).
        -- by apply (visits_fresh cu seen).
        -- congruence.
        -- rewrite Hf, Hf2, Hf1, <- app_assoc. done.
      * intros Hw. apply IH in Hw as (new & (-> & -> & -> & Hnd & Hseen & Hfiles) & Hf).
        exists ((cu, Some (p :: paras)) :: new). unfold walk_post, add_part.
        cbn [map fst render_parts].
        rewrite add_part_block, <- !app_assoc. simpl. rewrite Ecu. simpl. split_and!.
        -- done.
        -- unfold fetched_pages. simpl. lia.
        -- done.
        -- by apply (visits_fresh cu seen).
        -- by apply (visits_fresh cu seen).
        -- rewrite Hfiles. simpl. congruence.
        -- rewrite Hf. simpl. rewrite fetches_app. simpl.
           rewrite app_nil_r, Hf2, Hf1, <- app_assoc. done.
    + intros Hw. apply IH in Hw as (new & (-> & -> & -> & Hnd & Hseen & Hfiles) & Hf).
      exists ((cu, None) :: new). unfold walk_post. cbn [map fst render_parts].
      rewrite <- !app_assoc. simpl. rewrite Ecu. simpl. split_and!.
      * done.
      * done.
      * done.
      * by apply (visits_fresh cu seen).
      * by apply (visits_fresh cu seen).
      * congruence.
      * rewrite Hf, Hf1, <- app_assoc. done.
Qed.

Lemma series_walk_spec fuel :
  forall todo seen st r st',
    series_walk self fuel todo seen st = Some (r, st') ->
    exists l,
      fetches (events st') = fetches (events st) ++ l
      /\ NoDup l /\ (forall u, u ∈ l -> u ∉ seen) /\ files st' = files st.
Proof.
  induction fuel as [|fuel IH]; intros todo seen st r st'; [done|].
  cbn [series_walk]. destruct todo as [|cu todo].
  { intros [= <- <-]. exists []. rewrite app_nil_r. split_and!; try done; [constructor|].
    intros u Hu. by apply elem_of_nil in Hu. }
  case_bool_decide as Hin; [apply IH|].
  destruct (fetch cu st) as [pr st1] eqn:Ef.
  destruct (fetch_fetches cu st) as [Hf1 Hfi1].
  rewrite Ef in Hf1, Hfi1. simpl in Hf1, Hfi1.
  destruct pr as [ps|].
  - destruct (extract_story_content self ps cu st1)
      as [[[[t paras] nexts] ser] st2] eqn:Ee.
    destruct (extract_fetches self ps cu st1) as [Hf2 Hfi2].
    rewrite Ee in Hf2, Hfi2. simpl in Hf2, Hfi2.
    destruct (truthy ser).
    + intros [= <- <-]. exists [cu]. split_and!.
      * congruence.
      * apply NoDup_singleton.
      * by intros u ->%list_elem_of_singleton.
      * congruence.
    + intros Hw. apply IH in Hw as (l & Hf & Hnd & Hseen & Hfiles).
      exists (cu :: l). split_and!.
      * rewrite Hf, Hf2, Hf1, <- app_assoc. done.
      * by apply (visits_fresh cu seen).
      * by apply (visits_fresh cu seen).
      * congruence.
  - intros Hw. apply IH in Hw as (l & Hf & Hnd & Hseen & Hfiles).
    exists (cu :: l). split_and!.
    * rewrite Hf, Hf1, <- app_assoc. done.
    * by apply (visits_fresh cu seen).
    * by apply (visits_fresh cu seen).
    * congruence.
Qed.

(** *** Termination on a finite link graph *)

Lemma size_shrinks (U seen : gset string) (cu : string) :
  cu ∈ U -> cu ∉ seen -> size (U ∖ ({[cu]} ∪ seen)) < size (U ∖ seen).
Proof.
  intros HU Hs. apply subset_size. split.
  - intros x. rewrite !elem_of_difference, elem_of_union. tauto.
  - intros Hsub. specialize (Hsub cu). revert Hsub.
    rewrite !elem_of_difference, elem_of_union, elem_of_singleton. tauto.
Qed.

Lemma queue_ok_pop U seen cu todo :
  queue_ok U seen (cu :: todo) -> queue_ok U ({[cu]} ∪ seen) todo.
Proof.
  intros [[Hcu Hnd]%NoDup_cons Hall]. split; [done|]. intros u Hu.
  destruct (Hall u) as [HU Hs]; [by apply list_elem_of_further|]. split; [done|].
  rewrite elem_of_union, elem_of_singleton. intros [->|?]; done.
Qed.

Lemma queue_ok_enqueue U seen nexts todo :
  queue_ok U seen todo -> (forall n, n ∈ nexts -> n ∈ U) ->
  queue_ok U seen (enqueue nexts seen todo).
Proof.
  intros [Hnd Hall] Hnext. split; [by apply enqueue_NoDup|].
  intros u [Hu|[Hu Hs]]%enqueue_elem; [by apply Hall|]. split; [by apply Hnext|done].
Qed.

Section Finite.
Variable U : gset string.
Hypothesis Hlinks : links_within U.

Lemma fetched_links_within cu st ps st1 :
  fetch cu st = (Some ps, st1) -> forall n, n ∈ next_links ps cu -> n ∈ U.
Proof.
  intros Ef n Hn. destruct (fetch_ok cu st ps) as [t Ht]; [by rewrite Ef|].
  by apply (Hlinks t cu ps).
Qed.

Lemma chapter_walk_terminates fuel :
  forall pages seen part pc log st,
    queue_ok U seen pages -> size (U ∖ seen) < fuel ->
    is_Some (chapter_walk self fuel pages seen part pc log st).
Proof.
  induction fuel as [|fuel IH]; intros pages seen part pc log st Hq Hsize; [lia|].
  cbn [chapter_walk]. destruct pages as [|cu pages]; [done|].
  destruct (proj2 Hq cu) as [HU Hs]; [apply list_elem_of_here|].
  pose proof (size_shrinks U seen cu HU Hs) as Hlt.
  pose proof (queue_ok_pop U seen cu pages Hq) as Hq'.
  case_bool_decide; [done|].
  destruct (fetch cu st) as [[ps|] st1] eqn:Ef; [|apply IH; [done|lia]].
  destruct (extract_story_content self ps cu st1) as [[[[t pp] nexts] ser] st2] eqn:Ee.
  pose proof (extract_results self ps cu st1) as Hr. rewrite Ee in Hr.
  injection Hr as -> -> -> ->.
  destruct (extract_paras ps); (apply IH; [|lia]);
    apply queue_ok_enqueue; try done; by apply (fetched_links_within cu st ps st1).
Qed.

Lemma series_walk_terminates fuel :
  forall todo seen st,
    queue_ok U seen todo -> size (U ∖ seen) < fuel ->
    is_Some (series_walk self fuel todo seen st).
Proof.
  induction fuel as [|fuel IH]; intros todo seen st Hq Hsize; [lia|].
  cbn [series_walk]. destruct todo as [|cu todo]; [done|].
  destruct (proj2 Hq cu) as [HU Hs]; [apply list_elem_of_here|].
  pose proof (size_shrinks U seen cu HU Hs) as Hlt.
  pose proof (queue_ok_pop U seen cu todo Hq) as Hq'.
  case_bool_decide; [done|].
  destruct (fetch cu st) as [[ps|] st1] eqn:Ef; [|apply IH; [done|lia]].
  destruct (extract_story_content self ps cu st1) as [[[[t pp] nexts] ser] st2] eqn:Ee.
  pose proof (extract_results self ps cu st1) as Hr. rewrite Ee in Hr.
  injection Hr as -> -> -> ->.
  destruct (truthy (series_link self ps)); [done|]. apply IH; [|lia].
  apply queue_ok_enqueue; [done|]. by apply (fetched_links_within cu st ps st1).
Qed.

Lemma story_walk_terminates fuel :
  forall surl pp chs todo seen part allc log st,
    (forall n, n ∈ chs -> n ∈ U) ->
    queue_ok U seen todo -> size (U ∖ seen) < fuel ->
    is_Some (story_walk self fuel surl pp chs todo seen part allc log st).
Proof.
  induction fuel as [|fuel IH];
    intros surl pp chs todo seen part allc log st Hchs Hq Hsize; [lia|].
  cbn [story_walk]. destruct todo as [|cu todo]; [done|].
  destruct (proj2 Hq cu) as [HU Hs]; [apply list_elem_of_here|].
  pose proof (size_shrinks U seen cu HU Hs) as Hlt.
  pose proof (queue_ok_pop U seen cu todo Hq) as Hq'.
  case_bool_decide; [done|].
  destruct (String.eqb cu surl).
  - unfold visit_page. destruct pp; (apply IH; [done| |lia]);
      by apply queue_ok_enqueue.
  - destruct (fetch cu st) as [[ps|] st1] eqn:Ef; [|apply IH; [done|done|lia]].
    destruct (extract_story_content self ps cu st1)
      as [[[[t paras] nexts] ser] st2] eqn:Ee.
    pose proof (extract_results self ps cu st1) as Hr. rewrite Ee in Hr.
    injection Hr as -> -> -> ->.
    unfold visit_page. destruct (extract_paras ps); (apply IH; [done| |lia]);
      apply queue_ok_enqueue; try done; by apply (fetched_links_within cu st ps st1).
Qed.

End Finite.

Lemma queue_ok_seed (U : gset string) (seed : string) :
  seed ∈ U -> queue_ok U ∅ [seed].
Proof.
  intros HU. split; [apply NoDup_singleton|].
  intros u ->%list_elem_of_singleton. split; [done|apply not_elem_of_empty].
Qed.

(** C2, as the script has it: whatever the link graph, cyclic or not,
    a walk started at [seed] that returns has handed pairwise distinct
    urls to the fetcher, and the walk of a single story never fetches
    its seed again.  The loops themselves bound nothing: a walk comes to
    an end, within [size U + 1] rounds of its loop, when the urls the
    site links to all lie in a finite set [U]. *)
Theorem walks_fetch_once_and_terminate (seed : string) (fuel : nat) (st : State) :
  (forall r st',
      series_walk self fuel [seed] ∅ st = Some (r, st') ->
      exists l, fetches (events st') = fetches (events st) ++ l /\ NoDup l)
  /\ (forall pc part log st',
        chapter_walk self fuel [seed] ∅ 1 [] [] st = Some (pc, part, log, st') ->
        fetches (events st') = fetches (events st) ++ map fst log
        /\ NoDup (map fst log))
  /\ (forall pp chs allc part log st',
        story_walk self fuel seed pp chs [seed] ∅ 1 [] [] st
        = Some (allc, part, log, st') ->
        exists l,
          fetches (events st') = fetches (events st) ++ l /\ NoDup l /\ seed ∉ l)
  /\ (forall U : gset string,
        links_within U -> seed ∈ U -> size U < fuel ->
        is_Some (series_walk self fuel [seed] ∅ st)
        /\ is_Some (chapter_walk self fuel [seed] ∅ 1 [] [] st)
        /\ forall pp chs, (forall n, n ∈ chs -> n ∈ U) ->
             is_Some (story_walk self fuel seed pp chs [seed] ∅ 1 [] [] st)).
Proof.
  split_and!.
  - intros r st' Hw.
    destruct (series_walk_spec fuel _ _ _ _ _ Hw) as (l & Hf & Hnd & _).
    by exists l.
  - intros pc part log st' Hw.
    destruct (chapter_walk_spec fuel _ _ _ _ _ _ _ _ _ _ Hw)
      as (new & (Hlog & _ & _ & Hnd & _) & Hf).
    simpl in Hlog. by subst new.
  - intros pp chs allc part log st' Hw.
    destruct (story_walk_spec fuel _ _ _ _ _ _ _ _ _ _ _ _ _ Hw)
      as (new & (Hlog & _ & _ & Hnd & _) & Hf).
    exists (List.filter (fun u => negb (String.eqb u seed)) (map fst new)).
    split_and!; [done|by apply NoDup_ListNoDup, List.NoDup_filter, NoDup_ListNoDup|].
    rewrite list_elem_of_In, filter_In, String.eqb_refl. by intros [_ [=]].
  - intros U Hlinks HU Hfuel.
    assert (size (U ∖ ∅) < fuel) as Hsize by by rewrite difference_empty_L.
    pose proof (queue_ok_seed U seed HU) as Hq. split_and!.
    + by apply (series_walk_terminates U Hlinks).
    + by apply (chapter_walk_terminates U Hlinks).
    + intros pp chs Hchs. by apply (story_walk_terminates U Hlinks).
Qed.

Lemma chapter_walk_visits fuel :
  forall pages seen part pc log st pc' part' log' st',
    chapter_walk self fuel pages seen part pc log st = Some (pc', part', log', st') ->
    exists new, log' = log ++ new /\ visits self None part (map fst new) st = (new, st').
Proof.
  induction fuel as [|fuel IH]; intros pages seen part pc log st pc' part' log' st';
    [done|].
  cbn [chapter_walk]. destruct pages as [|cu pages].
  { intros [= <- <- <- <-]. exists []. by rewrite app_nil_r. }
  case_bool_decide as Hin; [apply IH|].
  destruct (fetch cu st) as [pr st1] eqn:Ef. destruct pr as [ps|].
  - destruct (extract_story_content self ps cu st1) as [[[[t pp] nexts] ser] st2] eqn:Ee.
    assert (forall pc0,
               chapter_walk self fuel (enqueue nexts ({[cu]} ∪ seen) pages)
                 ({[cu]} ∪ seen) (S part) pc0 (log ++ [(cu, Some pp)])
                 (announce part pp st2) = Some (pc', part', log', st') ->
               exists new, log' = log ++ new
                           /\ visits self None part (map fst new) st = (new, st'))
      as Hstep.
    { intros pc0 (new & -> & Hv)%IH. exists ((cu, Some pp) :: new).
      rewrite <- app_assoc. split; [done|].
      cbn [map fst visits]. rewrite Ef, Ee, Hv. done. }
    destruct pp as [|p pp]; apply Hstep.
  - intros (new & -> & Hv)%IH. exists ((cu, None) :: new).
    rewrite <- app_assoc. split; [done|].
    cbn [map fst visits]. rewrite Ef, Hv. done.
Qed.

Lemma story_walk_visits fuel :
  forall surl pp chs todo seen part allc log st allc' part' log' st',
    story_walk self fuel surl pp chs todo seen part allc log st
    = Some (allc', part', log', st') ->
    exists new,
      log' = log ++ new
      /\ visits self (Some (surl, pp)) part (map fst new) st = (new, st').
Proof.
  induction fuel as [|fuel IH];
    intros surl pp chs todo seen part allc log st allc' part' log' st'; [done|].
  cbn [story_walk]. destruct todo as [|cu todo].
  { intros [= <- <- <- <-]. exists []. by rewrite app_nil_r. }
  case_bool_decide as Hin; [apply IH|].
  destruct (String.eqb cu surl) eqn:Eseed.
  - unfold visit_page.
    assert (forall allc0,
               story_walk self fuel surl pp chs (enqueue chs ({[cu]} ∪ seen) todo)
                 ({[cu]} ∪ seen) (S part) allc0 (log ++ [(cu, Some pp)])
                 (announce part pp st) = Some (allc', part', log', st') ->
               exists new, log' = log ++ new
                           /\ visits self (Some (surl, pp)) part (map fst new) st
                              = (new, st'))
      as Hstep.
    { intros allc0 (new & -> & Hv)%IH. exists ((cu, Some pp) :: new).
      rewrite <- app_assoc. split; [done|].
      cbn [map fst visits]. rewrite Eseed, Hv. done. }
    destruct pp as [|p pp]; apply Hstep.
  - destruct (fetch cu st) as [rr st1] eqn:Ef. destruct rr as [ps|].
    + destruct (extract_story_content self ps cu st1)
        as [[[[t paras] nexts] ser] st2] eqn:Ee.
      unfold visit_page.
      assert (forall allc0,
                 story_walk self fuel surl pp chs (enqueue nexts ({[cu]} ∪ seen) todo)
                   ({[cu]} ∪ seen) (S part) allc0 (log ++ [(cu, Some paras)])
                   (announce part paras st2) = Some (allc', part', log', st') ->
                 exists new, log' = log ++ new
                             /\ visits self (Some (surl, pp)) part (map fst new) st
                                = (new, st'))
        as Hstep.
      { intros allc0 (new & -> & Hv)%IH. exists ((cu, Some paras) :: new).
        rewrite <- app_assoc. split; [done|].
        cbn [map fst visits]. rewrite Eseed, Ef, Ee, Hv. done. }
      destruct paras as [|p paras]; apply Hstep.
    + intros (new & -> & Hv)%IH. exists ((cu, None) :: new).
      rewrite <- app_assoc. split; [done|].
      cbn [map fst visits]. rewrite Eseed, Ef, Hv. done.
Qed.

(** C3, as the script has it: in the page walk of a chapter and in
    that of a single story the part index goes up by one for every
    url whose page was fetched, with or without paragraphs, and stays
    where it is when the fetch failed.  A page with paragraphs puts
    them into the text, after the marker [PART k] when its index [k]
    is above 1; a page without paragraphs puts nothing, marker
    included.  [log] has one entry per url the walk took up, and it is
    the record of what the fetcher answered: taking up the same urls in
    the same order from the same state gives [log] and the state the
    walk ends in, [None] standing for a fetch that failed and the
    paragraphs of the page served for one that did not.
    On a finite link graph both walks come to an end. *)
Theorem part_index_counts_fetched_pages (fuel : nat) (seed : string) (st : State) :
  (forall pc part log st',
      chapter_walk self fuel [seed] ∅ 1 [] [] st = Some (pc, part, log, st') ->
      fetches (events st') = fetches (events st) ++ map fst log
      /\ part = 1 + fetched_pages log
      /\ pc = render_parts 1 log
      /\ visits self None 1 (map fst log) st = (log, st'))
  /\ (forall pp chs allc part log st',
        story_walk self fuel seed pp chs [seed] ∅ 1 [] [] st
        = Some (allc, part, log, st') ->
        fetches (events st')
        = fetches (events st)
          ++ List.filter (fun u => negb (String.eqb u seed)) (map fst log)
        /\ part = 1 + fetched_pages log
        /\ allc = render_parts 1 log
        /\ visits self (Some (seed, pp)) 1 (map fst log) st = (log, st'))
  /\ (forall U : gset string,
        links_within U -> seed ∈ U -> size U < fuel ->
        is_Some (chapter_walk self fuel [seed] ∅ 1 [] [] st)
        /\ forall pp chs, (forall n, n ∈ chs -> n ∈ U) ->
             is_Some (story_walk self fuel seed pp chs [seed] ∅ 1 [] [] st))
  /\ (forall k u log, render_parts k ((u, None) :: log) = render_parts k log)
  /\ (forall k u pp log,
        render_parts k ((u, Some pp) :: log)
        = part_block k pp ++ render_parts (S k) log)
  /\ (forall k, part_block k [] = [])
  /\ (forall k p pp,
        part_block k (p :: pp)
        = (if 1 <? k then ["PART " +:+ Str.of_nat k] else []) ++ p :: pp).
Proof.
  split_and!; try done.
  - intros pc part log st' Hw.
    destruct (chapter_walk_visits fuel _ _ _ _ _ _ _ _ _ _ Hw) as (new' & Hlog' & Hv).
    destruct (chapter_walk_spec fuel _ _ _ _ _ _ _ _ _ _ Hw)
      as (new & (Hlog & -> & -> & _) & Hf).
    simpl in Hlog, Hlog'. by subst new new'.
  - intros pp chs allc part log st' Hw.
    destruct (story_walk_visits fuel _ _ _ _ _ _ _ _ _ _ _ _ _ Hw) as (new' & Hlog' & Hv).
    destruct (story_walk_spec fuel _ _ _ _ _ _ _ _ _ _ _ _ _ Hw)
      as (new & (Hlog & -> & -> & _) & Hf).
    simpl in Hlog, Hlog'. by subst new new'.
  - intros U Hlinks HU Hfuel.
    assert (size (U ∖ ∅) < fuel) as Hsize by by rewrite difference_empty_L.
    pose proof (queue_ok_seed U seed HU) as Hq. split.
    + by apply (chapter_walk_terminates U Hlinks).
    + intros pp chs Hchs. by apply (story_walk_terminates U Hlinks).
Qed.

End Walks.

(** ** The walks on the demo site *)

Lemma ring_links_within :
  @links_within (Demo.world Demo.ring_site) {[Demo.ring_a; Demo.ring_b]}.
Proof.
  intros t u soup n. cbn [net Demo.world]. unfold Demo.ring_site.
  destruct (String.eqb_spec u Demo.ring_a) as [->|_].
  - intros [= <-]. vm_compute next_links.
    intros ->%list_elem_of_singleton. apply elem_of_union_r, elem_of_singleton. done.
  - destruct (String.eqb_spec u Demo.ring_b) as [->|_]; [|done].
    intros [= <-]. vm_compute next_links.
    intros ->%list_elem_of_singleton. apply elem_of_union_l, elem_of_singleton. done.
Qed.

(** two pages that link to each other *)
Lemma walks_fetch_once_and_terminate_witness :
  is_Some (@series_walk (Demo.world Demo.ring_site) Demo.self 3 [Demo.ring_a] ∅ Demo.st0)
  /\ is_Some (@chapter_walk (Demo.world Demo.ring_site) Demo.self 3 [Demo.ring_a] ∅ 1 [] []
                Demo.st0)
  /\ fetches (events (Demo.final_state
                        (@chapter_walk (Demo.world Demo.ring_site) Demo.self 3
                           [Demo.ring_a] ∅ 1 [] [] Demo.st0)))
     = fetches (events Demo.st0)
       ++ map fst
            [(Demo.ring_a,
              Some ["It was a dark and stormy night."; "Nobody came to the door."]);
             (Demo.ring_b,
              Some ["The morning after was quiet."; "She left before breakfast."])]
  /\ NoDup (map fst
              [(Demo.ring_a,
                Some ["It was a dark and stormy night."; "Nobody came to the door."]);
               (Demo.ring_b,
                Some ["The morning after was quiet."; "She left before breakfast."])]).
Proof.
  destruct (@walks_fetch_once_and_terminate (Demo.world Demo.ring_site) Demo.self
              Demo.ring_a 3 Demo.st0) as (_ & Hchapter & _ & Hend).
  destruct (Hend {[Demo.ring_a; Demo.ring_b]}) as (Hs & Hc & _).
  - apply ring_links_within.
  - apply elem_of_union_l, elem_of_singleton. reflexivity.
  - vm_compute. lia.
  - split; [exact Hs|]. split; [exact Hc|].
    apply (Hchapter
             ["It was a dark and stormy night."; "Nobody came to the door.";
              "PART 2"; "The morning after was quiet."; "She left before breakfast."]
             3
             [(Demo.ring_a,
               Some ["It was a dark and stormy night."; "Nobody came to the door."]);
              (Demo.ring_b,
               Some ["The morning after was quiet."; "She left before breakfast."])]
             (Demo.final_state
                (@chapter_walk (Demo.world Demo.ring_site) Demo.self 3 [Demo.ring_a] ∅
                   1 [] [] Demo.st0))).
    vm_compute. reflexivity.
Defined.

(** *** A pager without an end *)

Lemma append_cons c s1 s2 : String c s1 +:+ s2 = String c (s1 +:+ s2).
Proof. reflexivity. Qed.

Lemma length_append s1 s2 :
  String.length (s1 +:+ s2) = String.length s1 + String.length s2.
Proof. induction s1 as [|c s1 IH]; [done|]. rewrite append_cons. simpl. by rewrite IH. Qed.

Lemma append_assoc s1 s2 s3 : (s1 +:+ s2) +:+ s3 = s1 +:+ (s2 +:+ s3).
Proof. induction s1 as [|c s1 IH]; [done|]. rewrite !append_cons. by rewrite IH. Qed.

Lemma endless_fetch s st :
  (@fetch (Demo.world Endless.site) (Endless.seed +:+ s) st).1
  = Some (Endless.page (Endless.seed +:+ s)).
Proof. reflexivity. Qed.

Lemma endless_next_links s :
  @next_links (Demo.world Endless.site) (Endless.page (Endless.seed +:+ s))
    (Endless.seed +:+ s)
  = [Endless.seed +:+ s +:+ "1"].
Proof. rewrite <- append_assoc. reflexivity. Qed.

(** the next page has a longer url than any page seen, so it is new *)
Lemma endless_enqueue (u : string) (seen : gset string) :
  (forall d, d ∈ seen -> String.length d < String.length u) ->
  (u ∉ seen)
  /\ enqueue [u +:+ "1"] ({[u]} ∪ seen) [] = [u +:+ "1"]
  /\ forall d, d ∈ {[u]} ∪ seen -> String.length d < String.length (u +:+ "1").
Proof.
  intros Hseen.
  assert (forall d, d ∈ {[u]} ∪ seen -> String.length d < String.length (u +:+ "1")) as Hnew.
  { intros d [->%elem_of_singleton|Hd%Hseen]%elem_of_union;
      rewrite length_append; simpl; lia. }
  split_and!; [|unfold enqueue; cbn [fold_left]|done].
  - intros Hu%Hseen. lia.
  - rewrite bool_decide_eq_false_2; [done|]. intros Hin%Hnew. lia.
Qed.

Lemma endless_chapter_walk fuel :
  forall s seen part pc log st,
    (forall d, d ∈ seen -> String.length d < String.length (Endless.seed +:+ s)) ->
    @chapter_walk (Demo.world Endless.site) Demo.self fuel [Endless.seed +:+ s] seen
      part pc log st = None.
Proof.
  induction fuel as [|fuel IH]; intros s seen part pc log st Hseen; [done|].
  destruct (endless_enqueue _ _ Hseen) as (Hu & Hq & Hnew).
  cbn [chapter_walk]. rewrite bool_decide_eq_false_2 by done.
  pose proof (endless_fetch s st) as Hf.
  destruct (@fetch (Demo.world Endless.site) (Endless.seed +:+ s) st) as [pr st1].
  cbn [fst] in Hf. subst pr.
  pose proof (@extract_results (Demo.world Endless.site) Demo.self
                (Endless.page (Endless.seed +:+ s)) (Endless.seed +:+ s) st1) as Hr.
  destruct (@extract_story_content (Demo.world Endless.site) Demo.self _ _ st1)
    as [[[[t pp] nexts] ser] st2].
  cbn [fst] in Hr. rewrite endless_next_links in Hr. injection Hr as -> -> -> ->.
  change (extract_paras (Endless.page (Endless.seed +:+ s))) with (@nil string).
  rewrite append_assoc in Hq, Hnew. rewrite Hq. by apply IH.
Qed.

Lemma endless_series_walk fuel :
  forall s seen st,
    (forall d, d ∈ seen -> String.length d < String.length (Endless.seed +:+ s)) ->
    @series_walk (Demo.world Endless.site) Demo.self fuel [Endless.seed +:+ s] seen st
    = None.
Proof.
  induction fuel as [|fuel IH]; intros s seen st Hseen; [done|].
  destruct (endless_enqueue _ _ Hseen) as (Hu & Hq & Hnew).
  cbn [series_walk]. rewrite bool_decide_eq_false_2 by done.
  pose proof (endless_fetch s st) as Hf.
  destruct (@fetch (Demo.world Endless.site) (Endless.seed +:+ s) st) as [pr st1].
  cbn [fst] in Hf. subst pr.
  pose proof (@extract_results (Demo.world Endless.site) Demo.self
                (Endless.page (Endless.seed +:+ s)) (Endless.seed +:+ s) st1) as Hr.
  destruct (@extract_story_content (Demo.world Endless.site) Demo.self _ _ st1)
    as [[[[t pp] nexts] ser] st2].
  cbn [fst] in Hr. rewrite endless_next_links in Hr. injection Hr as -> -> -> ->.
  change (truthy (@series_link (Demo.world Endless.site) Demo.self
                    (Endless.page (Endless.seed +:+ s)))) with false.
  rewrite append_assoc in Hq, Hnew. rewrite Hq. by apply IH.
Qed.

(** C2, as the specification words it, fails: on [Endless.site] the
    link graph is a chain without an end and without a cycle; the page
    walk of a chapter, series discovery and with it scrape_story never
    return, however many rounds their loops are given. *)
Lemma endless_pager_never_returns_counterexample :
  (forall fuel,
      @chapter_walk (Demo.world Endless.site) Demo.self fuel [Endless.seed] ∅ 1 [] []
        Demo.st0 = None)
  /\ (forall fuel,
        @find_series_link_from_all_pages (Demo.world Endless.site) Demo.self fuel
          Endless.seed Demo.st0 = None)
  /\ (forall fuel,
        @scrape_story (Demo.world Endless.site) Demo.self fuel "Endless" Endless.seed true
          Demo.st0 = None).
Proof.
  assert (Endless.seed = Endless.seed +:+ "") as Hs by reflexivity.
  split_and!; intros fuel.
  - rewrite Hs. apply endless_chapter_walk. intros d Hd. by apply not_elem_of_empty in Hd.
  - unfold find_series_link_from_all_pages. rewrite Hs. apply endless_series_walk.
    intros d Hd. by apply not_elem_of_empty in Hd.
  - unfold scrape_story, find_series_link_from_all_pages. rewrite Hs at 1.
    rewrite endless_series_walk; [done|]. intros d Hd. by apply not_elem_of_empty in Hd.
Qed.

Lemma broken_links_within :
  @links_within (Demo.world Demo.broken_site)
    {[Demo.story_url; Demo.page2_url; Demo.page3_url]}.
Proof.
  intros t u soup n. cbn [net Demo.world]. unfold Demo.broken_site.
  destruct (String.eqb_spec u Demo.story_url) as [->|_].
  - intros [= <-]. vm_compute next_links.
    rewrite !elem_of_cons, elem_of_nil, !elem_of_union, !elem_of_singleton. tauto.
  - destruct (String.eqb_spec u Demo.page3_url) as [->|_]; [|done].
    intros [= <-]. vm_compute next_links. by rewrite elem_of_nil.
Qed.

(** the part numbers on [Demo.broken_site] *)
Lemma part_index_counts_fetched_pages_witness :
  3 = 1 + fetched_pages Demo.broken_log
  /\ Demo.broken_text = render_parts 1 Demo.broken_log
  /\ @visits (Demo.world Demo.broken_site) Demo.self None 1 (map fst Demo.broken_log)
       Demo.st0
     = (Demo.broken_log,
        Demo.final_state
          (@chapter_walk (Demo.world Demo.broken_site) Demo.self 10
             [Demo.story_url] ∅ 1 [] [] Demo.st0))
  /\ is_Some (@chapter_walk (Demo.world Demo.broken_site) Demo.self 10
                [Demo.story_url] ∅ 1 [] [] Demo.st0).
Proof.
  destruct (@part_index_counts_fetched_pages (Demo.world Demo.broken_site) Demo.self
              10 Demo.story_url Demo.st0) as (Hch & _ & Hend & _).
  destruct (Hch Demo.broken_text 3 Demo.broken_log
              (Demo.final_state
                 (@chapter_walk (Demo.world Demo.broken_site) Demo.self 10
                    [Demo.story_url] ∅ 1 [] [] Demo.st0)))
    as (_ & Hpart & Htext & Hvisits).
  - vm_compute. reflexivity.
  - split; [exact Hpart|]. split; [exact Htext|]. split; [exact Hvisits|].
    apply (Hend {[Demo.story_url; Demo.page2_url; Demo.page3_url]}).
    + apply broken_links_within.
    + apply elem_of_union_l, elem_of_union_l, elem_of_singleton. reflexivity.
    + vm_compute. lia.
Defined.

(** C3, as the specification words it, fails: on [Demo.broken_site] the
    walk takes up three urls, the second of which cannot be fetched; the
    index ends at 3, not at 4, and the third url is announced as PART 2,
    so the failed page took no index. *)
Lemma failed_fetch_takes_no_index_counterexample :
  exists st',
    @chapter_walk (Demo.world Demo.broken_site) Demo.self 10 [Demo.story_url] ∅ 1 [] []
      Demo.st0 = Some (Demo.broken_text, 3, Demo.broken_log, st')
    /\ fetches (events st') = [Demo.story_url; Demo.page2_url; Demo.page3_url]
    /\ map fst Demo.broken_log = [Demo.story_url; Demo.page2_url; Demo.page3_url]
    /\ 3 <> 1 + length Demo.broken_log
    /\ Demo.broken_text
       = ["It was a dark and stormy night."; "Nobody came to the door.";
          "PART 2"; "The morning after was quiet."; "She left before breakfast."].
Proof.
  eexists. split; [vm_compute; reflexivity|]. split_and!; [reflexivity|reflexivity| |reflexivity].
  simpl. lia.
Qed.

(** ** The skip test of scrape_story *)

Section Skip.
Context `{Externals}.
Variable self : StoryScraperFramework.




Lemma discovery_fetches_seed fuel surl st ser st1 :
  find_series_link_from_all_pages self fuel surl st = Some (ser, st1) ->
  files st1 = files st
  /\ exists l, fetches (events st1) = fetches (events st) ++ surl :: l.
Proof.
  unfold find_series_link_from_all_pages. intros Hw.
  destruct (series_walk_spec self fuel _ _ _ _ _ Hw) as (l & Hf & _ & _ & Hfiles).
  split; [done|]. destruct fuel as [|fuel]; [done|].
  cbn [series_walk] in Hw. rewrite bool_decide_eq_false_2 in Hw by apply not_elem_of_empty.
  destruct (fetch surl st) as [pr st0] eqn:Ef.
  destruct (fetch_fetches surl st) as [Hf1 _]. rewrite Ef in Hf1. cbn [snd] in Hf1.
  destruct pr as [ps|].
  - destruct (extract_story_content self ps surl st0) as [[[[t pp] nexts] ser'] st2] eqn:Ee.
    destruct (extract_fetches self ps surl st0) as [Hf2 _].
    rewrite Ee in Hf2. cbn [snd] in Hf2.
    destruct (truthy ser').
    + injection Hw as <- <-. exists []. congruence.
    + destruct (series_walk_spec self fuel _ _ _ _ _ Hw) as (l' & Hf' & _).
      exists l'. rewrite Hf', Hf2, Hf1, <- app_assoc. done.
  - destruct (series_walk_spec self fuel _ _ _ _ _ Hw) as (l' & Hf' & _).
    exists l'. rewrite Hf', Hf1, <- app_assoc. done.
Qed.


End Skip.



(** ** Story links of a category *)

Section CategoryFacts.
Context `{Externals}.
Variable self : StoryScraperFramework.

Lemma dedup_fold (found : list StoryLink) :
  forall (seen : gset string) (uniq : list StoryLink),
    (forall u, u ∈ seen <-> u ∈ map snd uniq) -> NoDup (map snd uniq) ->
    let r := fold_left
               (fun '(seen, uniq) '(t, u) =>
                  if bool_decide (u ∈ (seen : gset string)) then (seen, uniq)
                  else ({[u]} ∪ seen, uniq ++ [(t, u)]))
               found (seen, uniq) in
    NoDup (map snd r.2)
    /\ (forall u, u ∈ map snd r.2 <-> u ∈ map snd uniq \/ u ∈ map snd found).
Proof.
  induction found as [|[t u] found IH]; intros seen uniq Hseen Hnd; simpl.
  - split; [done|]. intros u. rewrite elem_of_nil. tauto.
  - case_bool_decide as Hin.
    + destruct (IH seen uniq Hseen Hnd) as [Hnd' Hmem]. split; [done|].
      intros v. rewrite Hmem, elem_of_cons. split; [tauto|].
      intros [?|[->|?]]; [tauto| |tauto]. left. by apply Hseen.
    + destruct (IH ({[u]} ∪ seen) (uniq ++ [(t, u)])) as [Hnd' Hmem].
      * intros v. rewrite map_app, elem_of_app, elem_of_union, elem_of_singleton.
        simpl. rewrite list_elem_of_singleton, Hseen. tauto.
      * rewrite map_app. simpl. apply NoDup_app. split; [done|].
        split; [|apply NoDup_singleton].
        intros v Hv ->%list_elem_of_singleton. by apply Hin, Hseen.
      * split; [done|]. intros v. rewrite Hmem, map_app, elem_of_app, elem_of_cons.
        simpl. rewrite list_elem_of_singleton. tauto.
Qed.

Lemma dedup_links_NoDup found :
  NoDup (map snd (dedup_links found))
  /\ forall u, u ∈ map snd (dedup_links found) <-> u ∈ map snd found.
Proof.
  destruct (dedup_fold found ∅ []) as [Hnd Hmem].
  - intros u. simpl. rewrite elem_of_nil. split; [|done]. apply not_elem_of_empty.
  - constructor.
  - split; [exact Hnd|]. intros u. unfold dedup_links. rewrite Hmem. simpl.
    rewrite elem_of_nil. tauto.
Qed.

Lemma category_loop_pages fuel pages_left :
  forall cur found saved seen handed st found' saved' handed' st',
    category_loop self fuel pages_left cur found saved seen handed st
    = Some (found', saved', handed', st') ->
    exists pages : list Soup,
      handed' = handed ++ flat_map (extract_story_links self) pages
      /\ length pages <= pages_left
      /\ found' = found + length (flat_map (extract_story_links self) pages).
Proof.
  induction pages_left as [|pages_left IH];
    intros cur found saved seen handed st found' saved' handed' st'.
  { intros [= <- <- <- <-]. exists []. simpl. rewrite app_nil_r. split_and!; [done|lia|lia]. }
  assert (exists pages : list Soup,
             handed = handed ++ flat_map (extract_story_links self) pages
             /\ length pages <= S pages_left
             /\ found = found + length (flat_map (extract_story_links self) pages))
    as Hstop.
  { exists []. simpl. rewrite app_nil_r. split_and!; [done|lia|lia]. }
  cbn [category_loop].
  destruct (negb _ || bool_decide _); [by intros [= <- <- <- <-]|].
  destruct (fetch _ st) as [[soup|] st1]; [|by intros [= <- <- <- <-]].
  destruct (extract_story_links self soup) as [|s stories] eqn:Es;
    [by intros [= <- <- <- <-]|].
  destruct (stories_loop self fuel (s :: stories) 1 (length (s :: stories)) saved _)
    as [[saved2 st2]|]; cbn [mbind option_bind]; [|done].
  intros (pages & -> & Hlen & ->)%IH. exists (soup :: pages). simpl.
  rewrite Es, <- app_assoc, length_app. simpl. split_and!; [done|lia|lia].
Qed.

(** *** A crawl of a finite site comes to an end *)

Section FiniteSite.
Variable U : gset string.
Hypothesis Hlinks : links_within U.
Hypothesis Hchapters : chapters_within self U.
Hypothesis Hstories : stories_within self U.
Variable fuel : nat.
Hypothesis Hfuel : size U < fuel.

Lemma seed_walk_fuel : size (U ∖ ∅) < fuel.
Proof. by rewrite difference_empty_L. Qed.

Lemma chapters_loop_terminates chs :
  forall cnum allc st,
    Forall (fun c : ChapterRef => c.1.2 ∈ U) chs ->
    is_Some (chapters_loop self fuel chs cnum allc st).
Proof.
  induction chs as [|[[ct curl] num] chs IH]; intros cnum allc st Hall; [done|].
  apply Forall_cons in Hall as [Hcurl Hall]. cbn [chapters_loop].
  destruct (chapter_walk_terminates self U Hlinks fuel [curl] ∅ 1 [] []
              (print ("  " +:+ ct) st) (queue_ok_seed U curl Hcurl) seed_walk_fuel)
    as [[[[pc part] log] st1] ->].
  cbn [mbind option_bind]. by apply IH.
Qed.

Lemma series_mode_terminates stitle series st :
  is_Some (series_mode self fuel stitle series st).
Proof.
  unfold series_mode.
  destruct (fetch series _) as [[soup|] st1] eqn:Ef; [|done].
  destruct (path_exists _ st1); [done|].
  destruct (fetch_ok series _ soup (f_equal fst Ef)) as [t Ht].
  destruct (chapter_links self soup _ ch_sels []) as [|c cs] eqn:Ec; [done|].
  destruct (chapters_loop_terminates (sort_chapters (c :: cs)) 1 [] st1)
    as [[allc st2] ->].
  - rewrite sort_chapters_perm, <- Ec. apply Forall_forall. intros c' Hc'.
    exact (Hchapters t series soup _ c' Ht Hc').
  - cbn [mbind option_bind]. destruct allc; [done|].
    destruct (create_pdf self _ _ _ st2) as [[|] st3]; done.
Qed.

Lemma single_mode_terminates stitle surl st :
  surl ∈ U -> is_Some (single_mode self fuel stitle surl st).
Proof.
  intros HU. unfold single_mode.
  destruct (fetch surl _) as [[soup|] st1] eqn:Ef; [|done].
  destruct (extract_story_content self soup surl st1) as [[[[t pp] chs] ser] st2] eqn:Ee.
  pose proof (extract_results self soup surl st1) as Hr. rewrite Ee in Hr.
  injection Hr as -> -> -> ->.
  destruct (path_exists _ st2); [done|].
  destruct (story_walk_terminates self U Hlinks fuel surl (extract_paras soup)
              (next_links soup surl) [surl] ∅ 1 [] [] st2)
    as [[[[allc part] log] st3] ->].
  - exact (fetched_links_within U Hlinks surl _ soup st1 Ef).
  - by apply queue_ok_seed.
  - apply seed_walk_fuel.
  - cbn [mbind option_bind]. destruct allc; [done|].
    destruct (create_pdf self _ _ _ st3) as [[|] st4]; done.
Qed.

Lemma scrape_story_terminates stitle surl full_series st :
  surl ∈ U -> is_Some (scrape_story self fuel stitle surl full_series st).
Proof.
  intros HU. unfold scrape_story.
  assert (exists ser st1,
             (if full_series
              then find_series_link_from_all_pages self fuel surl
                     (print ("Story: " +:+ stitle) st)
              else Some (None, print ("Story: " +:+ stitle) st)) = Some (ser, st1))
    as (ser & st1 & ->).
  { destruct full_series; [|by eexists _, _].
    destruct (series_walk_terminates self U Hlinks fuel [surl] ∅
                (print ("Story: " +:+ stitle) st) (queue_ok_seed U surl HU) seed_walk_fuel)
      as [[ser st1] Hw].
    by exists ser, st1. }
  cbn [mbind option_bind].
  destruct (full_series && truthy ser).
  - destruct (series_mode_terminates stitle (href_or_empty ser) st1) as [[[b|] st2] ->];
      cbn [mbind option_bind]; [done|by apply single_mode_terminates].
  - cbn [mbind option_bind]. by apply single_mode_terminates.
Qed.

Lemma stories_loop_terminates stories :
  forall i total saved st,
    Forall (fun l : StoryLink => l.2 ∈ U) stories ->
    is_Some (stories_loop self fuel stories i total saved st).
Proof.
  induction stories as [|[t surl] stories IH]; intros i total saved st Hall; [done|].
  apply Forall_cons in Hall as [Hsurl Hall]. cbn [stories_loop].
  destruct (scrape_story_terminates t surl true
              (print ("Story " +:+ Str.of_nat i +:+ "/" +:+ Str.of_nat total) st) Hsurl)
    as [[ok st1] ->].
  cbn [mbind option_bind]. by apply IH.
Qed.

Lemma category_loop_terminates pages_left :
  forall cur found saved seen handed st,
    is_Some (category_loop self fuel pages_left cur found saved seen handed st).
Proof.
  induction pages_left as [|pages_left IH]; intros cur found saved seen handed st; [done|].
  cbn [category_loop].
  destruct (negb _ || bool_decide _); [done|].
  destruct (fetch _ st) as [[soup|] st1] eqn:Ef; [|done].
  destruct (fetch_ok _ _ soup (f_equal fst Ef)) as [t Ht].
  destruct (extract_story_links self soup) as [|s stories] eqn:Es; [done|].
  destruct (stories_loop_terminates (s :: stories) 1 (length (s :: stories)) saved
              (print (Str.of_nat (length (s :: stories)) +:+ " stories on page "
                      +:+ Str.of_nat cur) st1))
    as [[saved2 st2] ->].
  - rewrite <- Es. apply Forall_forall. intros l Hl. exact (Hstories t _ soup l Ht Hl).
  - cbn [mbind option_bind]. apply IH.
Qed.

Lemma scrape_category_terminates max_pages st :
  is_Some (scrape_category self fuel max_pages st).
Proof.
  unfold scrape_category.
  destruct (category_loop_terminates max_pages 1 0 0 ∅ []
              (print ("Category: " +:+ base_url self) st))
    as [[[[found saved] handed] st1] ->].
  done.
Qed.

End FiniteSite.

Lemma category_loop_listing fuel pages_left :
  forall cur found saved seen handed st found' saved' handed' st',
    category_loop self fuel pages_left cur found saved seen handed st
    = Some (found', saved', handed', st') ->
    exists pages : list Soup,
      handed' = handed ++ flat_map (extract_story_links self) pages
      /\ length pages <= pages_left
      /\ (forall i soup, pages !! i = Some soup ->
            extract_story_links self soup <> []
            /\ exists t, net t (listing_url self (cur + i)) = Ok soup)
      /\ crawl_stops self seen cur pages_left (length pages).
Proof.
  induction pages_left as [|pages_left IH];
    intros cur found saved seen handed st found' saved' handed' st'.
  { intros [= <- <- <- <-]. exists []. simpl. rewrite app_nil_r.
    split_and!; [done|lia|done|by left]. }
  assert (crawl_stops self seen cur (S pages_left) 0 ->
          exists pages : list Soup,
             handed = handed ++ flat_map (extract_story_links self) pages
             /\ length pages <= S pages_left
             /\ (forall i soup, pages !! i = Some soup ->
                   extract_story_links self soup <> []
                   /\ exists t, net t (listing_url self (cur + i)) = Ok soup)
             /\ crawl_stops self seen cur (S pages_left) (length pages))
    as Hstop.
  { intros Hwhy. exists []. simpl. rewrite app_nil_r. split_and!; [done|lia|done|done]. }
  cbn [category_loop]. fold (listing_url self cur).
  destruct (negb (Str.nonempty (listing_url self cur))
            || bool_decide (listing_url self cur ∈ seen)) eqn:Hbreak.
  { intros [= <- <- <- <-]. apply Hstop. unfold crawl_stops. rewrite Nat.add_0_r.
    apply orb_true_iff in Hbreak as [Hempty|Hseen%bool_decide_eq_true].
    - right. left. by destruct (listing_url self cur).
    - right. right. by left. }
  apply orb_false_iff in Hbreak as [_ Hnew%bool_decide_eq_false].
  destruct (fetch (listing_url self cur) st) as [[soup|] st1] eqn:Ef.
  2: { intros [= <- <- <- <-]. apply Hstop. unfold crawl_stops. rewrite Nat.add_0_r.
       do 4 right. left. exists st. by rewrite Ef. }
  destruct (extract_story_links self soup) as [|s stories] eqn:Es.
  { intros [= <- <- <- <-]. apply Hstop. unfold crawl_stops. rewrite Nat.add_0_r.
    do 5 right. exists st, soup. by rewrite Ef. }
  destruct (stories_loop self fuel (s :: stories) 1 (length (s :: stories)) saved _)
    as [[saved2 st2]|]; cbn [mbind option_bind]; [|done].
  intros (pages & -> & Hlen & Hserved & Hwhy)%IH. exists (soup :: pages). split_and!.
  - cbn [flat_map]. rewrite Es, <- app_assoc. done.
  - simpl. lia.
  - intros [|i] soup'; cbn [lookup list_lookup].
    + intros [= <-]. rewrite Nat.add_0_r. split; [by rewrite Es|].
      apply (fetch_ok (listing_url self cur) st). by rewrite Ef.
    + intros Hi. replace (cur + S i) with (S cur + i) by lia. by apply Hserved.
  - unfold crawl_stops in *. cbn [length].
    replace (cur + S (length pages)) with (S cur + length pages) by lia.
    destruct Hwhy as [Hall|[Hempty|[Hseen|[(j & Hj & Hsame)|[Hfail|Hnone]]]]].
    + left. lia.
    + right. by left.
    + apply elem_of_union in Hseen as [Hfirst%elem_of_singleton|Hseen].
      * do 3 right. left. exists 0. split; [lia|]. by rewrite Nat.add_0_r.
      * right. right. by left.
    + do 3 right. left. exists (S j). split; [lia|].
      by replace (cur + S j) with (S cur + j) by lia.
    + do 4 right. by left.
    + do 5 right. done.
Qed.

(** C7, as the script has it: the story links taken from one listing
    page carry pairwise distinct urls, the urls found on the page; the
    links a crawl hands on are those of the listing pages it fetched,
    page after page in the order of the crawl, and nothing is removed
    across pages.  The pages are those the site served at the listing
    urls of the crawl, the first at the base url, and each has a story
    link on it; they are all the crawl was to visit: it stopped after
    them because it had used up [max_pages], or because the next
    listing had an empty or repeated url, could not be fetched or had
    no story link.  On a site whose links all lie in a finite set, and
    whose targets urljoin accepts, the crawl comes to an end. *)
Theorem story_links_unique_per_page (fuel max_pages : nat) (st : State) :
  (forall soup, NoDup (map snd (extract_story_links self soup)))
  /\ (forall soup u, u ∈ map snd (extract_story_links self soup)
        <-> u ∈ map snd (first_listing self soup story_link_sels))
  /\ (forall found saved handed st',
        scrape_category self fuel max_pages st = Some (found, saved, handed, st') ->
        exists pages : list Soup,
          handed = flat_map (extract_story_links self) pages
          /\ length pages <= max_pages
          /\ found = length handed
          /\ (forall i soup, pages !! i = Some soup ->
                extract_story_links self soup <> []
                /\ exists t, net t (listing_url self (S i)) = Ok soup)
          /\ crawl_stops self ∅ 1 max_pages (length pages))
  /\ (forall U : gset string,
        links_within U -> chapters_within self U -> stories_within self U ->
        size U < fuel ->
        is_Some (scrape_category self fuel max_pages st)).
Proof.
  split_and!.
  - intros soup. apply dedup_links_NoDup.
  - intros soup u. apply dedup_links_NoDup.
  - intros found saved handed st'. unfold scrape_category.
    destruct (category_loop self fuel max_pages 1 0 0 ∅ [] _)
      as [[[[found1 saved1] handed1] st1]|] eqn:Hloop; cbn [mbind option_bind]; [|done].
    intros [= <- <- <- <-].
    destruct (category_loop_listing _ _ _ _ _ _ _ _ _ _ _ _ Hloop)
      as (pages & Hhanded & Hlen & Hserved & Hwhy).
    destruct (category_loop_pages _ _ _ _ _ _ _ _ _ _ _ _ Hloop)
      as (pages' & Hhanded' & _ & ->).
    exists pages. cbn [app] in Hhanded, Hhanded'. rewrite <- Hhanded', Hhanded.
    split_and!; [done|done|done| |done]. intros i soup Hi. by apply Hserved.
  - intros U Hlinks Hchapters Hstories Hfuel.
    by apply (scrape_category_terminates U).
Qed.

End CategoryFacts.

Lemma category_site_within :
  @links_within (Demo.world Demo.category_site) {[Demo.story_url]}
  /\ @chapters_within (Demo.world Demo.category_site) Demo.self {[Demo.story_url]}
  /\ @stories_within (Demo.world Demo.category_site) Demo.self {[Demo.story_url]}.
Proof.
  split_and!.
  - intros t u soup n. cbn [net Demo.world]. unfold Demo.category_site.
    repeat match goal with
           | |- context [String.eqb u ?a] => destruct (String.eqb_spec u a) as [->|_]
           end; try done; intros [= <-]; vm_compute next_links; by rewrite elem_of_nil.
  - intros t u soup title c. cbn [net Demo.world]. unfold Demo.category_site.
    repeat match goal with
           | |- context [String.eqb u ?a] => destruct (String.eqb_spec u a) as [->|_]
           end; try done; intros [= <-]; vm_compute chapter_links; by rewrite elem_of_nil.
  - intros t u soup l. cbn [net Demo.world]. unfold Demo.category_site.
    repeat match goal with
           | |- context [String.eqb u ?a] => destruct (String.eqb_spec u a) as [->|_]
           end; try done; intros [= <-]; vm_compute extract_story_links;
      rewrite ?elem_of_nil, ?list_elem_of_singleton; try done;
      intros ->; by apply elem_of_singleton.
Qed.

(** the links handed on by a crawl of [Demo.category_site] *)
Lemma story_links_unique_per_page_witness :
  (exists pages : list Soup,
      [("My Story", Demo.story_url); ("My Story", Demo.story_url)]
      = flat_map (@extract_story_links (Demo.world Demo.category_site) Demo.self) pages
      /\ length pages <= 2
      /\ 2 = length [("My Story", Demo.story_url); ("My Story", Demo.story_url)]
      /\ (forall i soup, pages !! i = Some soup ->
            @extract_story_links (Demo.world Demo.category_site) Demo.self soup <> []
            /\ exists t, @net (Demo.world Demo.category_site) t
                           (@listing_url (Demo.world Demo.category_site) Demo.self (S i))
                         = Ok soup)
      /\ @crawl_stops (Demo.world Demo.category_site) Demo.self ∅ 1 2 (length pages))
  /\ is_Some (@scrape_category (Demo.world Demo.category_site) Demo.self 10 2 Demo.st0).
Proof.
  destruct (@story_links_unique_per_page (Demo.world Demo.category_site) Demo.self
              10 2 Demo.st0) as (_ & _ & Hcrawl & Hend).
  split.
  - apply (Hcrawl 2 2 [("My Story", Demo.story_url); ("My Story", Demo.story_url)]
             (Demo.final_state
                (@scrape_category (Demo.world Demo.category_site) Demo.self 10 2 Demo.st0))).
    vm_compute. reflexivity.
  - apply (Hend {[Demo.story_url]}); try apply category_site_within.
    vm_compute. lia.
Defined.

(** C7, as the specification words it, fails: the first two listing
    pages of [Demo.category_site] link to the same story, and the crawl
    hands that url to scrape_story twice. *)
Lemma same_story_on_two_pages_counterexample :
  exists st',
    @scrape_category (Demo.world Demo.category_site) Demo.self 10 2 Demo.st0
    = Some (2, 2, [("My Story", Demo.story_url); ("My Story", Demo.story_url)], st')
    /\ ~ NoDup (map snd [("My Story", Demo.story_url); ("My Story", Demo.story_url)]).
Proof.
  eexists. split; [vm_compute; reflexivity|].
  simpl. intros [Hnotin _]%NoDup_cons. apply Hnotin, list_elem_of_here.
Qed.

(** * Properties beyond the claims *)

(** ** More on the fetcher *)

Section FetcherMore.
Context `{Externals}.

Lemma retry_loop_success url max_retries (err : nat -> string) page n :
  forall a len st,
    n < len -> (Z.of_nat (a + n) <= max_retries)%Z ->
    (forall j, j < n -> net (clock st + j) url = Fail (err (a + j))) ->
    net (clock st + n) url = Ok page ->
    retry_loop url max_retries (map Z.of_nat (seq a len)) st
    = (Some page,
       {| clock := clock st + S n;
          events := events st
                    ++ flat_map (failed_attempt url max_retries err) (seq a n)
                    ++ good_attempt url (a + n);
          files := files st |}).
Proof.
  induction n as [|n IH]; intros a len st Hlen Hmr Hfail Hok.
  - destruct len as [|len]; [lia|]. cbn [seq map retry_loop].
    destruct (delay_bounds (Z.of_nat a)) as [lo hi] eqn:Hd. unfold session_get.
    cbn [clock emit]. rewrite Nat.add_0_r in Hok. rewrite Hok.
    unfold good_attempt. rewrite Nat.add_0_r, Hd. cbn [fst snd flat_map app events emit].
    rewrite <- app_assoc. do 2 f_equal. lia.
  - destruct len as [|len]; [lia|]. cbn [seq map retry_loop].
    destruct (delay_bounds (Z.of_nat a)) as [lo hi] eqn:Hd. unfold session_get.
    cbn [clock emit]. pose proof (Hfail 0 ltac:(lia)) as H0.
    rewrite !Nat.add_0_r in H0. rewrite H0.
    replace (Z.of_nat a =? max_retries)%Z with false by (symmetry; apply Z.eqb_neq; lia).
    rewrite (IH (S a) len).
    + cbn [flat_map]. unfold failed_attempt at 2. rewrite Hd.
      replace (Z.of_nat a =? max_retries)%Z with false by (symmetry; apply Z.eqb_neq; lia).
      cbn [fst snd clock events files print emit].
      replace (S a + n) with (a + S n) by lia.
      rewrite <- !app_assoc. cbn [app]. do 2 f_equal. lia.
    + lia.
    + lia.
    + intros j Hj. cbn [clock print emit].
      replace (S (clock st) + j) with (clock st + S j) by lia.
      rewrite (Hfail (S j) ltac:(lia)). do 2 f_equal. lia.
    + cbn [clock print emit]. replace (S (clock st) + n) with (clock st + S n) by lia. done.
Qed.

(** X1: when the first [k] attempts fail and attempt [k] is answered,
    with [k] within the retries allowed, the fetcher returns that page
    after [k + 1] requests; the trace shows a warning for each failed
    attempt and no error line. *)
Theorem retry_succeeds_at (url : string) (max_retries : Z) (k : nat)
    (err : nat -> string) (page : Soup) (st : State) :
  is_blocked url = false -> (Z.of_nat k <= max_retries)%Z ->
  (forall j, j < k -> net (clock st + j) url = Fail (err j)) ->
  net (clock st + k) url = Ok page ->
  make_request_with_retry url max_retries st
  = (Some page,
     {| clock := clock st + S k;
        events := events st ++ [EvFetch url]
                  ++ flat_map (failed_attempt url max_retries err) (seq 0 k)
                  ++ good_attempt url k;
        files := files st |})
  /\ forall j, j < k ->
       failed_attempt url max_retries err j
       = good_attempt url j
         ++ [EvPrint ("[WARNING] " +:+ url +:+ " attempt "
                      +:+ Str.of_Z (Z.of_nat j + 1) +:+ ": " +:+ err j)].
Proof.
  intros Hb Hk Hfail Hok. split.
  - unfold make_request_with_retry, range. rewrite Hb.
    rewrite (retry_loop_success url max_retries err page k 0); cbn [clock events files emit].
    + by rewrite <- app_assoc.
    + lia.
    + lia.
    + exact Hfail.
    + exact Hok.
  - intros j Hj. unfold failed_attempt, good_attempt.
    replace (Z.of_nat j =? max_retries)%Z with false by (symmetry; apply Z.eqb_neq; lia).
    reflexivity.
Qed.

Lemma contains_empty_blocked k : k ∈ blocked -> Str.contains k "" = false.
Proof.
  unfold blocked. rewrite !elem_of_cons, elem_of_nil.
  intros [->|[->|[->|[->|[]]]]]; reflexivity.
Qed.

Lemma host_of_lower url h : hostname url = Some h -> host_of url = Str.lower h.
Proof. intros Hh. unfold host_of. rewrite Hh. by destruct h. Qed.

(** X2: a url is blocked exactly when its host, put in lower case,
    contains one of the four blocklist words; a url without a host is
    never blocked and goes to the network. *)
Theorem blocked_iff_host_contains (url : string) :
  (is_blocked url = true
   <-> exists h k, hostname url = Some h /\ k ∈ blocked
                   /\ Str.contains k (Str.lower h) = true)
  /\ (hostname url = None -> is_blocked url = false).
Proof.
  split.
  - unfold is_blocked. rewrite existsb_exists. split.
    + intros (k & Hk%list_elem_of_In & Hc).
      destruct (hostname url) as [h|] eqn:Hh.
      * exists h, k. by rewrite <- (host_of_lower url h Hh).
      * unfold host_of in Hc. rewrite Hh in Hc.
        by rewrite (contains_empty_blocked k Hk) in Hc.
    + intros (h & k & Hh & Hk & Hc). exists k.
      split; [by apply list_elem_of_In|]. by rewrite (host_of_lower url h Hh).
  - intros Hh. unfold is_blocked, host_of. rewrite Hh.
    destruct (existsb _ blocked) eqn:E; [|done].
    apply existsb_exists in E as (k & Hk%list_elem_of_In & Hc).
    by rewrite (contains_empty_blocked k Hk) in Hc.
Qed.

(** X3: with a negative number of retries the loop body never runs:
    the fetcher answers [None] for every url without a sleep, a request
    or a printed line. *)
Theorem negative_retries_fetch_nothing (url : string) (max_retries : Z) (st : State) :
  (max_retries < 0)%Z ->
  make_request_with_retry url max_retries st = (None, emit (EvFetch url) st).
Proof.
  intros Hneg. unfold make_request_with_retry, range.
  replace (Z.to_nat (max_retries + 1)) with 0 by lia.
  by destruct (is_blocked url).
Qed.

End FetcherMore.

(** a site that answers at the third request *)
Lemma retry_succeeds_at_witness :
  @make_request_with_retry (Site.world_at Site.flaky) Demo.story_url 3 Demo.st0
  = (Some Demo.short_page,
     {| clock := 3;
        events := [EvFetch Demo.story_url]
                  ++ flat_map (failed_attempt Demo.story_url 3 (fun _ => "Read timed out"))
                              (seq 0 2)
                  ++ good_attempt Demo.story_url 2;
        files := ∅ |}).
Proof.
  apply (@retry_succeeds_at (Site.world_at Site.flaky) Demo.story_url 3 2
           (fun _ => "Read timed out") Demo.short_page Demo.st0).
  - reflexivity.
  - lia.
  - intros [|[|j]] Hj; [reflexivity|reflexivity|lia].
  - reflexivity.
Defined.

(** the default call with minus one for the retries *)
Lemma negative_retries_fetch_nothing_witness :
  @make_request_with_retry (Demo.world Demo.category_site) Demo.story_url (-1) Demo.st0
  = (None, emit (EvFetch Demo.story_url) Demo.st0).
Proof.
  apply (@negative_retries_fetch_nothing (Demo.world Demo.category_site)).
  lia.
Defined.

(** ** What every step of a crawl keeps

    A property of the state that the three effectful primitives keep (a
    fetch, a printed line, a PDF written under a sanitized name) is kept
    by every loop and every method built from them. *)

Section Preservation.
Context `{Externals}.
Variable self : StoryScraperFramework.
Variable Inv : State -> Prop.
Hypothesis Inv_fetch : forall u st, Inv st -> Inv (fetch u st).2.
Hypothesis Inv_print : forall line st, Inv st -> Inv (print line st).
Hypothesis Inv_pdf :
  forall title paras name st,
    Inv st -> Inv (create_pdf self title paras (sanitize_filename name) st).2.

Lemma extract_keeps soup u st :
  Inv st -> Inv (extract_story_content self soup u st).2.
Proof.
  intros HI. unfold extract_story_content. cbn [snd].
  destruct (Str.nonempty _); auto.
Qed.

Lemma series_walk_keeps fuel :
  forall todo seen st r st',
    Inv st -> series_walk self fuel todo seen st = Some (r, st') -> Inv st'.
Proof.
  induction fuel as [|fuel IH]; intros todo seen st r st' HI; [done|].
  cbn [series_walk]. destruct todo as [|cu todo]; [by intros [= <- <-]|].
  case_bool_decide; [by apply IH|].
  pose proof (Inv_fetch cu st HI) as HI1.
  destruct (fetch cu st) as [[ps|] st1]; cbn [snd] in HI1; [|by apply IH].
  pose proof (extract_keeps ps cu st1 HI1) as HI2.
  destruct (extract_story_content self ps cu st1) as [[[[t pp] nexts] ser] st2].
  cbn [snd] in HI2. destruct (truthy ser); [by intros [= <- <-]|by apply IH].
Qed.

Lemma chapter_walk_keeps fuel :
  forall pages seen part pc log st r st',
    Inv st -> chapter_walk self fuel pages seen part pc log st = Some (r, st') -> Inv st'.
Proof.
  induction fuel as [|fuel IH]; intros pages seen part pc log st r st' HI; [done|].
  cbn [chapter_walk]. destruct pages as [|cu pages]; [by intros [= <- <-]|].
  case_bool_decide; [by apply IH|].
  pose proof (Inv_fetch cu st HI) as HI1.
  destruct (fetch cu st) as [[ps|] st1]; cbn [snd] in HI1; [|by apply IH].
  pose proof (extract_keeps ps cu st1 HI1) as HI2.
  destruct (extract_story_content self ps cu st1) as [[[[t pp] nexts] ser] st2].
  cbn [snd] in HI2. destruct pp; apply IH; auto.
Qed.

Lemma story_walk_keeps fuel :
  forall surl pp chs todo seen part allc log st r st',
    Inv st ->
    story_walk self fuel surl pp chs todo seen part allc log st = Some (r, st') ->
    Inv st'.
Proof.
  induction fuel as [|fuel IH];
    intros surl pp chs todo seen part allc log st r st' HI; [done|].
  cbn [story_walk]. destruct todo as [|cu todo]; [by intros [= <- <-]|].
  case_bool_decide; [by apply IH|].
  destruct (String.eqb cu surl).
  - unfold visit_page. destruct pp; apply IH; auto.
  - pose proof (Inv_fetch cu st HI) as HI1.
    destruct (fetch cu st) as [[ps|] st1]; cbn [snd] in HI1; [|by apply IH].
    pose proof (extract_keeps ps cu st1 HI1) as HI2.
    destruct (extract_story_content self ps cu st1) as [[[[t paras] nexts] ser] st2].
    cbn [snd] in HI2. unfold visit_page. destruct paras; apply IH; auto.
Qed.

Lemma chapters_loop_keeps fuel chs :
  forall cnum allc st allc' st',
    Inv st -> chapters_loop self fuel chs cnum allc st = Some (allc', st') -> Inv st'.
Proof.
  induction chs as [|[[ct curl] num] chs IH]; intros cnum allc st allc' st' HI;
    [by intros [= <- <-]|].
  cbn [chapters_loop].
  destruct (chapter_walk self fuel [curl] ∅ 1 [] [] (print ("  " +:+ ct) st))
    as [[[[pc part] log] st1]|] eqn:Hw; cbn [mbind option_bind]; [|done].
  apply IH. by apply (chapter_walk_keeps fuel _ _ _ _ _ _ _ _ (Inv_print _ st HI) Hw).
Qed.

Lemma series_mode_keeps fuel stitle series st r st' :
  Inv st -> series_mode self fuel stitle series st = Some (r, st') -> Inv st'.
Proof.
  intros HI. unfold series_mode.
  pose proof (Inv_fetch series _ (Inv_print
                ("series found, scraping series for " +:+ stitle) st HI)) as HI1.
  destruct (fetch series _) as [[soup|] st1]; cbn [snd] in HI1; [|by intros [= <- <-]].
  set (st_title := match select_one soup "h1" with
                   | Some st_el => get_text_strip st_el
                   | None => stitle
                   end).
  destruct (path_exists _ st1); [intros [= <- <-]; by apply Inv_print|].
  destruct (chapter_links self soup _ ch_sels []) as [|c cs]; [by intros [= <- <-]|].
  destruct (chapters_loop self fuel _ 1 [] st1) as [[allc st2]|] eqn:Hl;
    cbn [mbind option_bind]; [|done].
  pose proof (chapters_loop_keeps fuel _ _ _ _ _ _ HI1 Hl) as HI2.
  destruct allc as [|a allc]; [by intros [= <- <-]|].
  pose proof (Inv_pdf st_title (a :: allc) st_title st2 HI2) as HI3.
  destruct (create_pdf self st_title (a :: allc) _ st2) as [[|] st3]; cbn [snd] in HI3;
    intros [= <- <-]; auto.
Qed.

Lemma single_mode_keeps fuel stitle surl st b st' :
  Inv st -> single_mode self fuel stitle surl st = Some (b, st') -> Inv st'.
Proof.
  intros HI. unfold single_mode.
  pose proof (Inv_fetch surl _ (Inv_print ("  single story mode for " +:+ stitle) st HI))
    as HI1.
  destruct (fetch surl _) as [[soup|] st1]; cbn [snd] in HI1; [|by intros [= <- <-]].
  pose proof (extract_keeps soup surl st1 HI1) as HI2.
  destruct (extract_story_content self soup surl st1) as [[[[t pp] chs] ser] st2].
  cbn [snd] in HI2.
  destruct (path_exists _ st2); [intros [= <- <-]; by apply Inv_print|].
  destruct (story_walk self fuel surl pp chs [surl] ∅ 1 [] [] st2)
    as [[[[allc part] log] st3]|] eqn:Hw; cbn [mbind option_bind]; [|done].
  pose proof (story_walk_keeps fuel _ _ _ _ _ _ _ _ _ _ _ HI2 Hw) as HI3.
  destruct allc as [|a allc]; [intros [= <- <-]; by apply Inv_print|].
  pose proof (Inv_pdf (if Str.nonempty t then t else stitle) (a :: allc)
                (if Str.nonempty t then t else stitle) st3 HI3) as HI4.
  destruct (create_pdf self _ (a :: allc) _ st3) as [[|] st4]; cbn [snd] in HI4;
    intros [= <- <-]; by apply Inv_print.
Qed.

Lemma scrape_story_keeps fuel stitle surl full_series st b st' :
  Inv st -> scrape_story self fuel stitle surl full_series st = Some (b, st') -> Inv st'.
Proof.
  intros HI. unfold scrape_story.
  pose proof (Inv_print ("Story: " +:+ stitle) st HI) as HI0.
  destruct (if full_series
            then find_series_link_from_all_pages self fuel surl
                   (print ("Story: " +:+ stitle) st)
            else Some (None, print ("Story: " +:+ stitle) st))
    as [[ser st1]|] eqn:Hd; cbn [mbind option_bind]; [|done].
  assert (Inv st1) as HI1.
  { destruct full_series; [|by injection Hd as <- <-].
    by apply (series_walk_keeps fuel _ _ _ _ _ HI0 Hd). }
  destruct (if full_series && truthy ser
            then series_mode self fuel stitle (href_or_empty ser) st1
            else Some (None, st1)) as [[ret st2]|] eqn:Hs; cbn [mbind option_bind]; [|done].
  assert (Inv st2) as HI2.
  { destruct (full_series && truthy ser); [|by injection Hs as <- <-].
    by apply (series_mode_keeps fuel _ _ _ _ _ HI1 Hs). }
  destruct ret as [b'|]; [by intros [= <- <-]|]. by apply single_mode_keeps.
Qed.

Lemma stories_loop_keeps fuel stories :
  forall i total saved st saved' st',
    Inv st -> stories_loop self fuel stories i total saved st = Some (saved', st') ->
    Inv st'.
Proof.
  induction stories as [|[t surl] stories IH]; intros i total saved st saved' st' HI;
    [by intros [= <- <-]|].
  cbn [stories_loop].
  destruct (scrape_story self fuel t surl true _) as [[ok st1]|] eqn:Hs;
    cbn [mbind option_bind]; [|done].
  apply IH. by apply (scrape_story_keeps fuel _ _ _ _ _ _ (Inv_print _ st HI) Hs).
Qed.

Lemma category_loop_keeps fuel pages_left :
  forall cur found saved seen handed st r st',
    Inv st ->
    category_loop self fuel pages_left cur found saved seen handed st = Some (r, st') ->
    Inv st'.
Proof.
  induction pages_left as [|pages_left IH];
    intros cur found saved seen handed st r st' HI; [by intros [= <- <-]|].
  cbn [category_loop].
  destruct (negb _ || bool_decide _); [by intros [= <- <-]|].
  pose proof (Inv_fetch (if cur =? 1 then base_url self
                         else get_next_page_url self None cur) st HI) as HI1.
  destruct (fetch _ st) as [[soup|] st1]; cbn [snd] in HI1; [|by intros [= <- <-]].
  destruct (extract_story_links self soup) as [|s stories]; [by intros [= <- <-]|].
  destruct (stories_loop self fuel (s :: stories) 1 _ saved _) as [[saved2 st2]|] eqn:Hl;
    cbn [mbind option_bind]; [|done].
  apply IH. by apply (stories_loop_keeps fuel _ _ _ _ _ _ _ (Inv_print _ st1 HI1) Hl).
Qed.

Lemma scrape_category_keeps fuel max_pages st r st' :
  Inv st -> scrape_category self fuel max_pages st = Some (r, st') -> Inv st'.
Proof.
  intros HI. unfold scrape_category.
  destruct (category_loop self fuel max_pages 1 0 0 ∅ [] _)
    as [[[[found saved] handed] st1]|] eqn:Hl; cbn [mbind option_bind]; [|done].
  intros [= <- <-]. apply Inv_print.
  by apply (category_loop_keeps fuel _ _ _ _ _ _ _ _ _ (Inv_print _ st HI) Hl).
Qed.

Lemma scrape_single_story_keeps fuel st b st' :
  Inv st -> scrape_single_story self fuel st = Some (b, st') -> Inv st'.
Proof.
  intros HI. unfold scrape_single_story.
  apply scrape_story_keeps. by apply Inv_print.
Qed.

End Preservation.

(** ** Politeness: no request without a pause *)

Lemma delay_bounds_ok a :
  (0 <= a)%Z -> (1 <= (delay_bounds a).1 <= (delay_bounds a).2)%Z.
Proof.
  intros Ha. unfold delay_bounds. destruct (Z.eqb_spec a 0) as [->|Hne]; cbn [fst snd].
  - lia.
  - split.
    + change 1%Z with (2 ^ 0)%Z. apply Z.pow_le_mono_r; lia.
    + apply Z.pow_le_mono_r; lia.
Qed.

Lemma snoc_split {A} (l : list A) (e : A) (l1 : list A) (x : A) (l2 : list A) :
  l ++ [e] = l1 ++ x :: l2 ->
  (l2 = [] /\ l = l1 /\ e = x) \/ (exists l2', l2 = l2' ++ [e] /\ l = l1 ++ x :: l2').
Proof.
  destruct l2 as [|y l2 _] using rev_ind; intros Heq.
  - left. apply app_inj_tail in Heq as [-> ->]. done.
  - right. rewrite app_comm_cons, app_assoc in Heq.
    apply app_inj_tail in Heq as [-> ->]. by exists l2.
Qed.

Lemma polite_inv l :
  polite l ->
  forall l1 u l2, l = l1 ++ EvGet u :: l2 ->
    exists l0 lo hi, l1 = l0 ++ [EvSleep lo hi] /\ (1 <= lo <= hi)%Z.
Proof.
  induction 1 as [|l e Hp IH He|l lo hi v Hp IH Hb]; intros l1 u l2 Heq.
  - by destruct l1.
  - apply snoc_split in Heq as [(_ & _ & ->)|(l2' & _ & ->)]; [done|].
    by apply (IH l1 u l2').
  - change (l ++ [EvSleep lo hi; EvGet v]) with (l ++ [EvSleep lo hi] ++ [EvGet v]) in Heq.
    rewrite app_assoc in Heq.
    apply snoc_split in Heq as [(_ & <- & _)|(l2' & _ & Heq)]; [by exists l, lo, hi|].
    apply snoc_split in Heq as [(_ & _ & [=])|(l2'' & _ & ->)].
    by apply (IH l1 u l2'').
Qed.

Section Politeness.
Context `{Externals}.
Variable self : StoryScraperFramework.

Lemma retry_loop_polite url max_retries attempts :
  forall st,
    Forall (fun a => (0 <= a)%Z) attempts -> polite (events st) ->
    polite (events (retry_loop url max_retries attempts st).2).
Proof.
  induction attempts as [|a rest IH]; intros st Hall Hp; [done|].
  apply Forall_cons in Hall as [Ha Hall]. cbn [retry_loop].
  pose proof (delay_bounds_ok a Ha) as Hb.
  destruct (delay_bounds a) as [lo hi]. cbn [fst snd] in Hb. unfold session_get.
  assert (polite (events (emit (EvSleep lo hi) st) ++ [EvGet url])) as Hp2.
  { cbn [events emit]. rewrite <- app_assoc. by apply polite_get. }
  destruct (net _ url) as [r|e]; [done|].
  destruct (a =? max_retries)%Z; cbn [snd].
  - by apply polite_other.
  - apply IH; [done|]. by apply polite_other.
Qed.

Lemma range_nonneg n : Forall (fun a => (0 <= a)%Z) (range n).
Proof.
  unfold range. apply Forall_forall. intros a Ha%list_elem_of_In.
  apply in_map_iff in Ha as (k & <- & _). lia.
Qed.

Lemma make_request_polite url max_retries st :
  polite (events st) -> polite (events (make_request_with_retry url max_retries st).2).
Proof.
  intros Hp. unfold make_request_with_retry.
  assert (polite (events (emit (EvFetch url) st))) as Hp1 by by apply polite_other.
  destruct (is_blocked url); [done|].
  apply retry_loop_polite; [apply range_nonneg|done].
Qed.

Lemma create_pdf_polite title paras filename st :
  polite (events st) -> polite (events (create_pdf self title paras filename st).2).
Proof.
  intros Hp. unfold create_pdf. destruct (build _ _); by apply polite_other.
Qed.

(** X4: a trace that is polite stays polite through any call of the
    fetcher and through a whole story, a whole category crawl: each
    call of [session.get] in it comes right after a sleep drawn from an
    interval [lo, hi] with [1 <= lo <= hi], so the script never calls
    [session.get] twice without a pause of a second or more in between.
    This is about the calls the script makes: the requests the library
    sends inside one call, when it follows a redirect, come without a
    pause and are not in the trace. *)
Theorem every_session_get_follows_a_sleep (fuel : nat) (st : State) :
  polite (events st) ->
  (forall url max_retries,
      polite (events (make_request_with_retry url max_retries st).2))
  /\ (forall stitle surl full_series b st',
        scrape_story self fuel stitle surl full_series st = Some (b, st') ->
        polite (events st'))
  /\ (forall max_pages r st',
        scrape_category self fuel max_pages st = Some (r, st') -> polite (events st'))
  /\ (forall b st',
        scrape_single_story self fuel st = Some (b, st') -> polite (events st'))
  /\ (forall l, polite l ->
        forall l1 u l2, l = l1 ++ EvGet u :: l2 ->
          exists l0 lo hi, l1 = l0 ++ [EvSleep lo hi] /\ (1 <= lo <= hi)%Z).
Proof.
  intros Hp.
  assert (forall u st0, polite (events st0) -> polite (events (fetch u st0).2)) as Hfetch
    by (intros u st0; apply make_request_polite).
  assert (forall line st0, polite (events st0) -> polite (events (print line st0)))
    as Hprint by (intros line st0 Hp0; by apply polite_other).
  assert (forall title paras name st0,
             polite (events st0) ->
             polite (events (create_pdf self title paras (sanitize_filename name) st0).2))
    as Hpdf by (intros title paras name st0; apply create_pdf_polite).
  split_and!.
  - intros url max_retries. by apply make_request_polite.
  - intros stitle surl full_series b st'.
    by apply (scrape_story_keeps self (fun s => polite (events s)) Hfetch Hprint Hpdf).
  - intros max_pages r st'.
    by apply (scrape_category_keeps self (fun s => polite (events s)) Hfetch Hprint Hpdf).
  - intros b st'.
    by apply (scrape_single_story_keeps self (fun s => polite (events s))
                Hfetch Hprint Hpdf).
  - apply polite_inv.
Qed.

End Politeness.

(** ** Which requests a crawl can make *)

Section Requests.
Context `{Externals}.
Variable self : StoryScraperFramework.

Lemma make_request_gets url max_retries st :
  exists n,
    n <= Z.to_nat (max_retries + 1)
    /\ gets (events (make_request_with_retry url max_retries st).2)
       = gets (events st) ++ replicate n url
    /\ (is_blocked url = true -> n = 0)
    /\ fetches (events (make_request_with_retry url max_retries st).2)
       = fetches (events st) ++ [url].
Proof.
  unfold make_request_with_retry. destruct (is_blocked url).
  - exists 0. cbn [snd events emit]. rewrite gets_app, fetches_app. simpl.
    rewrite !app_nil_r. split_and!; [lia|done|done|done].
  - destruct (retry_loop_gets url max_retries (range (max_retries + 1))
                (emit (EvFetch url) st)) as (n & Hn & Hg & _).
    destruct (retry_loop_fetches url max_retries (range (max_retries + 1))
                (emit (EvFetch url) st)) as [Hf _].
    exists n. rewrite Hg, Hf. cbn [events emit]. rewrite gets_app, fetches_app. simpl.
    rewrite app_nil_r. unfold range in Hn. rewrite length_map, length_seq in Hn.
    split_and!; [done|done|done|done].
Qed.

Lemma print_gets line st : gets (events (print line st)) = gets (events st).
Proof. simpl. rewrite gets_app. simpl. by rewrite app_nil_r. Qed.

Lemma create_pdf_trace title paras filename st :
  gets (events (create_pdf self title paras filename st).2) = gets (events st)
  /\ fetches (events (create_pdf self title paras filename st).2) = fetches (events st).
Proof.
  unfold create_pdf. destruct (build _ _); cbn [snd events emit print];
    rewrite gets_app, fetches_app; simpl; by rewrite !app_nil_r.
Qed.

(** the three primitives keep a property that only reads the requests
    and the fetcher calls of the trace and that a fetch keeps *)
Lemma trace_property_kept (P : list string -> list string -> Prop) :
  (forall u st, P (gets (events st)) (fetches (events st)) ->
                P (gets (events (fetch u st).2)) (fetches (events (fetch u st).2))) ->
  let Inv := fun st => P (gets (events st)) (fetches (events st)) in
  (forall u st, Inv st -> Inv (fetch u st).2)
  /\ (forall line st, Inv st -> Inv (print line st))
  /\ (forall title paras name st,
        Inv st -> Inv (create_pdf self title paras (sanitize_filename name) st).2).
Proof.
  intros Hfetch Inv. unfold Inv. split_and!.
  - exact Hfetch.
  - intros line st. by rewrite print_gets, (proj1 (print_fetches line st)).
  - intros title paras name st.
    by destruct (create_pdf_trace title paras (sanitize_filename name) st) as [-> ->].
Qed.

(** X5: whatever the site serves, a story and a category crawl never
    call [session.get] with a url whose host is blocked: when no call of
    the trace had such a url before the run, none has after it.  The
    blocklist is tested on the url asked for only: where a redirect
    takes the library inside the call is outside the script and outside
    this statement. *)
Theorem session_get_is_never_called_on_a_blocked_host (fuel : nat) (st : State) :
  Forall (fun u => is_blocked u = false) (gets (events st)) ->
  (forall stitle surl full_series b st',
      scrape_story self fuel stitle surl full_series st = Some (b, st') ->
      Forall (fun u => is_blocked u = false) (gets (events st')))
  /\ (forall max_pages r st',
        scrape_category self fuel max_pages st = Some (r, st') ->
        Forall (fun u => is_blocked u = false) (gets (events st')))
  /\ (forall b st',
        scrape_single_story self fuel st = Some (b, st') ->
        Forall (fun u => is_blocked u = false) (gets (events st'))).
Proof.
  intros Hst.
  destruct (trace_property_kept
              (fun g _ => Forall (fun u => is_blocked u = false) g))
    as (Hfetch & Hprint & Hpdf).
  { intros u st0 H0. destruct (make_request_gets u 3 st0) as (n & _ & Hg & Hb & _).
    unfold fetch. rewrite Hg. apply Forall_app. split; [done|].
    destruct (is_blocked u) eqn:Eb; [by rewrite Hb|].
    by apply Forall_replicate. }
  split_and!.
  - intros stitle surl full_series b st'.
    by apply (scrape_story_keeps self _ Hfetch Hprint Hpdf).
  - intros max_pages r st'. by apply (scrape_category_keeps self _ Hfetch Hprint Hpdf).
  - intros b st'. by apply (scrape_single_story_keeps self _ Hfetch Hprint Hpdf).
Qed.

(** X6: a run calls [session.get] at most four times per call of the
    fetcher, and only with urls it handed to the fetcher.  The requests
    the library adds inside a call when it follows a redirect are not
    counted. *)
Theorem four_session_gets_per_fetch (fuel : nat) (st : State) :
  (forall u, u ∈ gets (events st) -> u ∈ fetches (events st)) ->
  (forall stitle surl full_series b st',
      scrape_story self fuel stitle surl full_series st = Some (b, st') ->
      length (gets (events st')) + 4 * length (fetches (events st))
      <= length (gets (events st)) + 4 * length (fetches (events st'))
      /\ forall u, u ∈ gets (events st') -> u ∈ fetches (events st'))
  /\ (forall max_pages r st',
        scrape_category self fuel max_pages st = Some (r, st') ->
        length (gets (events st')) + 4 * length (fetches (events st))
        <= length (gets (events st)) + 4 * length (fetches (events st'))
        /\ forall u, u ∈ gets (events st') -> u ∈ fetches (events st')).
Proof.
  intros Hst.
  destruct (trace_property_kept
              (fun g f =>
                 length g + 4 * length (fetches (events st))
                 <= length (gets (events st)) + 4 * length f
                 /\ forall u, u ∈ g -> u ∈ f))
    as (Hfetch & Hprint & Hpdf).
  { intros u st0 [Hlen Hsub].
    destruct (make_request_gets u 3 st0) as (n & Hn & Hg & _ & Hf).
    unfold fetch. rewrite Hg, Hf, !length_app, length_replicate. simpl. split; [lia|].
    intros v [Hv|Hv]%elem_of_app; apply elem_of_app.
    - left. by apply Hsub.
    - right. apply elem_of_replicate in Hv as [-> _]. apply list_elem_of_here. }
  split.
  - intros stitle surl full_series b st'.
    apply (scrape_story_keeps self _ Hfetch Hprint Hpdf). split; [lia|done].
  - intros max_pages r st'.
    apply (scrape_category_keeps self _ Hfetch Hprint Hpdf). split; [lia|done].
Qed.

End Requests.

(** ** What a run leaves on disk *)

Section Disk.
Context `{Externals}.
Variable self : StoryScraperFramework.

Lemma fetch_files u st : files (fetch u st).2 = files st.
Proof. apply fetch_fetches. Qed.

Lemma create_pdf_files title paras filename st :
  ((create_pdf self title paras filename st).1 = true
   /\ files (create_pdf self title paras filename st).2
      = {[pdf_path self filename]} ∪ files st)
  \/ ((create_pdf self title paras filename st).1 = false
      /\ files (create_pdf self title paras filename st).2 = files st).
Proof. unfold create_pdf. destruct (build _ _); [by right|by left]. Qed.

(** X7: a story, a category crawl never remove a file, and every file
    they add is a PDF in the downloads folder whose name came out of
    sanitize_filename. *)
Theorem only_sanitized_pdfs_are_written (fuel : nat) (st : State) :
  (forall stitle surl full_series b st',
      scrape_story self fuel stitle surl full_series st = Some (b, st') ->
      files st ⊆ files st'
      /\ forall f, f ∈ files st' ->
           f ∈ files st \/ exists name, f = pdf_path self (sanitize_filename name))
  /\ (forall max_pages r st',
        scrape_category self fuel max_pages st = Some (r, st') ->
        files st ⊆ files st'
        /\ forall f, f ∈ files st' ->
             f ∈ files st \/ exists name, f = pdf_path self (sanitize_filename name)).
Proof.
  set (Inv := fun s : State =>
                files st ⊆ files s
                /\ forall f, f ∈ files s ->
                     f ∈ files st
                     \/ exists name, f = pdf_path self (sanitize_filename name)).
  assert (forall u s, Inv s -> Inv (fetch u s).2) as Hfetch
    by (intros u s; unfold Inv; by rewrite fetch_files).
  assert (forall line s, Inv s -> Inv (print line s)) as Hprint by done.
  assert (forall title paras name s,
             Inv s -> Inv (create_pdf self title paras (sanitize_filename name) s).2)
    as Hpdf.
  { intros title paras name s [Hsub Hall]. unfold Inv.
    destruct (create_pdf_files title paras (sanitize_filename name) s)
      as [[_ ->]|[_ ->]]; [|done].
    split.
    - intros f Hf. apply elem_of_union_r. by apply Hsub.
    - intros f [->%elem_of_singleton|Hf]%elem_of_union; [right; by exists name|].
      by apply Hall. }
  assert (Inv st) as Hst by (split; [done|by left]).
  split.
  - intros stitle surl full_series b st'.
    by apply (scrape_story_keeps self Inv Hfetch Hprint Hpdf).
  - intros max_pages r st'. by apply (scrape_category_keeps self Inv Hfetch Hprint Hpdf).
Qed.

Lemma chapters_loop_files fuel chs cnum allc st allc' st' :
  chapters_loop self fuel chs cnum allc st = Some (allc', st') -> files st' = files st.
Proof.
  apply (chapters_loop_keeps self (fun s => files s = files st)); [| |done].
  - intros u s Hs. by rewrite fetch_files.
  - by intros line s Hs.
Qed.

Lemma verdict_skip st st' name :
  files st' = files st -> path_exists (pdf_path self (sanitize_filename name)) st' = true ->
  verdict_ok self st st' true.
Proof.
  intros Hf Hex. split; [done|]. intros _. exists name. split; [|by left].
  unfold path_exists in Hex. by apply bool_decide_eq_true in Hex.
Qed.

Lemma verdict_built st s name title paras :
  files s = files st ->
  (create_pdf self title paras (sanitize_filename name) s).1 = true ->
  verdict_ok self st (create_pdf self title paras (sanitize_filename name) s).2 true.
Proof.
  intros Hf Hok. split; [done|]. intros _. exists name.
  destruct (create_pdf_files title paras (sanitize_filename name) s)
    as [[_ Hfiles]|[Hno _]]; [|congruence].
  rewrite Hfiles, Hf. split; [|by right]. apply elem_of_union_l. by apply elem_of_singleton.
Qed.

Lemma series_mode_verdict fuel stitle series st ret st' :
  series_mode self fuel stitle series st = Some (ret, st') ->
  match ret with
  | Some b => b = true /\ verdict_ok self st st' true
  | None => files st' = files st
  end.
Proof.
  unfold series_mode.
  pose proof (fetch_files series
                (print ("series found, scraping series for " +:+ stitle) st)) as Hf1.
  cbn [files print emit] in Hf1.
  destruct (fetch series _) as [[soup|] st1]; cbn [snd] in Hf1;
    [|by intros [= <- <-]].
  set (st_title := match select_one soup "h1" with
                   | Some st_el => get_text_strip st_el
                   | None => stitle
                   end).
  destruct (path_exists (pdf_path self (sanitize_filename st_title)) st1) eqn:Hex.
  { intros [= <- <-]. split; [done|]. by apply (verdict_skip st _ st_title). }
  destruct (chapter_links self soup _ ch_sels []) as [|c cs]; [by intros [= <- <-]|].
  destruct (chapters_loop self fuel _ 1 [] st1) as [[allc st2]|] eqn:Hl;
    cbn [mbind option_bind]; [|done].
  pose proof (chapters_loop_files _ _ _ _ _ _ _ Hl) as Hf2.
  destruct allc as [|a allc]; [intros [= <- <-]; congruence|].
  pose proof (verdict_built st st2 st_title st_title (a :: allc)) as Hbuilt.
  destruct (create_pdf_files st_title (a :: allc) (sanitize_filename st_title) st2)
    as [[Hok Hfiles]|[Hno Hfiles]];
    destruct (create_pdf self st_title (a :: allc) (sanitize_filename st_title) st2)
      as [ok st3]; cbn [fst snd] in *; subst ok; intros [= <- <-].
  - split; [done|]. destruct Hbuilt as [Hb1 Hb2]; [congruence|done|]. by split.
  - congruence.
Qed.

Lemma single_mode_verdict fuel stitle surl st b st' :
  single_mode self fuel stitle surl st = Some (b, st') -> verdict_ok self st st' b.
Proof.
  unfold single_mode.
  pose proof (fetch_files surl (print ("  single story mode for " +:+ stitle) st)) as Hf1.
  cbn [files print emit] in Hf1.
  destruct (fetch surl _) as [[soup|] st1]; cbn [snd] in Hf1;
    [|intros [= <- <-]; by split].
  pose proof (proj2 (extract_fetches self soup surl st1)) as Hf2.
  destruct (extract_story_content self soup surl st1) as [[[[t pp] chs] ser] st2].
  cbn [snd] in Hf2.
  set (ft := if Str.nonempty t then t else stitle).
  destruct (path_exists (pdf_path self (sanitize_filename ft)) st2) eqn:Hex.
  { intros [= <- <-]. apply (verdict_skip st _ ft); [|done]. simpl. congruence. }
  destruct (story_walk self fuel surl pp chs [surl] ∅ 1 [] [] st2)
    as [[[[allc part] log] st3]|] eqn:Hw; cbn [mbind option_bind]; [|done].
  destruct (story_walk_spec self fuel _ _ _ _ _ _ _ _ _ _ _ _ _ Hw)
    as (new & (_ & _ & _ & _ & _ & Hf3) & _).
  destruct allc as [|a allc]; [intros [= <- <-]; split; [simpl; congruence|done]|].
  pose proof (verdict_built st st3 ft ft (a :: allc)) as Hbuilt.
  destruct (create_pdf_files ft (a :: allc) (sanitize_filename ft) st3)
    as [[Hok Hfiles]|[Hno Hfiles]];
    destruct (create_pdf self ft (a :: allc) (sanitize_filename ft) st3)
      as [ok st4]; cbn [fst snd] in *; subst ok; intros [= <- <-].
  - destruct Hbuilt as [Hb1 Hb2]; [congruence|done|]. by split.
  - split; [simpl; congruence|done].
Qed.

(** X8: scrape_story answers True only when the PDF of the story is on
    disk as it returns, either found there (skip) or just written, and
    it writes at most that one file; when it answers False the disk is
    as it was. *)
Theorem true_means_pdf_on_disk (fuel : nat) (stitle surl : string)
    (full_series : bool) (st : State) (b : bool) (st' : State) :
  scrape_story self fuel stitle surl full_series st = Some (b, st') ->
  (b = false -> files st' = files st)
  /\ (b = true ->
      exists name,
        pdf_path self (sanitize_filename name) ∈ files st'
        /\ (files st' = files st
            \/ files st' = {[pdf_path self (sanitize_filename name)]} ∪ files st)).
Proof.
  unfold scrape_story.
  destruct (if full_series
            then find_series_link_from_all_pages self fuel surl
                   (print ("Story: " +:+ stitle) st)
            else Some (None, print ("Story: " +:+ stitle) st))
    as [[ser st1]|] eqn:Hd; cbn [mbind option_bind]; [|done].
  assert (files st1 = files st) as Hf1.
  { destruct full_series; [|by injection Hd as <- <-].
    by destruct (series_walk_spec self fuel _ _ _ _ _ Hd) as (_ & _ & _ & _ & ->). }
  destruct (if full_series && truthy ser
            then series_mode self fuel stitle (href_or_empty ser) st1
            else Some (None, st1)) as [[ret st2]|] eqn:Hs; cbn [mbind option_bind]; [|done].
  assert (match ret with
          | Some b' => b' = true /\ verdict_ok self st1 st2 true
          | None => files st2 = files st1
          end) as Hret.
  { destruct (full_series && truthy ser); [|by injection Hs as <- <-].
    by apply (series_mode_verdict fuel stitle (href_or_empty ser)). }
  destruct ret as [b'|].
  - intros [= <- <-]. destruct Hret as [-> Hv]. unfold verdict_ok in Hv.
    rewrite Hf1 in Hv. exact Hv.
  - intros Hm%single_mode_verdict. unfold verdict_ok in Hm.
    rewrite Hret, Hf1 in Hm. exact Hm.
Qed.

End Disk.

(** ** File names *)

Lemma all_chars_remove fn : all_chars allowed (remove_forbidden fn) = true.
Proof.
  induction fn as [|c s IH]; [done|]. cbn [remove_forbidden].
  destruct (existsb (Ascii.eqb c) forbidden_chars) eqn:E; [exact IH|].
  cbn [all_chars]. unfold allowed at 1. rewrite E. exact IH.
Qed.

Lemma all_chars_collapse b s :
  all_chars allowed s = true -> all_chars allowed (collapse_ws b s) = true.
Proof.
  revert b. induction s as [|c s IH]; intros b; [done|].
  cbn [all_chars collapse_ws].
  intros [Hc Hs]%andb_true_iff. destruct (Str.is_space c).
  - destruct b; [by apply IH|]. cbn [all_chars].
    change (allowed " ") with true. by apply IH.
  - cbn [all_chars]. rewrite Hc. by apply IH.
Qed.

Lemma all_chars_lstrip p s : all_chars p s = true -> all_chars p (Str.lstrip s) = true.
Proof.
  induction s as [|c s IH]; [done|]. simpl. intros Hall.
  destruct (Str.is_space c); [|done]. apply andb_true_iff in Hall as [_ Hs]. auto.
Qed.

Lemma all_chars_rstrip p s : all_chars p s = true -> all_chars p (Str.rstrip s) = true.
Proof.
  induction s as [|c s IH]; [done|]. simpl. intros [Hc Hs]%andb_true_iff.
  specialize (IH Hs). destruct (Str.rstrip s) as [|d r].
  - destruct (Str.is_space c); [done|]. simpl. by rewrite Hc.
  - simpl in *. by rewrite Hc.
Qed.

Lemma all_chars_take p n s : all_chars p s = true -> all_chars p (Str.take n s) = true.
Proof.
  revert s. induction n as [|n IH]; intros [|c s]; simpl; try done.
  intros [Hc Hs]%andb_true_iff. rewrite Hc. by apply IH.
Qed.

Lemma length_take n s : String.length (Str.take n s) <= n.
Proof.
  revert s. induction n as [|n IH]; intros [|c s]; simpl; try lia.
  specialize (IH s). lia.
Qed.

(** X9: whatever the title, sanitize_filename gives a name that is not
    empty, has at most 200 characters and contains none of the
    characters it deletes, so neither a slash nor a backslash. *)
Theorem sanitized_name_is_safe (fn : string) :
  sanitize_filename fn <> ""
  /\ String.length (sanitize_filename fn) <= 200
  /\ all_chars allowed (sanitize_filename fn) = true
  /\ allowed "/" = false /\ allowed "\" = false.
Proof.
  unfold sanitize_filename.
  set (r := Str.take 200 (Str.strip (collapse_ws false (remove_forbidden fn)))).
  assert (all_chars allowed r = true) as Hall.
  { apply all_chars_take, all_chars_rstrip, all_chars_lstrip, all_chars_collapse,
      all_chars_remove. }
  pose proof (length_take 200 (Str.strip (collapse_ws false (remove_forbidden fn)))) as Hlen.
  fold r in Hlen. split_and!.
  - destruct r; done.
  - destruct r; simpl in *; lia.
  - destruct r; done.
  - reflexivity.
  - reflexivity.
Qed.

Lemma remove_forbidden_id s : all_chars allowed s = true -> remove_forbidden s = s.
Proof.
  induction s as [|c s IH]; [done|]. cbn [all_chars remove_forbidden].
  intros [Hc Hs]%andb_true_iff.
  unfold allowed in Hc. apply negb_true_iff in Hc. rewrite Hc. by rewrite IH.
Qed.

Lemma ws_norm_collapse b s : ws_norm b (collapse_ws b s) = true.
Proof.
  revert b. induction s as [|c s IH]; intros b; [done|]. simpl.
  destruct (Str.is_space c) eqn:Ec.
  - destruct b; [apply IH|]. simpl. apply IH.
  - simpl. rewrite Ec. apply IH.
Qed.

Lemma collapse_ws_id b s : ws_norm b s = true -> collapse_ws b s = s.
Proof.
  revert b. induction s as [|c s IH]; intros b; [done|]. simpl.
  destruct (Str.is_space c).
  - intros [[Hc Hb]%andb_true_iff Hs]%andb_true_iff.
    apply negb_true_iff in Hb as ->. apply Ascii.eqb_eq in Hc as ->. by rewrite IH.
  - intros Hs. by rewrite IH.
Qed.

Lemma ws_norm_weaken s : ws_norm true s = true -> ws_norm false s = true.
Proof.
  destruct s as [|c s]; [done|]. simpl. destruct (Str.is_space c); [|done].
  by rewrite andb_false_r.
Qed.

Lemma ws_norm_lstrip s : ws_norm false s = true -> ws_norm false (Str.lstrip s) = true.
Proof.
  induction s as [|c s IH]; [done|]. simpl. destruct (Str.is_space c) eqn:Ec.
  - intros [_ Hs]%andb_true_iff. by apply IH, ws_norm_weaken.
  - intros Hs. simpl. by rewrite Ec.
Qed.

Lemma ws_norm_rstrip b s : ws_norm b s = true -> ws_norm b (Str.rstrip s) = true.
Proof.
  revert b. induction s as [|c s IH]; intros b; [done|]. simpl.
  destruct (Str.is_space c) eqn:Ec.
  - intros [Hcb Hs]%andb_true_iff. specialize (IH true Hs).
    destruct (Str.rstrip s) as [|d r]; [done|]. simpl in *. by rewrite Ec, Hcb.
  - intros Hs. specialize (IH false Hs).
    destruct (Str.rstrip s) as [|d r]; simpl in *; by rewrite Ec.
Qed.

Lemma rstrip_idem s : Str.rstrip (Str.rstrip s) = Str.rstrip s.
Proof.
  induction s as [|c s IH]; [done|]. simpl.
  destruct (Str.rstrip s) as [|d r] eqn:Er.
  - destruct (Str.is_space c) eqn:Ec; [done|]. simpl. by rewrite Ec.
  - simpl in *. by rewrite IH.
Qed.

Lemma lstrip_head s : Str.lstrip (Str.lstrip s) = Str.lstrip s.
Proof.
  induction s as [|c s IH]; [done|]. simpl.
  destruct (Str.is_space c) eqn:Ec; [done|]. simpl. by rewrite Ec.
Qed.

Lemma lstrip_rstrip s : Str.lstrip s = s -> Str.lstrip (Str.rstrip s) = Str.rstrip s.
Proof.
  destruct s as [|c s]; [done|]. simpl. destruct (Str.is_space c) eqn:Ec.
  - intros Heq. exfalso.
    assert (String.length (Str.lstrip s) <= String.length s) as Hle.
    { clear. induction s as [|d s IH]; simpl; [lia|]. destruct (Str.is_space d); simpl; lia. }
    rewrite Heq in Hle. simpl in Hle. lia.
  - intros _. destruct (Str.rstrip s); simpl; by rewrite Ec.
Qed.

Lemma strip_idem s : Str.strip (Str.strip s) = Str.strip s.
Proof.
  unfold Str.strip. rewrite (lstrip_rstrip (Str.lstrip s) (lstrip_head s)).
  apply rstrip_idem.
Qed.

Lemma take_short n s : String.length (Str.take n s) < n -> Str.take n s = s.
Proof.
  revert s. induction n as [|n IH]; intros [|c s]; simpl; try lia; [done|].
  intros Hlt. rewrite IH; [done|lia].
Qed.

(** X10: a name that sanitize_filename did not have to cut, one of
    fewer than 200 characters, is left as it is by a second pass. *)
Theorem sanitize_twice (fn : string) :
  String.length (sanitize_filename fn) < 200 ->
  sanitize_filename (sanitize_filename fn) = sanitize_filename fn.
Proof.
  intros Hlen.
  set (s0 := Str.strip (collapse_ws false (remove_forbidden fn))).
  assert (sanitize_filename fn
          = if Str.nonempty (Str.take 200 s0) then Str.take 200 s0 else "untitled")
    as Hs by reflexivity.
  destruct (Str.take 200 s0) as [|c r] eqn:Et; cbn [Str.nonempty] in Hs.
  { rewrite Hs. vm_compute. reflexivity. }
  rewrite Hs in Hlen |- *.
  assert (Str.take 200 s0 = s0) as Hid by (apply take_short; by rewrite Et).
  rewrite <- Et, Hid.
  assert (all_chars allowed s0 = true) as Hall
    by apply all_chars_rstrip, all_chars_lstrip, all_chars_collapse, all_chars_remove.
  assert (ws_norm false s0 = true) as Hws
    by apply ws_norm_rstrip, ws_norm_lstrip, ws_norm_collapse.
  unfold sanitize_filename.
  rewrite (remove_forbidden_id s0 Hall), (collapse_ws_id false s0 Hws).
  assert (Str.strip s0 = s0) as -> by apply strip_idem.
  rewrite Hid. rewrite Et in Hid. by rewrite <- Hid.
Qed.


(** ** Escaping *)

Lemma escape_cons c s : escape (String c s) = escape_char c +:+ escape s.
Proof.
  unfold escape, escape_char. cbn [Str.replace].
  destruct (Ascii.eqb_spec c "&") as [->|Hamp]; [reflexivity|].
  cbn [Str.replace].
  destruct (Ascii.eqb_spec c "<") as [->|Hlt]; [reflexivity|].
  cbn [Str.replace].
  destruct (Ascii.eqb_spec c ">") as [->|Hgt]; reflexivity.
Qed.

Lemma all_chars_append p a b :
  all_chars p a = true -> all_chars p b = true -> all_chars p (a +:+ b) = true.
Proof.
  induction a as [|c a IH]; [done|]. simpl. intros [Hc Ha]%andb_true_iff Hb.
  rewrite Hc. by apply IH.
Qed.

(** X11: the three replacements of create_pdf, made one after the
    other, amount to one pass that turns each ampersand, each opening
    and each closing angle bracket into its entity: the ampersands the
    later replacements bring in are not escaped again, and no angle
    bracket is left in the text. *)
Theorem escape_is_one_pass (item : string) :
  escape item = escape_once item
  /\ all_chars no_bracket (escape item) = true.
Proof.
  induction item as [|c s [IH1 IH2]]; [done|]. rewrite escape_cons. split.
  - simpl. by rewrite IH1.
  - apply all_chars_append; [|done]. unfold escape_char.
    destruct (Ascii.eqb_spec c "&") as [->|Hamp]; [reflexivity|].
    destruct (Ascii.eqb_spec c "<") as [->|Hlt]; [reflexivity|].
    destruct (Ascii.eqb_spec c ">") as [->|Hgt]; [reflexivity|].
    simpl. unfold no_bracket.
    apply Ascii.eqb_neq in Hlt, Hgt. by rewrite Hlt, Hgt.
Qed.

(** ** Listings, titles and chapter lists *)

Section Listings.
Context `{Externals}.
Variable self : StoryScraperFramework.

Lemma collect_links_closed links acc :
  collect_links self links acc = acc ++ links_of self links.
Proof.
  unfold collect_links, links_of. revert acc.
  induction links as [|l links IH]; intros acc; [by rewrite app_nil_r|].
  cbn [fold_left List.filter]. rewrite IH.
  destruct (href l) as [h|] eqn:Eh; cbn [truthy]; [|done].
  destruct (Str.nonempty h); [|done]. cbn [map]. unfold link_of at 2.
  rewrite Eh. cbn [href_or_empty]. by rewrite <- app_assoc.
Qed.

Lemma first_listing_find soup sels :
  first_listing self soup sels
  = match List.find (matched soup) sels with
    | Some s => links_of self (select soup s)
    | None => []
    end.
Proof.
  induction sels as [|s sels IH]; [done|]. cbn [first_listing List.find].
  unfold matched at 1. destruct (select soup s) as [|l ls] eqn:Es; [exact IH|].
  by rewrite collect_links_closed, Es.
Qed.

Lemma dedup_fold_sub (found : list StoryLink) :
  forall (seen : gset string) (uniq : list StoryLink) x,
    x ∈ (fold_left
           (fun '(seen, uniq) '(t, u) =>
              if bool_decide (u ∈ (seen : gset string)) then (seen, uniq)
              else ({[u]} ∪ seen, uniq ++ [(t, u)]))
           found (seen, uniq)).2 ->
    x ∈ uniq \/ x ∈ found.
Proof.
  induction found as [|[t u] found IH]; intros seen uniq x; simpl; [by left|].
  case_bool_decide.
  - intros [?|?]%IH; [by left|right; by apply list_elem_of_further].
  - intros [[?| ->%list_elem_of_singleton]%elem_of_app|?]%IH.
    + by left.
    + right. apply list_elem_of_here.
    + right. by apply list_elem_of_further.
Qed.

(** X12: the story links of a listing page come from the first
    selector that matches anything, and from that selector alone, even
    when none of its anchors has a target; each link carries the text of
    its anchor, Untitled when there is none, so no title is empty. *)
Theorem story_links_from_first_selector (soup : Soup) :
  extract_story_links self soup
  = dedup_links (match List.find (matched soup) story_link_sels with
                 | Some s => links_of self (select soup s)
                 | None => []
                 end)
  /\ (forall t u, (t, u) ∈ extract_story_links self soup ->
        t <> ""
        /\ exists s l,
             List.find (matched soup) story_link_sels = Some s
             /\ l ∈ select soup s /\ truthy (href l) = true
             /\ (t, u) = link_of self l).
Proof.
  unfold extract_story_links. rewrite first_listing_find. split; [done|].
  intros t u Hin. unfold dedup_links in Hin.
  apply dedup_fold_sub in Hin as [Hin|Hin]; [by apply elem_of_nil in Hin|].
  destruct (List.find (matched soup) story_link_sels) as [s|];
    [|by apply elem_of_nil in Hin].
  unfold links_of in Hin.
  apply list_elem_of_In, in_map_iff in Hin as (l & Hl & [Hsel Hhref]%filter_In).
  split.
  - injection Hl as <- _. by destruct (get_text_strip l).
  - exists s, l. by rewrite list_elem_of_In.
Qed.

Lemma dedup_fold_acc (l : list StoryLink) :
  forall (seen : gset string) (uniq : list StoryLink),
    (fold_left
       (fun '(seen, uniq) '(t, u) =>
          if bool_decide (u ∈ (seen : gset string)) then (seen, uniq)
          else ({[u]} ∪ seen, uniq ++ [(t, u)]))
       l (seen, uniq)).2
    = uniq
      ++ (fold_left
            (fun '(seen, uniq) '(t, u) =>
               if bool_decide (u ∈ (seen : gset string)) then (seen, uniq)
               else ({[u]} ∪ seen, uniq ++ [(t, u)]))
            l (seen, [])).2.
Proof.
  induction l as [|[t v] l IH]; intros seen uniq; simpl; [by rewrite app_nil_r|].
  case_bool_decide; [apply IH|].
  rewrite (IH _ (uniq ++ [(t, v)])), (IH _ [(t, v)]). by rewrite <- app_assoc.
Qed.

Lemma dedup_fold_skip (u : string) (l : list StoryLink) :
  forall (seen : gset string) (uniq : list StoryLink),
    (fold_left
       (fun '(seen, uniq) '(t, u) =>
          if bool_decide (u ∈ (seen : gset string)) then (seen, uniq)
          else ({[u]} ∪ seen, uniq ++ [(t, u)]))
       l ({[u]} ∪ seen, uniq)).2
    = (fold_left
         (fun '(seen, uniq) '(t, u) =>
            if bool_decide (u ∈ (seen : gset string)) then (seen, uniq)
            else ({[u]} ∪ seen, uniq ++ [(t, u)]))
         (List.filter (fun y : StoryLink => negb (String.eqb y.2 u)) l) (seen, uniq)).2.
Proof.
  induction l as [|[t v] l IH]; intros seen uniq; [done|].
  cbn [fold_left List.filter snd].
  destruct (String.eqb_spec v u) as [->|Hne]; cbn [negb].
  - rewrite bool_decide_eq_true_2; [apply IH|].
    apply elem_of_union_l. by apply elem_of_singleton.
  - cbn [fold_left]. destruct (decide (v ∈ seen)) as [Hin|Hnin].
    + rewrite !bool_decide_eq_true_2; [apply IH|done|by apply elem_of_union_r].
    + rewrite !bool_decide_eq_false_2; [|done|].
      * replace ({[v]} ∪ ({[u]} ∪ seen)) with ({[u]} ∪ ({[v]} ∪ seen)); [apply IH|].
        rewrite !(assoc_L (∪)). f_equal. apply (comm_L (∪)).
      * rewrite elem_of_union, elem_of_singleton. tauto.
Qed.

(** X13: removing duplicates keeps, for each url, the first link that
    carries it, title included, and drops the later ones; the links
    kept stay in the order of the page. *)
Theorem dedup_keeps_first_occurrence :
  dedup_links [] = []
  /\ forall t u l,
      dedup_links ((t, u) :: l)
      = (t, u) :: dedup_links (List.filter (fun y : StoryLink => negb (String.eqb y.2 u)) l).
Proof.
  split; [done|]. intros t u l. unfold dedup_links. cbn [fold_left].
  rewrite bool_decide_eq_false_2 by apply not_elem_of_empty.
  rewrite dedup_fold_skip, dedup_fold_acc. done.
Qed.

Lemma title_loop_find soup sels :
  title_loop soup sels
  = match List.find (matched soup) sels with
    | Some s => match select_one soup s with
                | Some el => get_text_strip el
                | None => ""
                end
    | None => ""
    end.
Proof.
  induction sels as [|s sels IH]; [done|]. cbn [title_loop List.find].
  unfold matched at 1, select_one at 1.
  destruct (select soup s) as [|el els] eqn:Es; [exact IH|].
  unfold select_one. by rewrite Es.
Qed.

(** X14: the title of a page is the text of the first element of the
    first title selector that matches, also when that text is empty;
    extraction prints the no-title warning exactly when the title is
    empty and does nothing else to the state. *)
Theorem title_from_first_selector (soup : Soup) (story_url : string) (st : State) :
  (extract_story_content self soup story_url st).1.1.1.1
  = match List.find (matched soup) t_sels with
    | Some s => match select_one soup s with
                | Some el => get_text_strip el
                | None => ""
                end
    | None => ""
    end
  /\ ((extract_story_content self soup story_url st).1.1.1.1 = "" ->
      (extract_story_content self soup story_url st).2 = print "[WARNING] no title" st)
  /\ ((extract_story_content self soup story_url st).1.1.1.1 <> "" ->
      (extract_story_content self soup story_url st).2 = st).
Proof.
  unfold extract_story_content. cbn [fst snd]. split_and!.
  - apply title_loop_find.
  - by intros ->.
  - intros Hne. by destruct (title_loop soup t_sels).
Qed.

Lemma collect_chapters_closed st_title es acc :
  collect_chapters self st_title es acc = acc ++ chapters_of self st_title es.
Proof.
  unfold collect_chapters, chapters_of. revert acc.
  induction es as [|e es IH]; intros acc; [by rewrite app_nil_r|].
  cbn [fold_left List.filter]. rewrite IH. unfold usable at 2.
  destruct (href e) as [h|] eqn:Eh; [|done].
  destruct (Str.nonempty h && Str.contains "/s/" h); [|done].
  cbn [map]. unfold chapter_of at 2. rewrite Eh. cbn [href_or_empty].
  by rewrite <- app_assoc.
Qed.

(** X15: the chapters of a series page come from the first chapter
    selector that has a usable anchor, one with a target that contains
    the story path; a selector that matches only unusable anchors is
    passed over.  A target that starts with http is taken as it is, any
    other is joined to the base url. *)
Theorem chapters_from_first_usable_selector (soup_series : Soup) (st_title : string) :
  chapter_links self soup_series st_title ch_sels []
  = match List.find (fun s => existsb usable (select soup_series s)) ch_sels with
    | Some s => chapters_of self st_title (select soup_series s)
    | None => []
    end.
Proof.
  generalize ch_sels. intros sels.
  induction sels as [|s sels IH]; [done|]. cbn [chapter_links List.find].
  destruct (select soup_series s) as [|e es] eqn:Es; [exact IH|].
  rewrite collect_chapters_closed. cbn [app]. unfold chapters_of.
  destruct (List.filter usable (e :: es)) as [|y ys] eqn:Ef.
  - assert (existsb usable (e :: es) = false) as ->; [|exact IH].
    apply not_true_is_false. intros (x & Hx & Hu)%existsb_exists.
    assert (In x (List.filter usable (e :: es))) as Hin by by apply filter_In.
    by rewrite Ef in Hin.
  - assert (existsb usable (e :: es) = true) as ->.
    { assert (In y (List.filter usable (e :: es))) as Hin by (rewrite Ef; by left).
      apply filter_In in Hin as [Hin Hu]. apply existsb_exists. by exists y. }
    by rewrite Es, Ef.
Qed.

End Listings.

(** ** The properties above on the demonstration sites *)

(** the crawl of two listing pages of [Demo.category_site] is polite *)
Lemma every_session_get_follows_a_sleep_witness :
  polite (events (Demo.final_state
                    (@scrape_category (Demo.world Demo.category_site) Demo.self 10 2
                       Demo.st0))).
Proof.
  destruct (@every_session_get_follows_a_sleep (Demo.world Demo.category_site) Demo.self 10
              Demo.st0) as (_ & _ & Hcrawl & _).
  - apply polite_nil.
  - apply (Hcrawl 2 (2, 2, [("My Story", Demo.story_url); ("My Story", Demo.story_url)])).
    vm_compute. reflexivity.
Defined.

(** a url without a host is not blocked *)
Lemma blocked_iff_host_contains_witness :
  @is_blocked (Demo.world Demo.category_site) "my-story.html" = false.
Proof.
  apply (@blocked_iff_host_contains (Demo.world Demo.category_site) "my-story.html").
  reflexivity.
Defined.

(** no call of [session.get] in the crawl of [Demo.category_site] has a blocked host *)
Lemma session_get_is_never_called_on_a_blocked_host_witness :
  Forall (fun u => @is_blocked (Demo.world Demo.category_site) u = false)
    (gets (events (Demo.final_state
                     (@scrape_category (Demo.world Demo.category_site) Demo.self 10 2
                        Demo.st0)))).
Proof.
  destruct (@session_get_is_never_called_on_a_blocked_host (Demo.world Demo.category_site) Demo.self
              10 Demo.st0) as (_ & Hcrawl & _).
  - apply Forall_nil_2.
  - apply (Hcrawl 2 (2, 2, [("My Story", Demo.story_url); ("My Story", Demo.story_url)])).
    vm_compute. reflexivity.
Defined.

(** the calls of [session.get] in the crawl of [Demo.category_site] against its fetches *)
Lemma four_session_gets_per_fetch_witness :
  length (gets (events (Demo.final_state
                          (@scrape_category (Demo.world Demo.category_site) Demo.self 10 2
                             Demo.st0))))
  + 4 * length (fetches (events Demo.st0))
  <= length (gets (events Demo.st0))
     + 4 * length (fetches (events (Demo.final_state
                                      (@scrape_category (Demo.world Demo.category_site)
                                         Demo.self 10 2 Demo.st0)))).
Proof.
  destruct (@four_session_gets_per_fetch (Demo.world Demo.category_site) Demo.self 10
              Demo.st0) as (_ & Hcrawl).
  - intros u Hu. by apply elem_of_nil in Hu.
  - apply (Hcrawl 2 (2, 2, [("My Story", Demo.story_url); ("My Story", Demo.story_url)])).
    vm_compute. reflexivity.
Defined.

(** the one file the crawl of [Demo.category_site] leaves on an empty disk *)
Lemma only_sanitized_pdfs_are_written_witness :
  "downloads/My Story.pdf" ∈ files Demo.st0
  \/ exists name, "downloads/My Story.pdf" = pdf_path Demo.self (sanitize_filename name).
Proof.
  destruct (@only_sanitized_pdfs_are_written (Demo.world Demo.category_site) Demo.self 10
              Demo.st0) as (_ & Hcrawl).
  destruct (Hcrawl 2 (2, 2, [("My Story", Demo.story_url); ("My Story", Demo.story_url)])
              (Demo.final_state
                 (@scrape_category (Demo.world Demo.category_site) Demo.self 10 2
                    Demo.st0))) as [_ Hnew].
  - vm_compute. reflexivity.
  - apply Hnew. vm_compute. reflexivity.
Defined.

(** a one-page story saved on an empty disk *)
Lemma true_means_pdf_on_disk_witness :
  exists name,
    pdf_path Demo.self (sanitize_filename name)
    ∈ files (Demo.final_state
               (@scrape_story (Demo.world Demo.category_site) Demo.self 5
                  "My Story" Demo.story_url true Demo.st0))
    /\ (files (Demo.final_state
                 (@scrape_story (Demo.world Demo.category_site) Demo.self 5
                    "My Story" Demo.story_url true Demo.st0))
        = files Demo.st0
        \/ files (Demo.final_state
                    (@scrape_story (Demo.world Demo.category_site) Demo.self 5
                       "My Story" Demo.story_url true Demo.st0))
           = {[pdf_path Demo.self (sanitize_filename name)]} ∪ files Demo.st0).
Proof.
  apply (@true_means_pdf_on_disk (Demo.world Demo.category_site) Demo.self 5
           "My Story" Demo.story_url true Demo.st0 true).
  - vm_compute. reflexivity.
  - reflexivity.
Defined.

(** a title with a colon and a run of blanks *)
Lemma sanitize_twice_witness :
  sanitize_filename (sanitize_filename "My  Story: Part 2")
  = sanitize_filename "My  Story: Part 2".
Proof.
  apply (sanitize_twice "My  Story: Part 2"). vm_compute. lia.
Defined.

(** the one link of [Demo.listing] *)
Lemma story_links_from_first_selector_witness :
  "My Story" <> ""
  /\ exists s l,
       List.find (matched Demo.listing) story_link_sels = Some s
       /\ l ∈ select Demo.listing s /\ truthy (href l) = true
       /\ ("My Story", Demo.story_url)
          = @link_of (Demo.world Demo.category_site) Demo.self l.
Proof.
  apply (@story_links_from_first_selector (Demo.world Demo.category_site) Demo.self
           Demo.listing).
  vm_compute. apply list_elem_of_here.
Defined.

(** a page without a heading *)
Lemma title_from_first_selector_witness :
  (@extract_story_content (Demo.world Demo.category_site) Demo.self Demo.pager_page
     Demo.story_url Demo.st0).2
  = print "[WARNING] no title" Demo.st0.
Proof.
  apply (@title_from_first_selector (Demo.world Demo.category_site) Demo.self
           Demo.pager_page Demo.story_url Demo.st0).
  reflexivity.
Defined.

(** ** The text of a series and its headings *)

Section SeriesText.
Context `{Externals}.
Variable self : StoryScraperFramework.

Lemma chapters_loop_assemble fuel chs :
  forall cnum allc st allc' st',
    chapters_loop self fuel chs cnum allc st = Some (allc', st') ->
    exists bodies,
      length bodies = length chs
      /\ allc' = allc ++ assemble cnum chs bodies
      /\ Forall2 (fun (c : ChapterRef) pc =>
                    exists st1 part log st2,
                      chapter_walk self fuel [c.1.2] ∅ 1 [] [] st1
                      = Some (pc, part, log, st2))
                 chs bodies.
Proof.
  induction chs as [|[[ct curl] k] chs IH]; intros cnum allc st allc' st'.
  { intros [= <- <-]. exists []. rewrite app_nil_r. split_and!; [done|done|constructor]. }
  cbn [chapters_loop].
  destruct (chapter_walk self fuel [curl] ∅ 1 [] [] (print ("  " +:+ ct) st))
    as [[[[pc part] log] st1]|] eqn:Ew; cbn [mbind option_bind]; [|done].
  intros (bodies & Hlen & -> & Hall)%IH. exists (pc :: bodies). split_and!.
  - simpl. by rewrite Hlen.
  - cbn [assemble]. unfold chapter_heading. rewrite <- !app_assoc. done.
  - constructor; [|done]. by exists (print ("  " +:+ ct) st), part, log, st1.
Qed.

End SeriesText.

Lemma rstrip_nonspace c s :
  Str.is_space c = false -> Str.nonempty (Str.rstrip (String c s)) = true.
Proof. intros Hc. cbn [Str.rstrip]. rewrite Hc. by destruct (Str.rstrip s). Qed.

(** X16: the text of a series is, chapter after chapter in the order
    of the chapter list and numbered upwards, a heading line followed by
    what the page walk of the chapter gave.  Only the heading of chapter
    one is set as a heading in the PDF: any other starts with a line
    break, so it is rendered as an ordinary escaped paragraph. *)
Theorem only_first_chapter_heading_is_styled `{Externals} (self : StoryScraperFramework) :
  (forall fuel chs cnum allc st allc' st',
      chapters_loop self fuel chs cnum allc st = Some (allc', st') ->
      exists bodies,
        length bodies = length chs
        /\ allc' = allc ++ assemble cnum chs bodies
        /\ Forall2 (fun (c : ChapterRef) pc =>
                      exists st1 part log st2,
                        chapter_walk self fuel [c.1.2] ∅ 1 [] [] st1
                        = Some (pc, part, log, st2))
                   chs bodies)
  /\ (forall ct,
        pdf_item (chapter_heading 1 ct)
        = [Paragraph ("Chapter 1: " +:+ ct) Heading1; Spacer 1 24])
  /\ (forall cnum ct,
        cnum <> 1 ->
        pdf_item (chapter_heading cnum ct)
        = [Paragraph (escape (chapter_heading cnum ct)) Normal; Spacer 1 6]).
Proof.
  split_and!.
  - intros fuel chs. apply chapters_loop_assemble.
  - intros ct. reflexivity.
  - intros cnum ct Hc. unfold chapter_heading.
    rewrite (proj2 (Nat.eqb_neq cnum 1) Hc).
    set (rest := Str.of_nat cnum +:+ ": " +:+ ct).
    assert (newline +:+ "Chapter " +:+ rest
            = String (ascii_of_nat 10) (String "C" ("hapter " +:+ rest))) as ->
      by reflexivity.
    generalize ("hapter " +:+ rest). intros tail. unfold pdf_item.
    assert (Str.startswith (String (ascii_of_nat 10) (String "C" tail)) "Chapter " = false)
      as -> by reflexivity.
    assert (Str.startswith (String (ascii_of_nat 10) (String "C" tail)) "PART " = false)
      as -> by reflexivity.
    assert (Str.strip (String (ascii_of_nat 10) (String "C" tail))
            = Str.rstrip (String "C" tail)) as -> by reflexivity.
    by rewrite rstrip_nonspace.
Qed.

(** a chapter two *)
Lemma only_first_chapter_heading_is_styled_witness :
  pdf_item (chapter_heading 2 "Summer Nights Ch. 02")
  = [Paragraph (escape (chapter_heading 2 "Summer Nights Ch. 02")) Normal; Spacer 1 6].
Proof.
  apply (@only_first_chapter_heading_is_styled (Demo.world Demo.category_site) Demo.self).
  lia.
Defined.

(** ** The listing pages of a category *)

Section ListingPages.
Context `{Externals}.
Variable self : StoryScraperFramework.

(** X17: the stories a crawl hands on come from listing pages the site
    served, at most [max_pages] of them and each with a story link on
    it; the page counted [cur] was asked for at the base url when [cur]
    is one and at the rewritten url for page [cur + 1] otherwise.  For a
    base url without a query the second listing asked for is thus
    [?page=3]: [?page=2] is never requested. *)
Theorem listing_pages_skip_page_two :
  (forall fuel max_pages st found saved handed st',
      scrape_category self fuel max_pages st = Some (found, saved, handed, st') ->
      exists pages : list Soup,
        handed = flat_map (extract_story_links self) pages
        /\ length pages <= max_pages
        /\ forall i soup, pages !! i = Some soup ->
             extract_story_links self soup <> []
             /\ exists t, net t (listing_url self (S i)) = Ok soup)
  /\ listing_url self 1 = base_url self
  /\ (Str.contains "?" (base_url self) = false ->
      Str.startswith (base_url self) "https://tags.literotica.com/" = false ->
      forall cur, cur <> 1 ->
        listing_url self cur = base_url self +:+ "?page=" +:+ Str.of_nat (cur + 1)).
Proof.
  split_and!.
  - intros fuel max_pages st found saved handed st'. unfold scrape_category.
    destruct (category_loop self fuel max_pages 1 0 0 ∅ [] _)
      as [[[[found1 saved1] handed1] st1]|] eqn:Hl; cbn [mbind option_bind]; [|done].
    intros [= <- <- <- <-].
    apply category_loop_listing in Hl as (pages & -> & Hlen & Hserved & _).
    exists pages. split_and!; [done|done|]. intros i soup Hi. by apply Hserved.
  - reflexivity.
  - intros Hq Htags cur Hcur. unfold listing_url, get_next_page_url, rewritten_page_url.
    by rewrite (proj2 (Nat.eqb_neq cur 1) Hcur), Hq, Htags.
Qed.

End ListingPages.

(** the second listing of [Demo.category_site] *)
Lemma listing_pages_skip_page_two_witness :
  @listing_url (Demo.world Demo.category_site) Demo.self 2
  = "https://example.com/c/romance?page=3".
Proof.
  apply (@listing_pages_skip_page_two (Demo.world Demo.category_site) Demo.self);
    [reflexivity|reflexivity|lia].
Defined.

(** ** Series discovery and the queue *)

Section Discovery.
Context `{Externals}.
Variable self : StoryScraperFramework.

Lemma series_walk_served fuel :
  forall todo seen st ser st',
    series_walk self fuel todo seen st = Some (ser, st') ->
    exists l,
      Forall (no_series_link self) (served self l st).1
      /\ match ser with
         | Some s =>
             s <> ""
             /\ exists u soup,
                  fetches (events st') = fetches (events st) ++ l ++ [u]
                  /\ (fetch u (served self l st).2).1 = Some soup
                  /\ series_link self soup = Some s
                  /\ st' = (extract_story_content self soup u
                              (fetch u (served self l st).2).2).2
         | None =>
             fetches (events st') = fetches (events st) ++ l
             /\ st' = (served self l st).2
         end.
Proof.
  induction fuel as [|fuel IH]; intros todo seen st ser st'; [done|].
  cbn [series_walk]. destruct todo as [|cu todo].
  { intros [= <- <-]. exists []. cbn [served fst snd]. rewrite app_nil_r.
    split; [constructor|done]. }
  case_bool_decide as Hin; [apply IH|].
  destruct (fetch cu st) as [pr st1] eqn:Ef.
  destruct (fetch_fetches cu st) as [Hf1 _]. rewrite Ef in Hf1. cbn [snd] in Hf1.
  assert (forall st2 (o : option Soup),
             no_series_link self o ->
             served self [cu] st = ([o], st2) ->
             fetches (events st2) = fetches (events st) ++ [cu] ->
             (forall l, served self (cu :: l) st
                        = (o :: (served self l st2).1, (served self l st2).2)) ->
             (exists l,
                 Forall (no_series_link self) (served self l st2).1
                 /\ match ser with
                    | Some s =>
                        s <> ""
                        /\ exists u soup,
                             fetches (events st') = fetches (events st2) ++ l ++ [u]
                             /\ (fetch u (served self l st2).2).1 = Some soup
                             /\ series_link self soup = Some s
                             /\ st' = (extract_story_content self soup u
                                         (fetch u (served self l st2).2).2).2
                    | None =>
                        fetches (events st') = fetches (events st2) ++ l
                        /\ st' = (served self l st2).2
                    end) ->
             exists l,
               Forall (no_series_link self) (served self l st).1
               /\ match ser with
                  | Some s =>
                      s <> ""
                      /\ exists u soup,
                           fetches (events st') = fetches (events st) ++ l ++ [u]
                           /\ (fetch u (served self l st).2).1 = Some soup
                           /\ series_link self soup = Some s
                           /\ st' = (extract_story_content self soup u
                                       (fetch u (served self l st).2).2).2
                  | None =>
                      fetches (events st') = fetches (events st) ++ l
                      /\ st' = (served self l st).2
                  end) as Hnext.
  { intros st2 o Ho _ Hf2 Hcons (l & Hall & Hres). exists (cu :: l).
    rewrite Hcons. cbn [fst snd]. split; [by constructor|].
    destruct ser as [s|].
    - destruct Hres as (Hs & u & soup & Hf & Hfetch & Hlink & Hst).
      split; [done|]. exists u, soup. split_and!; [|done|done|done].
      rewrite Hf, Hf2, <- !app_assoc. done.
    - destruct Hres as [Hf Hst]. split; [|done]. rewrite Hf, Hf2, <- app_assoc. done. }
  destruct pr as [ps|].
  - destruct (extract_story_content self ps cu st1)
      as [[[[t paras] nexts] ser0] st2] eqn:Ee.
    destruct (extract_fetches self ps cu st1) as [Hf2 _].
    pose proof (extract_results self ps cu st1) as Hr.
    rewrite Ee in Hf2, Hr. cbn [fst snd] in Hf2, Hr.
    assert (ser0 = series_link self ps) as Hser by congruence.
    destruct (truthy ser0) eqn:Ht.
    + intros [= <- <-]. exists []. cbn [served fst snd app]. split; [constructor|].
      destruct ser0 as [s|]; [|done]. split; [by intros ->|].
      exists cu, ps. rewrite Ef. cbn [fst snd]. rewrite Ee. cbn [snd].
      split_and!; [|done|done|done].
      by rewrite Hf2, Hf1.
    + intros Hw%IH. apply (Hnext st2 (Some ps)).
      * unfold no_series_link. by rewrite <- Hser.
      * cbn [served]. by rewrite Ef, Ee.
      * by rewrite Hf2, Hf1.
      * intros l. cbn [served]. rewrite Ef, Ee. cbn [snd].
        by destruct (served self l st2).
      * done.
  - intros Hw%IH. apply (Hnext st1 None).
    + done.
    + cbn [served]. by rewrite Ef.
    + done.
    + intros l. cbn [served]. rewrite Ef. by destruct (served self l st1).
    + done.
Qed.

(** X18: a series link that discovery returns is never empty; it is
    the link carried, under the series selector, by the page the site
    served for the last url discovery fetched, and none of the pages
    served for the urls fetched before it carries a series link: the
    walk stops at the first page with one. *)
Theorem discovery_stops_at_first_series_link (fuel : nat) (story_url : string)
    (st : State) (s : string) (st' : State) :
  find_series_link_from_all_pages self fuel story_url st = Some (Some s, st') ->
  s <> ""
  /\ exists u soup l,
       series_link self soup = Some s
       /\ (exists t, net t u = Ok soup)
       /\ fetches (events st') = fetches (events st) ++ l ++ [u]
       /\ Forall (no_series_link self) (served self l st).1
       /\ (fetch u (served self l st).2).1 = Some soup.
Proof.
  intros (l & Hall & Hs & u & soup & Hf & Hfetch & Hlink & _)%series_walk_served.
  split; [done|]. exists u, soup, l. split_and!; try done.
  by apply (fetch_ok u (served self l st).2).
Qed.

End Discovery.

(** X19: the walks keep their queue first in, first out: queueing the
    links of a page leaves the urls already queued where they are and
    appends, in page order and once each, exactly the links that were
    neither visited nor queued. *)
Theorem enqueue_appends_fresh_links (nexts : list string) (seen : gset string)
    (todo : list string) :
  exists new,
    enqueue nexts seen todo = todo ++ new
    /\ NoDup new
    /\ sublist new nexts
    /\ forall n, n ∈ new <-> (n ∈ nexts /\ (n ∉ seen) /\ (n ∉ todo)).
Proof.
  unfold enqueue. revert todo.
  induction nexts as [|n nexts IH]; intros todo.
  { exists []. rewrite app_nil_r. split_and!; [done|constructor|done|].
    intros n. rewrite elem_of_nil. tauto. }
  cbn [fold_left].
  destruct (bool_decide (n ∈ seen) || bool_decide (n ∈ todo)) eqn:Hskip.
  - destruct (IH todo) as (new & -> & Hnd & Hsub & Hnew). exists new.
    split_and!; [done|done|by apply sublist_cons|].
    intros x. rewrite Hnew, elem_of_cons. split; [tauto|].
    intros ([->|Hx] & Hs & Ht); [|done].
    apply orb_true_iff in Hskip as [Hd%bool_decide_eq_true|Hd%bool_decide_eq_true]; done.
  - apply orb_false_iff in Hskip as [Hs%bool_decide_eq_false Ht%bool_decide_eq_false].
    destruct (IH (todo ++ [n])) as (new & -> & Hnd & Hsub & Hnew). exists (n :: new).
    split_and!.
    + by rewrite <- app_assoc.
    + apply NoDup_cons. split; [|done]. rewrite Hnew.
      intros (_ & _ & Hn). apply Hn, elem_of_app. right. apply list_elem_of_here.
    + by apply sublist_skip.
    + intros x. rewrite !elem_of_cons, Hnew, elem_of_app, list_elem_of_singleton.
      split.
      * intros [->|(Hx & Hxs & Hxt)]; [tauto|]. tauto.
      * intros ([->|Hx] & Hxs & Hxt); [by left|].
        destruct (decide (x = n)) as [->|Hne]; [by left|right]. tauto.
Qed.

(** discovery from the last page of a story of [Saga.site] whose first
    page carries no series link *)
Lemma discovery_stops_at_first_series_link_witness :
  Saga.series_url <> ""
  /\ exists u soup l,
       @series_link (Demo.world Saga.site) Demo.self soup = Some Saga.series_url
       /\ (exists t, @net (Demo.world Saga.site) t u = Ok soup)
       /\ fetches (events (Demo.final_state
                             (@find_series_link_from_all_pages (Demo.world Saga.site)
                                Demo.self 5 Saga.prologue Demo.st0)))
          = fetches (events Demo.st0) ++ l ++ [u]
       /\ Forall (@no_series_link (Demo.world Saga.site) Demo.self)
            (@served (Demo.world Saga.site) Demo.self l Demo.st0).1
       /\ (@fetch (Demo.world Saga.site) u
             (@served (Demo.world Saga.site) Demo.self l Demo.st0).2).1 = Some soup.
Proof.
  apply (@discovery_stops_at_first_series_link (Demo.world Saga.site) Demo.self 5
           Saga.prologue Demo.st0 Saga.series_url).
  vm_compute. reflexivity.
Defined.

(** ** The counters of a crawl and the requests of a story *)

Section Counters.
Context `{Externals}.
Variable self : StoryScraperFramework.

Lemma stories_loop_saved fuel stories :
  forall i total saved st saved' st',
    stories_loop self fuel stories i total saved st = Some (saved', st') ->
    saved <= saved' <= saved + length stories.
Proof.
  induction stories as [|[t surl] stories IH]; intros i total saved st saved' st'.
  { intros [= <- <-]. simpl. lia. }
  cbn [stories_loop].
  destruct (scrape_story self fuel t surl true _) as [[ok st1]|];
    cbn [mbind option_bind]; [|done].
  intros Hl%IH. destruct ok; simpl; lia.
Qed.

Lemma category_loop_counts fuel pages_left :
  forall cur found saved seen handed st found' saved' handed' st',
    category_loop self fuel pages_left cur found saved seen handed st
    = Some (found', saved', handed', st') ->
    saved <= saved'
    /\ saved' + found <= saved + found'
    /\ found' + length handed = found + length handed'.
Proof.
  induction pages_left as [|pages_left IH];
    intros cur found saved seen handed st found' saved' handed' st'.
  { intros [= <- <- <- <-]. lia. }
  cbn [category_loop].
  destruct (negb _ || bool_decide _); [intros [= <- <- <- <-]; lia|].
  destruct (fetch _ st) as [[soup|] st1]; [|intros [= <- <- <- <-]; lia].
  destruct (extract_story_links self soup) as [|s stories] eqn:Es;
    [intros [= <- <- <- <-]; lia|].
  destruct (stories_loop self fuel (s :: stories) 1 (length (s :: stories)) saved _)
    as [[saved2 st2]|] eqn:Hs; cbn [mbind option_bind]; [|done].
  apply stories_loop_saved in Hs.
  intros (H1 & H2 & H3)%IH. rewrite length_app in H3. lia.
Qed.

(** X20: a crawl never counts more stories saved than found, it found
    as many as it handed to scrape_story, and the last thing it prints
    is the summary line with these two counters. *)
Theorem saved_never_exceeds_found (fuel max_pages : nat) (st : State)
    (found saved : nat) (handed : list StoryLink) (st' : State) :
  scrape_category self fuel max_pages st = Some (found, saved, handed, st') ->
  saved <= found
  /\ found = length handed
  /\ last (events st')
     = Some (EvPrint ("Done! found:" +:+ Str.of_nat found
                      +:+ " saved:" +:+ Str.of_nat saved)).
Proof.
  unfold scrape_category.
  destruct (category_loop self fuel max_pages 1 0 0 ∅ [] _)
    as [[[[found1 saved1] handed1] st1]|] eqn:Hl; cbn [mbind option_bind]; [|done].
  intros [= <- <- <- <-]. apply category_loop_counts in Hl as (H1 & H2 & H3).
  simpl in H3. split_and!; [lia|lia|].
  cbn [print emit events]. by rewrite last_snoc.
Qed.

Lemma single_mode_refetches fuel stitle surl st b st' :
  single_mode self fuel stitle surl st = Some (b, st') ->
  exists l, fetches (events st') = fetches (events st) ++ surl :: l /\ surl ∉ l.
Proof.
  unfold single_mode.
  destruct (fetch surl (print ("  single story mode for " +:+ stitle) st))
    as [r st1] eqn:Ef.
  destruct (fetch_fetches surl (print ("  single story mode for " +:+ stitle) st))
    as [Hf1 _].
  rewrite Ef, (proj1 (print_fetches _ st)) in Hf1. cbn [snd] in Hf1.
  assert (surl ∉ @nil string) as Hnil by apply not_elem_of_nil.
  destruct r as [soup|]; [|intros [= <- <-]; by exists []].
  destruct (extract_story_content self soup surl st1) as [[[[t pp] chs] ser] st2] eqn:Ee.
  destruct (extract_fetches self soup surl st1) as [Hf2 _].
  rewrite Ee in Hf2. cbn [snd] in Hf2.
  destruct (path_exists _ st2).
  { intros [= <- <-]. exists []. by rewrite (proj1 (print_fetches _ st2)), Hf2. }
  destruct (story_walk self fuel surl pp chs [surl] ∅ 1 [] [] st2)
    as [[[[allc part] log] st3]|] eqn:Hw; cbn [mbind option_bind]; [|done].
  apply story_walk_spec in Hw as (new & _ & Hf3).
  rewrite Hf2, Hf1, <- app_assoc in Hf3. cbn [app] in Hf3.
  assert (surl ∉ List.filter (fun u => negb (String.eqb u surl)) (map fst new)) as Hout.
  { rewrite list_elem_of_In, filter_In, String.eqb_refl. by intros [_ ?]. }
  destruct allc as [|a allc].
  { intros [= <- <-]. eexists. rewrite (proj1 (print_fetches _ st3)). by split. }
  destruct (create_pdf self _ (a :: allc) _ st3) as [ok st4] eqn:Ec.
  pose proof (create_pdf_trace self
                (if Str.nonempty t then t else stitle) (a :: allc)
                (sanitize_filename (if Str.nonempty t then t else stitle)) st3)
    as [_ Hf4].
  rewrite Ec in Hf4. cbn [snd] in Hf4.
  destruct ok; intros [= <- <-]; eexists;
    rewrite (proj1 (print_fetches _ _)), ?Hf4; by split.
Qed.

(** X21: with series discovery on, a story whose pages carry no series
    link is fetched exactly twice: once by discovery, which starts with
    the story url, and once more by single story mode, which does the
    work. *)
Theorem story_without_series_is_fetched_twice (fuel : nat) (stitle surl : string)
    (st st1 : State) (b : bool) (st' : State) :
  find_series_link_from_all_pages self fuel surl (print ("Story: " +:+ stitle) st)
  = Some (None, st1) ->
  scrape_story self fuel stitle surl true st = Some (b, st') ->
  exists l1 l2,
    fetches (events st1) = fetches (events st) ++ surl :: l1
    /\ fetches (events st') = fetches (events st) ++ surl :: l1 ++ surl :: l2
    /\ (surl ∉ l1) /\ (surl ∉ l2).
Proof.
  intros Hd. unfold scrape_story. rewrite Hd. cbn [mbind option_bind truthy andb].
  intros (l2 & H2 & Hout2)%single_mode_refetches.
  destruct (discovery_fetches_seed self fuel surl _ _ _ Hd) as [_ [l1 H1]].
  destruct (series_walk_spec self fuel _ _ _ _ _ Hd) as (l & Hl & Hnd & _).
  rewrite H1 in Hl. apply app_inv_head in Hl. subst l.
  apply NoDup_cons in Hnd as [Hout1 _].
  rewrite (proj1 (print_fetches _ st)) in H1.
  exists l1, l2. split_and!; [done| |done|done]. rewrite H2, H1, <- app_assoc. done.
Qed.

End Counters.

(** the counters of the crawl of [Demo.category_site] *)
Lemma saved_never_exceeds_found_witness :
  2 <= 2
  /\ 2 = length [("My Story", Demo.story_url); ("My Story", Demo.story_url)]
  /\ last (events (Demo.final_state
                     (@scrape_category (Demo.world Demo.category_site) Demo.self 10 2
                        Demo.st0)))
     = Some (EvPrint ("Done! found:" +:+ Str.of_nat 2 +:+ " saved:" +:+ Str.of_nat 2)).
Proof.
  apply (@saved_never_exceeds_found (Demo.world Demo.category_site) Demo.self 10 2
           Demo.st0).
  vm_compute. reflexivity.
Defined.

(** the one-page story of [Demo.category_site] *)
Lemma story_without_series_is_fetched_twice_witness :
  exists l1 l2,
    fetches (events (Demo.final_state
                       (@find_series_link_from_all_pages (Demo.world Demo.category_site)
                          Demo.self 5 Demo.story_url
                          (print "Story: My Story" Demo.st0))))
    = fetches (events Demo.st0) ++ Demo.story_url :: l1
    /\ fetches (events (Demo.final_state
                          (@scrape_story (Demo.world Demo.category_site) Demo.self 5
                             "My Story" Demo.story_url true Demo.st0)))
       = fetches (events Demo.st0) ++ Demo.story_url :: l1 ++ Demo.story_url :: l2
    /\ (Demo.story_url ∉ l1) /\ (Demo.story_url ∉ l2).
Proof.
  apply (@story_without_series_is_fetched_twice (Demo.world Demo.category_site)
           Demo.self 5 "My Story" Demo.story_url Demo.st0
           (Demo.final_state
              (@find_series_link_from_all_pages (Demo.world Demo.category_site)
                 Demo.self 5 Demo.story_url (print "Story: My Story" Demo.st0)))
           true).
  - vm_compute. reflexivity.
  - vm_compute. reflexivity.
Defined.

(** ** The next listing page read off a page *)

Lemma find_filter_head {A} (f : A -> bool) (l : list A) :
  List.find f l = head (List.filter f l).
Proof. induction l as [|x l IH]; [done|]. simpl. by destruct (f x). Qed.

Section NextPage.
Context `{Externals}.
Variable self : StoryScraperFramework.

Lemma page_link_flat soup cur sels :
  page_link self soup cur sels
  = match List.filter (page_link_ok cur) (flat_map (select soup) sels) with
    | l :: _ => Some (urljoin (base_url self) (href_or_empty (href l)))
    | [] => None
    end.
Proof.
  induction sels as [|s sels IH]; [done|]. cbn [page_link flat_map].
  rewrite List.filter_app, find_filter_head.
  destruct (List.filter (page_link_ok cur) (select soup s)) as [|l ls]; [exact IH|done].
Qed.

(** X22: given a page, the url of the next listing is the target of
    the first anchor, in selector order and then page order, that has a
    target and either says next or points at page [cur + 1]; with no
    such anchor the answer is the rewritten base url, the same as
    without a page. *)
Theorem next_page_is_first_qualifying_anchor (soup : Soup) (cur : nat) :
  get_next_page_url self (Some soup) cur
  = match List.filter (page_link_ok cur) (flat_map (select soup) page_sels) with
    | l :: _ => urljoin (base_url self) (href_or_empty (href l))
    | [] => get_next_page_url self None cur
    end
  /\ forall l, page_link_ok cur l = true ->
       exists h, href l = Some h /\ h <> ""
                 /\ (Str.contains "next" (Str.lower (get_text l)) = true
                     \/ Str.contains ("page=" +:+ Str.of_nat (cur + 1)) h = true).
Proof.
  split.
  - unfold get_next_page_url. rewrite page_link_flat.
    by destruct (List.filter _ _).
  - intros l. unfold page_link_ok. destruct (href l) as [h|]; [|done].
    intros [Hh Hok]%andb_true_iff. exists h. split_and!; [done|by intros ->|].
    by apply orb_true_iff.
Qed.

End NextPage.

(** ** The requests of a series *)

Section SeriesRequests.
Context `{Externals}.
Variable self : StoryScraperFramework.

Lemma chapter_walk_seed fuel curl st pc part log st' :
  chapter_walk self fuel [curl] ∅ 1 [] [] st = Some (pc, part, log, st') ->
  exists l, fetches (events st') = fetches (events st) ++ curl :: l /\ NoDup (curl :: l).
Proof.
  destruct fuel as [|fuel]; [done|]. cbn [chapter_walk].
  rewrite bool_decide_eq_false_2 by apply not_elem_of_empty.
  destruct (fetch curl st) as [pr st1] eqn:Ef.
  destruct (fetch_fetches curl st) as [Hf1 _]. rewrite Ef in Hf1. cbn [snd] in Hf1.
  assert (forall pages part0 pc0 log0 s,
             fetches (events s) = fetches (events st) ++ [curl] ->
             chapter_walk self fuel pages ({[curl]} ∪ ∅) part0 pc0 log0 s
             = Some (pc, part, log, st') ->
             exists l, fetches (events st') = fetches (events st) ++ curl :: l
                       /\ NoDup (curl :: l)) as Hrest.
  { intros pages part0 pc0 log0 s Hs Hw.
    apply chapter_walk_spec in Hw as (new & (_ & _ & _ & Hnd & Hseen & _) & Hf).
    exists (map fst new). split.
    - rewrite Hf, Hs, <- app_assoc. done.
    - apply NoDup_cons. split; [|done]. intros Hin. apply (Hseen _ Hin).
      apply elem_of_union_l. by apply elem_of_singleton. }
  destruct pr as [ps|]; [|by apply Hrest].
  destruct (extract_story_content self ps curl st1) as [[[[t pp] nexts] ser] st2] eqn:Ee.
  destruct (extract_fetches self ps curl st1) as [Hf2 _].
  rewrite Ee in Hf2. cbn [snd] in Hf2.
  destruct pp as [|p pp]; apply Hrest; rewrite ?(proj1 (print_fetches _ _)); congruence.
Qed.

Lemma chapters_loop_requests fuel chs :
  forall cnum allc st allc' st',
    chapters_loop self fuel chs cnum allc st = Some (allc', st') ->
    exists segs,
      fetches (events st') = fetches (events st) ++ concat segs
      /\ Forall2 (fun (c : ChapterRef) seg => exists l, seg = c.1.2 :: l /\ NoDup seg)
                 chs segs.
Proof.
  induction chs as [|[[ct curl] k] chs IH]; intros cnum allc st allc' st'.
  { intros [= <- <-]. exists []. simpl. rewrite app_nil_r. split; [done|constructor]. }
  cbn [chapters_loop].
  destruct (chapter_walk self fuel [curl] ∅ 1 [] [] (print ("  " +:+ ct) st))
    as [[[[pc part] log] st1]|] eqn:Ew; cbn [mbind option_bind]; [|done].
  apply chapter_walk_seed in Ew as (l & Hf1 & Hnd).
  rewrite (proj1 (print_fetches _ st)) in Hf1.
  intros (segs & Hf & Hall)%IH. exists ((curl :: l) :: segs). split.
  - cbn [concat]. rewrite Hf, Hf1, <- !app_assoc. done.
  - constructor; [|done]. by exists l.
Qed.

(** X23: series mode fetches the series page first.  When that fetch
    fails, or when the PDF of the series is on disk, this is its only
    fetch.  Otherwise it goes on to fetch the chapters of the page one
    after the other in the sorted order of the chapter list: the
    requests of a chapter start with the url of the chapter, repeat no
    url, and are over before the next chapter starts. *)
Theorem chapters_are_fetched_in_sorted_order (fuel : nat) (stitle series : string)
    (st : State) (ret : option bool) (st' : State) :
  series_mode self fuel stitle series st = Some (ret, st') ->
  ((fetch series (print ("series found, scraping series for " +:+ stitle) st)).1 = None ->
   ret = None /\ fetches (events st') = fetches (events st) ++ [series])
  /\ forall soup_series,
       (fetch series (print ("series found, scraping series for " +:+ stitle) st)).1
       = Some soup_series ->
       (path_exists (pdf_path self (sanitize_filename (series_title stitle soup_series)))
          (fetch series (print ("series found, scraping series for " +:+ stitle) st)).2
        = true ->
        ret = Some true /\ fetches (events st') = fetches (events st) ++ [series])
       /\ (path_exists (pdf_path self (sanitize_filename (series_title stitle soup_series)))
             (fetch series (print ("series found, scraping series for " +:+ stitle) st)).2
           = false ->
           exists segs,
             fetches (events st') = fetches (events st) ++ series :: concat segs
             /\ Forall2 (fun (c : ChapterRef) seg =>
                           exists l, seg = c.1.2 :: l /\ NoDup seg)
                  (sort_chapters
                     (chapter_links self soup_series (series_title stitle soup_series)
                        ch_sels []))
                  segs).
Proof.
  unfold series_mode. fold (series_title stitle).
  destruct (fetch series (print ("series found, scraping series for " +:+ stitle) st))
    as [sr st1] eqn:Ef.
  destruct (fetch_fetches series
              (print ("series found, scraping series for " +:+ stitle) st)) as [Hf1 _].
  rewrite Ef, (proj1 (print_fetches _ st)) in Hf1. cbn [fst snd] in *.
  destruct sr as [soup_series|].
  2: { intros [= <- <-]. split; [done|]. by intros soup [=]. }
  intros Hrun. split; [done|]. intros soup [= <-].
  change (match select_one soup_series "h1" with
          | Some st_el => get_text_strip st_el
          | None => stitle
          end) with (series_title stitle soup_series) in Hrun.
  set (st_title := series_title stitle soup_series) in *.
  destruct (path_exists _ st1).
  { injection Hrun as <- <-. split; [|done]. intros _. split; [done|].
    by rewrite (proj1 (print_fetches _ st1)). }
  split; [done|]. intros _.
  destruct (chapter_links self soup_series st_title ch_sels []) as [|c cs] eqn:Ec.
  { injection Hrun as <- <-. exists []. split; [done|]. constructor. }
  destruct (chapters_loop self fuel (sort_chapters (c :: cs)) 1 [] st1)
    as [[allc st2]|] eqn:Hl; cbn [mbind option_bind] in Hrun; [|done].
  apply chapters_loop_requests in Hl as (segs & Hf2 & Hall).
  rewrite Hf1, <- app_assoc in Hf2. cbn [app] in Hf2.
  exists segs. split; [|done].
  destruct allc as [|a allc]; [by injection Hrun as <- <-|].
  destruct (create_pdf self st_title (a :: allc) (sanitize_filename st_title) st2)
    as [ok st3] eqn:Ep.
  pose proof (create_pdf_trace self st_title (a :: allc) (sanitize_filename st_title) st2)
    as [_ Hf3].
  rewrite Ep in Hf3. cbn [snd] in Hf3.
  destruct ok; injection Hrun as <- <-; rewrite ?(proj1 (print_fetches _ _)); congruence.
Qed.

End SeriesRequests.

(** the series of [Saga.site], whose page lists the epilogue before
    chapter two *)
Lemma chapters_are_fetched_in_sorted_order_witness :
  exists segs,
    fetches (events (Demo.final_state
                       (@series_mode (Demo.world Saga.site) Demo.self 5
                          "Summer Nights Ch. 02" Saga.series_url Demo.st0)))
    = fetches (events Demo.st0) ++ Saga.series_url :: concat segs
    /\ Forall2 (fun (c : ChapterRef) seg => exists l, seg = c.1.2 :: l /\ NoDup seg)
         (sort_chapters
            (@chapter_links (Demo.world Saga.site) Demo.self Demo.series_page
               (series_title "Summer Nights Ch. 02" Demo.series_page) ch_sels []))
         segs.
Proof.
  destruct (@chapters_are_fetched_in_sorted_order (Demo.world Saga.site) Demo.self 5
              "Summer Nights Ch. 02" Saga.series_url Demo.st0 (Some true)
              (Demo.final_state
                 (@series_mode (Demo.world Saga.site) Demo.self 5
                    "Summer Nights Ch. 02" Saga.series_url Demo.st0)))
    as [_ Hserved].
  - vm_compute. reflexivity.
  - destruct (Hserved Demo.series_page) as [_ Hchapters]; [reflexivity|].
    apply Hchapters. vm_compute. reflexivity.
Defined.

(** the pager link to page two, seen from page one *)
Lemma next_page_is_first_qualifying_anchor_witness :
  exists h, href Demo.pager_two = Some h /\ h <> ""
            /\ (Str.contains "next" (Str.lower (get_text Demo.pager_two)) = true
                \/ Str.contains ("page=" +:+ Str.of_nat (1 + 1)) h = true).
Proof.
  apply (@next_page_is_first_qualifying_anchor (Demo.world Demo.category_site) Demo.self
           Demo.mixed_page 1).
  reflexivity.
Defined.
